(** * minicontratos: the span ledger, its hashing, its contract view, its
    verifier and the span extraction, embedded in Rocq.

    Sources embedded here:
    - [src/lib/crypto.ts]   (hashing, signing, credential encryption),
    - [src/lib/database.ts] (IndexedDB stores, [querySpans]) and
      [src/lib/ledger.ts]   ([appendToLedger], [updateContractFromSpans],
      [verifyLedger]),
    - [src/lib/llm.ts]      ([extractSpansFromResponse]),
    - [src/types/*.ts]      (the records).

    Conventions.  A JavaScript string is a [string] whose characters are
    UTF-16 code units below 256; where the whole range of code units matters
    (the credential round trip) a string is a list of code units.  A
    [Uint8Array] is a [list byte].  A JavaScript number is a [Z]: only
    integers are modelled, and of them those a number holds exactly and
    prints digit by digit (absolute value below 2^53).  An [async] function
    is run to completion: the program has a single writer and awaits every
    call, so a call is a function from the stores before it to the stores
    after it, in the [result] monad when it can reject.

    The stores hold values of the types the program declares for them
    ([Span], [Contract], [Identity], [Session]).  TypeScript does not check
    what [JSON.parse] returns, so the running program can be handed an
    object that lacks a field of its type; such objects are outside the
    model.  What this leaves out is said at the functions concerned
    ([querySpans], [getAllContracts], [appendSpan]). *)

From Stdlib Require Import String Ascii List ZArith NArith Bool Lia Permutation.
From Stdlib Require Import DecimalString Sorted.
From Stdlib.Strings Require Import Byte.
Import ListNotations.
Local Open Scope list_scope.
Local Open Scope string_scope.

Set Implicit Arguments.
Set Warnings "-register-all".

(* ================================================================== *)
(** * Exceptions and the result monad *)
(* ================================================================== *)

(** The exceptions the modelled code can meet. *)
Inductive Exception : Type :=
| ConstraintError      (* IndexedDB: [add] on a key that exists *)
| InvalidAccessError   (* WebCrypto: key of the wrong type or usage *)
| OperationError       (* WebCrypto: AES-GCM authentication failure *)
| InvalidCharacterError (* [atob] on a string that is not base64 *)
| SyntaxError          (* [JSON.parse] *)
| TypeError.           (* property read on [null] or [undefined] *)

Inductive result (A : Type) : Type :=
| Ok (a : A)
| Throw (e : Exception).

Arguments Ok {A} a.
Arguments Throw {A} e.

Definition bind {A B : Type} (m : result A) (k : A -> result B) : result B :=
  match m with
  | Ok a => k a
  | Throw e => Throw e
  end.

Notation "x <- m ;; k" := (bind m (fun x => k))
  (at level 61, m at next level, right associativity).

(** [try { m } catch { h }]. *)
Definition try_catch {A : Type} (m : result A) (h : Exception -> A) : A :=
  match m with
  | Ok a => a
  | Throw e => h e
  end.

(* ================================================================== *)
(** * JavaScript values *)
(* ================================================================== *)

(** Plain data as [JSON.parse], object literals and IndexedDB hold it.  The
    property list of an object is in the order in which JavaScript enumerates
    its own properties (for names that are not array indices: the order of
    insertion; array indices come first, in ascending order).  A number is
    an integer below 2^53 in absolute value. *)
Inductive JSValue : Type :=
| JUndefined
| JNull
| JBool (b : bool)
| JNum (n : Z)
| JStr (s : string)
| JArr (elems : list JSValue)
| JObj (props : list (string * JSValue)).

Definition JSObject : Type := list (string * JSValue).

(** [!!v]. *)
Definition truthy (v : JSValue) : bool :=
  match v with
  | JUndefined | JNull => false
  | JBool b => b
  | JNum n => negb (n =? 0)%Z
  | JStr s => negb (s =? "")
  | JArr _ | JObj _ => true
  end.

(** [!!s] for a string that may be absent. *)
Definition truthy_string (s : option string) : bool :=
  match s with
  | Some x => negb (x =? "")
  | None => false
  end.

(** Own property [k] of a property list. *)
Fixpoint lookup (k : string) (props : JSObject) : JSValue :=
  match props with
  | [] => JUndefined
  | (k', v) :: rest => if k' =? k then v else lookup k rest
  end.

(** [v?.k] for a name [k] that is neither an array index nor a built-in
    property: [undefined] on everything but an object that has it. *)
Definition get_prop (k : string) (v : JSValue) : JSValue :=
  match v with
  | JObj props => lookup k props
  | _ => JUndefined
  end.

(** [v.k]: as [v?.k], but a [TypeError] on [null] and [undefined]. *)
Definition get_prop_strict (k : string) (v : JSValue) : result JSValue :=
  match v with
  | JUndefined | JNull => Throw TypeError
  | _ => Ok (get_prop k v)
  end.

(** [{ ...obj, k: v }]: an existing property keeps its place and takes the
    new value, a new one goes last. *)
Fixpoint set_prop (k : string) (v : JSValue) (props : JSObject) : JSObject :=
  match props with
  | [] => [(k, v)]
  | (k', v') :: rest =>
      if k' =? k then (k', v) :: rest else (k', v') :: set_prop k v rest
  end.

(** [const { k, ...rest } = obj]: the properties but [k], in their order. *)
Definition remove_prop (k : string) (props : JSObject) : JSObject :=
  filter (fun kv => negb (fst kv =? k)) props.

Definition string_of_nat (n : nat) : string :=
  NilZero.string_of_uint (Nat.to_uint n).

Definition string_of_Z (n : Z) : string :=
  NilZero.string_of_int (Z.to_int n).

(** The one-character strings of a string, [Object.values("ab")]. *)
Fixpoint chars (s : string) : list JSValue :=
  match s with
  | EmptyString => []
  | String c rest => JStr (String c EmptyString) :: chars rest
  end.

Fixpoint indexed {A : Type} (i : nat) (l : list A) : list (string * A) :=
  match l with
  | [] => []
  | x :: rest => (string_of_nat i, x) :: indexed (S i) rest
  end.

(** The own enumerable properties an object spread [{ ...v }] copies. *)
Definition spread (v : JSValue) : JSObject :=
  match v with
  | JObj props => props
  | JArr elems => indexed 0 elems
  | JStr s => indexed 0 (chars s)
  | _ => []
  end.

(** [Object.values(v)] for a [v] that is not [null] or [undefined]. *)
Definition Object_values (v : JSValue) : list JSValue :=
  map snd (spread v).

(** [String(v)], and [Array.prototype.join], which prints [null] and
    [undefined] elements as the empty string. *)
Fixpoint ToString (v : JSValue) : string :=
  match v with
  | JUndefined => "undefined"
  | JNull => "null"
  | JBool true => "true"
  | JBool false => "false"
  | JNum n => string_of_Z n
  | JStr s => s
  | JArr elems =>
      (fix join_comma (l : list JSValue) : string :=
         match l with
         | [] => ""
         | x :: rest =>
             let sx := match x with
                       | JUndefined | JNull => ""
                       | _ => ToString x
                       end in
             match rest with
             | [] => sx
             | _ :: _ => sx ++ "," ++ join_comma rest
             end
         end) elems
  | JObj _ => "[object Object]"
  end.

Definition join_item (v : JSValue) : string :=
  match v with
  | JUndefined | JNull => ""
  | _ => ToString v
  end.

Fixpoint join (sep : string) (l : list JSValue) : string :=
  match l with
  | [] => ""
  | x :: rest =>
      match rest with
      | [] => join_item x
      | _ :: _ => join_item x ++ sep ++ join sep rest
      end
  end.

(** [s.slice(0, n)] for [n >= 0]. *)
Definition slice0 (n : nat) (s : string) : string := substring 0 n s.

(* ================================================================== *)
(** * Records of [src/types] *)
(* ================================================================== *)

Module Rule.
Record t : Type := mk {
  id : string;
  condition : string;
  action : string;
  parameters : option JSObject;
  description : option string
}.
End Rule.

Module SpanBody.
Record t : Type := mk {
  action : string;
  input : JSValue;
  output : JSValue;
  rules : option (list Rule.t);
  metadata : option JSObject
}.
End SpanBody.

Module SpanHash.
Record t : Type := mk {
  hash : string;
  version : string
}.
End SpanHash.

Module SpanConfirmation.
Record t : Type := mk {
  signature : string;
  domain : string;
  timestamp : string;
  signer_id : string
}.
End SpanConfirmation.

Module Span.
Record t : Type := mk {
  id : string;
  trace_id : string;
  parent_id : option string;
  type : string;
  entity : string;
  body : SpanBody.t;
  started_at : string;
  completed_at : option string;
  duration_ms : option Z;
  this : SpanHash.t;
  confirmed_by : option SpanConfirmation.t
}.

(** [span.this.hash = h]. *)
Definition set_hash (h : string) (s : t) : t :=
  mk (id s) (trace_id s) (parent_id s) (type s) (entity s) (body s)
     (started_at s) (completed_at s) (duration_ms s)
     (SpanHash.mk h (SpanHash.version (this s))) (confirmed_by s).

(** [span.confirmed_by = c]. *)
Definition set_confirmed_by (c : SpanConfirmation.t) (s : t) : t :=
  mk (id s) (trace_id s) (parent_id s) (type s) (entity s) (body s)
     (started_at s) (completed_at s) (duration_ms s) (this s) (Some c).
End Span.

Inductive ContractStatus : Type := draft | active | completed | cancelled.

Module Contract.
Record t : Type := mk {
  id : string;
  title : JSValue;          (* declared [string]; [input.title] is stored as it is *)
  description : JSValue;    (* declared [string | undefined] *)
  parties : list JSValue;
  status : ContractStatus;
  created_at : string;
  updated_at : string;
  completed_at : option string;
  spans : list string;
  metadata : option JSObject
}.

(** Equal in every field but [updated_at]. *)
Definition same_but_updated_at (a b : t) : Prop :=
  id a = id b /\ title a = title b /\ description a = description b
  /\ parties a = parties b /\ status a = status b
  /\ created_at a = created_at b /\ completed_at a = completed_at b
  /\ spans a = spans b /\ metadata a = metadata b.
End Contract.

(** WebCrypto's [CryptoKey]: its type, its usages and the key behind the
    handle. *)
Inductive KeyType : Type := public | private | secret.
Inductive KeyUsage : Type := usage_sign | usage_verify.

Module CryptoKey.
Record t : Type := mk {
  type : KeyType;
  usages : list KeyUsage;
  handle : list byte
}.
End CryptoKey.

Module Identity.
Record t : Type := mk {
  user_id : string;
  public_key : list byte;   (* the exported JWK *)
  private_key_handle : CryptoKey.t;
  created_at : string
}.
End Identity.

Module SpanFilter.
Record t : Type := mk {
  trace_id : option string;
  type : option string;
  entity : option string;
  user_id : option string;
  from : option string;
  to : option string;
  limit : option Z
}.
Definition empty : t := mk None None None None None None None.
End SpanFilter.

(* ================================================================== *)
(** * What the program takes from its platform *)
(* ================================================================== *)

(** The functions of the browser and of the libraries the program calls
    without defining them.  Every theorem below holds for all of them. *)
Class Runtime : Type := {
  (** [blake3] of [@noble/hashes]. *)
  blake3 : list byte -> list byte;
  (** Ed25519 behind [crypto.subtle]: the public key of a private key, the
      signature, its verification. *)
  Ed25519_public : list byte -> list byte;
  Ed25519_sign : list byte -> list byte -> list byte;
  Ed25519_verify : list byte -> list byte -> list byte -> bool;
  (** PBKDF2 (password, salt, iterations) and AES-GCM (key, iv, text). *)
  PBKDF2_SHA256 : list byte -> list byte -> Z -> list byte;
  AES_GCM_encrypt : list byte -> list byte -> list byte -> list byte;
  AES_GCM_decrypt : list byte -> list byte -> list byte -> option (list byte);
  (** [String.prototype.localeCompare]. *)
  localeCompare : string -> string -> comparison;
  (** [JSON.parse]; [None] is its [SyntaxError]. *)
  JSON_parse : string -> option JSValue;
  (** The object a typed span is at run time: the type fixes its fields, not
      the order of its properties. *)
  spanObject : Span.t -> JSObject
}.

(* ================================================================== *)
(** * [JSON.stringify], [TextEncoder] and hexadecimal *)
(* ================================================================== *)

Definition hex_digit (n : N) : ascii :=
  match n with
  | 0 => "0" | 1 => "1" | 2 => "2" | 3 => "3" | 4 => "4" | 5 => "5"
  | 6 => "6" | 7 => "7" | 8 => "8" | 9 => "9" | 10 => "a" | 11 => "b"
  | 12 => "c" | 13 => "d" | 14 => "e" | _ => "f"
  end%N%char.

(** [b.toString(16).padStart(2, '0')]. *)
Definition hex_of_byte (b : byte) : string :=
  let n := Byte.to_N b in
  String (hex_digit (n / 16)) (String (hex_digit (n mod 16)) EmptyString).

Definition bytesToHex (bytes : list byte) : string :=
  String.concat "" (map hex_of_byte bytes).

Definition str1 (c : ascii) : string := String c EmptyString.

(** The double quote, code unit 34. *)
Definition dquote : string := str1 (ascii_of_N 34).

(** One code unit inside a JSON string literal ([QuoteJSONString]). *)
Definition quote_char (c : ascii) : string :=
  let n := N_of_ascii c in
  if (n =? 34)%N then "\" ++ dquote
  else if (n =? 92)%N then "\\"
  else if (n =? 8)%N then "\b"
  else if (n =? 9)%N then "\t"
  else if (n =? 10)%N then "\n"
  else if (n =? 12)%N then "\f"
  else if (n =? 13)%N then "\r"
  else if (n <? 32)%N then
    "\u00" ++ String (hex_digit (n / 16)) (str1 (hex_digit (n mod 16)))
  else str1 c.

Fixpoint quote_chars (s : string) : string :=
  match s with
  | EmptyString => EmptyString
  | String c rest => quote_char c ++ quote_chars rest
  end.

Definition quote (s : string) : string := dquote ++ quote_chars s ++ dquote.

(** [JSON.stringify(v, null, 0)]: no indentation; [None] is [undefined].  A
    property whose value is [undefined] is left out, an [undefined] array
    element is printed [null]; the properties come in the order of the
    object. *)
Fixpoint JSON_stringify (v : JSValue) : option string :=
  match v with
  | JUndefined => None
  | JNull => Some "null"
  | JBool true => Some "true"
  | JBool false => Some "false"
  | JNum n => Some (string_of_Z n)
  | JStr s => Some (quote s)
  | JArr elems =>
      Some ("[" ++ String.concat ","
              ((fix items (l : list JSValue) : list string :=
                  match l with
                  | [] => []
                  | x :: rest =>
                      match JSON_stringify x with
                      | Some s => s :: items rest
                      | None => "null" :: items rest
                      end
                  end) elems) ++ "]")
  | JObj props =>
      Some ("{" ++ String.concat ","
              ((fix members (l : list (string * JSValue)) : list string :=
                  match l with
                  | [] => []
                  | (k, x) :: rest =>
                      match JSON_stringify x with
                      | Some s => (quote k ++ ":" ++ s) :: members rest
                      | None => members rest
                      end
                  end) props) ++ "}")
  end.

(** [JSON.stringify] of something that is not [undefined]. *)
Definition JSON_stringify_object (props : JSObject) : string :=
  match JSON_stringify (JObj props) with
  | Some s => s
  | None => EmptyString
  end.

(** The byte of a number below 256. *)
Definition byte_of_N (n : N) : byte :=
  match Byte.of_N n with
  | Some b => b
  | None => x00
  end.

Definition is_high_surrogate (u : N) : bool := ((55296 <=? u) && (u <=? 56319))%N.
Definition is_low_surrogate (u : N) : bool := ((56320 <=? u) && (u <=? 57343))%N.

(** The scalar values of a string of UTF-16 code units: a surrogate pair is
    one code point, a lone surrogate becomes U+FFFD. *)
Fixpoint scalar_values (units : list N) : list N :=
  match units with
  | [] => []
  | u :: rest =>
      if is_high_surrogate u then
        match rest with
        | v :: rest' =>
            if is_low_surrogate v
            then (65536 + (u - 55296) * 1024 + (v - 56320))%N :: scalar_values rest'
            else 65533%N :: scalar_values rest
        | [] => [65533%N]
        end
      else if is_low_surrogate u then 65533%N :: scalar_values rest
      else u :: scalar_values rest
  end.

(** UTF-8 of one scalar value. *)
Definition utf8_of_scalar (c : N) : list byte :=
  (if c <? 128 then [byte_of_N c]
   else if c <? 2048 then [byte_of_N (192 + c / 64); byte_of_N (128 + c mod 64)]
   else if c <? 65536 then
     [byte_of_N (224 + c / 4096); byte_of_N (128 + (c / 64) mod 64);
      byte_of_N (128 + c mod 64)]
   else
     [byte_of_N (240 + c / 262144); byte_of_N (128 + (c / 4096) mod 64);
      byte_of_N (128 + (c / 64) mod 64); byte_of_N (128 + c mod 64)])%N.

(** [new TextEncoder().encode(s)] on the code units of [s]. *)
Definition utf8_encode (units : list N) : list byte :=
  flat_map utf8_of_scalar (scalar_values units).

Definition code_units (s : string) : list N :=
  map N_of_ascii (list_ascii_of_string s).

Definition TextEncoder_encode (s : string) : list byte :=
  utf8_encode (code_units s).

(** White space of [parseInt] among the code units below 256. *)
Definition is_space (c : ascii) : bool :=
  let n := N_of_ascii c in
  ((n =? 9) || (n =? 10) || (n =? 11) || (n =? 12) || (n =? 13)
   || (n =? 32) || (n =? 160))%N.

Definition hex_value (c : ascii) : option Z :=
  let n := Z.of_N (N_of_ascii c) in
  (if (48 <=? n) && (n <=? 57) then Some (n - 48)
   else if (97 <=? n) && (n <=? 102) then Some (n - 87)
   else if (65 <=? n) && (n <=? 70) then Some (n - 55)
   else None)%Z.

(** [parseInt(s, 16)] for a string [s] of the two code units [a], [b]; [None]
    is [NaN].  Leading white space and one sign are skipped, the prefix [0x]
    is dropped, and the digits up to the first other character are read. *)
Definition parseInt16 (a b : ascii) : option Z :=
  let na := N_of_ascii a in
  let nb := N_of_ascii b in
  if is_space a then hex_value b
  else if (na =? 43)%N then hex_value b
  else if (na =? 45)%N then option_map Z.opp (hex_value b)
  else if ((na =? 48) && ((nb =? 120) || (nb =? 88)))%N then None
  else match hex_value a with
       | Some x => match hex_value b with
                   | Some y => Some (16 * x + y)%Z
                   | None => Some x
                   end
       | None => None
       end.

(** The element a [Uint8Array] keeps of a number: [NaN] is 0, the others
    are taken modulo 256. *)
Definition ToUint8 (n : option Z) : byte :=
  match n with
  | Some z => byte_of_N (Z.to_N (z mod 256))
  | None => x00
  end.

Fixpoint hex_pairs (s : string) : list byte :=
  match s with
  | String a (String b rest) => ToUint8 (parseInt16 a b) :: hex_pairs rest
  | _ => []
  end.

(** [hexToBytes].  [new Uint8Array(hex.length / 2)] has the length
    [hex.length / 2] rounded down, and a write past the end of a typed array
    is dropped: of a text of odd length the last character is not read.  Two
    characters that are no hexadecimal number give the byte 0, and nothing
    throws. *)
Definition hexToBytes (hex : string) : list byte := hex_pairs hex.

(** [s.slice(n)]. *)
Definition slice_from (n : nat) (s : string) : string :=
  substring n (String.length s - n) s.

(* ================================================================== *)
(** * [src/lib/crypto.ts]: hashing and signatures *)
(* ================================================================== *)

Section Crypto.
Context {RT : Runtime}.

(** [calculateHash] on bytes; on a string it is applied to
    [TextEncoder_encode] of the string. *)
Definition calculateHash (bytes : list byte) : string :=
  "blake3:" ++ bytesToHex (blake3 bytes).

(** The object [calculateSpanHash] serializes:
[[
  const spanForHashing = {
    ...span,
    this: { ...span.this, hash: '' },
    confirmed_by: span.confirmed_by
      ? { ...span.confirmed_by, signature: '' } : undefined,
  };
  if (spanForHashing.confirmed_by?.signature === '') {
    const { signature, ...rest } = spanForHashing.confirmed_by;
    spanForHashing.confirmed_by = rest as any;
  }
]]
*)
Definition spanForHashing (span : JSObject) : JSObject :=
  let this' := JObj (set_prop "hash" (JStr "") (spread (lookup "this" span))) in
  let confirmed_by :=
    if truthy (lookup "confirmed_by" span)
    then JObj (set_prop "signature" (JStr "")
                 (spread (lookup "confirmed_by" span)))
    else JUndefined in
  let spanForHashing :=
    set_prop "confirmed_by" confirmed_by (set_prop "this" this' span) in
  match get_prop "signature" (lookup "confirmed_by" spanForHashing) with
  | JStr EmptyString =>
      set_prop "confirmed_by"
        (JObj (remove_prop "signature"
                 (spread (lookup "confirmed_by" spanForHashing))))
        spanForHashing
  | _ => spanForHashing
  end.

(** [calculateSpanHash]: the hash of [JSON.stringify(spanForHashing, null, 0)]. *)
Definition calculateSpanHash (span : JSObject) : string :=
  calculateHash (TextEncoder_encode (JSON_stringify_object (spanForHashing span))).

(** [generateKeyPair], from the private key the platform draws. *)
Definition generateKeyPair (seed : list byte) : CryptoKey.t * CryptoKey.t :=
  (CryptoKey.mk public [usage_verify] (Ed25519_public seed),
   CryptoKey.mk private [usage_sign] seed).

Definition has_usage (u : KeyUsage) (key : CryptoKey.t) : bool :=
  existsb (fun u' => match u, u' with
                     | usage_sign, usage_sign => true
                     | usage_verify, usage_verify => true
                     | _, _ => false
                     end) (CryptoKey.usages key).

(** [crypto.subtle.sign({name: 'Ed25519'}, key, data)]: an
    [InvalidAccessError] unless the key may sign and is a private key. *)
Definition subtle_sign (key : CryptoKey.t) (data : list byte) : result (list byte) :=
  if negb (has_usage usage_sign key) then Throw InvalidAccessError
  else match CryptoKey.type key with
       | private => Ok (Ed25519_sign (CryptoKey.handle key) data)
       | _ => Throw InvalidAccessError
       end.

(** [crypto.subtle.verify({name: 'Ed25519'}, key, signature, data)]: an
    [InvalidAccessError] unless the key may verify and is a public key. *)
Definition subtle_verify (key : CryptoKey.t) (sig data : list byte) : result bool :=
  if negb (has_usage usage_verify key) then Throw InvalidAccessError
  else match CryptoKey.type key with
       | public => Ok (Ed25519_verify (CryptoKey.handle key) sig data)
       | _ => Throw InvalidAccessError
       end.

(** [sign] on a string. *)
Definition sign (data : string) (privateKey : CryptoKey.t) : result string :=
  signature <- subtle_sign privateKey (TextEncoder_encode data) ;;
  Ok ("ed25519:" ++ bytesToHex signature).

(** [verify] on a string: whatever is thrown inside is caught and answered
    [false]. *)
Definition verify (data : string) (signature : string) (publicKey : CryptoKey.t) : bool :=
  try_catch
    (let bytes := TextEncoder_encode data in
     let sigHex := if prefix "ed25519:" signature
                   then slice_from 8 signature else signature in
     let sigBytes := hexToBytes sigHex in
     subtle_verify publicKey sigBytes bytes)
    (fun _ => false).

(** [signSpan]: the span as the call leaves it, and the signature. *)
Definition signSpan (span : Span.t) (privateKey : CryptoKey.t) : Span.t * result string :=
  let span :=
    if SpanHash.hash (Span.this span) =? ""
    then Span.set_hash (calculateSpanHash (spanObject span)) span
    else span in
  (span, sign (SpanHash.hash (Span.this span)) privateKey).

(** [span.confirmed_by?.signature], which is falsy when it is absent or empty. *)
Definition signature_of (span : Span.t) : option string :=
  option_map SpanConfirmation.signature (Span.confirmed_by span).

(** [verifySpan]. *)
Definition verifySpan (span : Span.t) (publicKey : CryptoKey.t) : bool :=
  match Span.confirmed_by span with
  | None => false
  | Some confirmed_by =>
      if SpanConfirmation.signature confirmed_by =? "" then false
      else
        let calculatedHash := calculateSpanHash (spanObject span) in
        if negb (SpanHash.hash (Span.this span) =? calculatedHash) then false
        else verify (SpanHash.hash (Span.this span))
                    (SpanConfirmation.signature confirmed_by) publicKey
  end.

End Crypto.

(* ================================================================== *)
(** * [src/lib/crypto.ts]: the encryption of the API key *)
(* ================================================================== *)

(** The base64 alphabet. *)
Definition b64_char (n : N) : ascii :=
  (if n <? 26 then ascii_of_N (65 + n)
   else if n <? 52 then ascii_of_N (97 + (n - 26))
   else if n <? 62 then ascii_of_N (48 + (n - 52))
   else if n =? 62 then ascii_of_N 43
   else ascii_of_N 47)%N.

Definition b64_value (c : ascii) : option N :=
  let n := N_of_ascii c in
  (if (65 <=? n) && (n <=? 90) then Some (n - 65)
   else if (97 <=? n) && (n <=? 122) then Some (n - 97 + 26)
   else if (48 <=? n) && (n <=? 57) then Some (n - 48 + 52)
   else if n =? 43 then Some 62
   else if n =? 47 then Some 63
   else None)%N.

Definition pad : ascii := ascii_of_N 61.

(** [btoa] on a binary string (every code unit of the model is below 256). *)
Fixpoint btoa (s : string) : string :=
  match s with
  | EmptyString => EmptyString
  | String a EmptyString =>
      let x := N_of_ascii a in
      String (b64_char (x / 4)) (String (b64_char ((x mod 4) * 16))
        (String pad (String pad EmptyString)))
  | String a (String b EmptyString) =>
      let x := N_of_ascii a in
      let y := N_of_ascii b in
      String (b64_char (x / 4)) (String (b64_char ((x mod 4) * 16 + y / 16))
        (String (b64_char ((y mod 16) * 4)) (String pad EmptyString)))
  | String a (String b (String c rest)) =>
      let x := N_of_ascii a in
      let y := N_of_ascii b in
      let z := N_of_ascii c in
      String (b64_char (x / 4)) (String (b64_char ((x mod 4) * 16 + y / 16))
        (String (b64_char ((y mod 16) * 4 + z / 64))
           (String (b64_char (z mod 64)) (btoa rest))))
  end%N.

(** ASCII white space, which [atob] removes first. *)
Definition ascii_whitespace (c : ascii) : bool :=
  let n := N_of_ascii c in
  ((n =? 9) || (n =? 10) || (n =? 12) || (n =? 13) || (n =? 32))%N.

Fixpoint remove_whitespace (s : string) : string :=
  match s with
  | EmptyString => EmptyString
  | String c rest =>
      if ascii_whitespace c then remove_whitespace rest
      else String c (remove_whitespace rest)
  end.

(** Without the one or two [=] at its end. *)
Fixpoint remove_padding (s : string) : string :=
  if (s =? String pad EmptyString) || (s =? String pad (String pad EmptyString))
  then EmptyString
  else match s with
       | EmptyString => EmptyString
       | String c rest => String c (remove_padding rest)
       end.

(** The groups of four characters, then the two or three left over. *)
Fixpoint decode_groups (s : string) : result string :=
  match s with
  | EmptyString => Ok EmptyString
  | String a EmptyString => Throw InvalidCharacterError
  | String a (String b EmptyString) =>
      match b64_value a, b64_value b with
      | Some x, Some y => Ok (String (ascii_of_N (x * 4 + y / 16)) EmptyString)
      | _, _ => Throw InvalidCharacterError
      end
  | String a (String b (String c EmptyString)) =>
      match b64_value a, b64_value b, b64_value c with
      | Some x, Some y, Some z =>
          Ok (String (ascii_of_N (x * 4 + y / 16))
                (String (ascii_of_N ((y mod 16) * 16 + z / 4)) EmptyString))
      | _, _, _ => Throw InvalidCharacterError
      end
  | String a (String b (String c (String d rest))) =>
      match b64_value a, b64_value b, b64_value c, b64_value d with
      | Some x, Some y, Some z, Some w =>
          out <- decode_groups rest ;;
          Ok (String (ascii_of_N (x * 4 + y / 16))
                (String (ascii_of_N ((y mod 16) * 16 + z / 4))
                   (String (ascii_of_N ((z mod 4) * 64 + w)) out)))
      | _, _, _, _ => Throw InvalidCharacterError
      end
  end%N.

(** [atob]: the forgiving base64 decoding. *)
Definition atob (data : string) : result string :=
  let data := remove_whitespace data in
  let data :=
    if Nat.eqb (String.length data mod 4) 0 then remove_padding data else data in
  if Nat.eqb (String.length data mod 4) 1 then Throw InvalidCharacterError
  else decode_groups data.

(** [bytesToBase64]: [btoa(String.fromCharCode(...bytes))]. *)
Definition bytesToBase64 (bytes : list byte) : string :=
  btoa (string_of_list_byte bytes).

(** [base64ToBytes]: [Uint8Array.from(atob(base64), c => c.charCodeAt(0))]. *)
Definition base64ToBytes (base64 : string) : result (list byte) :=
  binString <- atob base64 ;;
  Ok (list_byte_of_string binString).

(** The state of the UTF-8 decoder of [TextDecoder]: the code point so far,
    the continuation bytes seen and needed, and the range the next byte has
    to be in. *)
Module Utf8.
Record state : Type := mk {
  code_point : N;
  seen : N;
  needed : N;
  lower : N;
  upper : N
}.
Definition start : state := mk 0 0 0 128 191.

(** A byte met when no continuation is needed: the code points it emits and
    the next state. *)
Definition lead (b : N) : list N * state :=
  (if b <=? 127 then ([b], start)
   else if (194 <=? b) && (b <=? 223) then ([], mk (b mod 32) 0 1 128 191)
   else if (224 <=? b) && (b <=? 239) then
     ([], mk (b mod 16) 0 2 (if b =? 224 then 160 else 128)
             (if b =? 237 then 159 else 191))
   else if (240 <=? b) && (b <=? 244) then
     ([], mk (b mod 8) 0 3 (if b =? 240 then 144 else 128)
             (if b =? 244 then 143 else 191))
   else ([65533], start))%N.

(** The decoder.  A byte out of the expected range ends the sequence with
    U+FFFD and is read again as a first byte; a sequence cut by the end of
    the input gives U+FFFD. *)
Fixpoint decode (st : state) (bytes : list N) : list N :=
  match bytes with
  | [] => if (needed st =? 0)%N then [] else [65533%N]
  | b :: rest =>
      if (needed st =? 0)%N then
        let '(out, st') := lead b in (out ++ decode st' rest)%list
      else if ((b <? lower st) || (upper st <? b))%N then
        let '(out, st') := lead b in (65533%N :: out ++ decode st' rest)%list
      else
        let cp := (code_point st * 64 + b mod 64)%N in
        if (seen st + 1 =? needed st)%N then cp :: decode start rest
        else decode (mk cp (seen st + 1) (needed st) 128 191) rest
  end.

(** The UTF-16 code units of a code point. *)
Definition utf16 (cp : N) : list N :=
  (if cp <? 65536 then [cp]
   else [55296 + (cp - 65536) / 1024; 56320 + (cp - 65536) mod 1024])%N.
End Utf8.

(** [new TextDecoder().decode(bytes)]: UTF-8, and a byte order mark at the
    start is dropped ([ignoreBOM] is false). *)
Definition TextDecoder_decode (bytes : list byte) : list N :=
  let code_points := Utf8.decode Utf8.start (map Byte.to_N bytes) in
  let code_points :=
    match code_points with
    | cp :: rest => if (cp =? 65279)%N then rest else code_points
    | [] => []
    end in
  flat_map Utf8.utf16 code_points.

(** A string of 16-bit code units in which every surrogate is half of a
    pair. *)
Fixpoint well_formed (units : list N) : bool :=
  match units with
  | [] => true
  | u :: rest =>
      if is_high_surrogate u then
        match rest with
        | v :: rest' => is_low_surrogate v && well_formed rest'
        | [] => false
        end
      else negb (is_low_surrogate u) && (u <? 65536)%N && well_formed rest
  end.

(** A Unicode scalar value: a code point that is not a surrogate. *)
Definition valid_scalar (c : N) : Prop :=
  (c < 55296 \/ 57344 <= c < 1114112)%N.

(** Whether the string starts with the byte order mark U+FEFF. *)
Definition starts_with_BOM (units : list N) : bool :=
  match units with
  | u :: _ => (u =? 65279)%N
  | [] => false
  end.

(** The random bytes of the platform: a tape and the place reached on it. *)
Module Rng.
Record t : Type := mk {
  tape : nat -> byte;
  position : nat
}.
End Rng.

(** [crypto.getRandomValues(new Uint8Array(n))]. *)
Definition getRandomValues (n : nat) (rng : Rng.t) : list byte * Rng.t :=
  (map (Rng.tape rng) (seq (Rng.position rng) n),
   Rng.mk (Rng.tape rng) (Rng.position rng + n)).

Definition PBKDF2_iterations : Z := 100000.

Section ApiKey.
Context {RT : Runtime}.

(** [encryptApiKey]; the strings are lists of code units. *)
Definition encryptApiKey (apiKey userId : list N) (rng : Rng.t) : string * Rng.t :=
  (* Generate salt *)
  let '(salt, rng) := getRandomValues 16 rng in
  (* Derive key from userId *)
  let keyMaterial := utf8_encode userId in
  let encryptionKey := PBKDF2_SHA256 keyMaterial salt PBKDF2_iterations in
  (* Generate IV *)
  let '(iv, rng) := getRandomValues 12 rng in
  (* Encrypt *)
  let encrypted := AES_GCM_encrypt encryptionKey iv (utf8_encode apiKey) in
  (* Combine salt + iv + ciphertext *)
  let combined := (salt ++ iv ++ encrypted)%list in
  (bytesToBase64 combined, rng).

(** [decryptApiKey]. *)
Definition decryptApiKey (encrypted : string) (userId : list N) : result (list N) :=
  data <- base64ToBytes encrypted ;;
  (* Extract components *)
  let salt := firstn 16 data in
  let iv := firstn 12 (skipn 16 data) in
  let ciphertext := skipn 28 data in
  (* Derive key *)
  let keyMaterial := utf8_encode userId in
  let decryptionKey := PBKDF2_SHA256 keyMaterial salt PBKDF2_iterations in
  (* Decrypt *)
  match AES_GCM_decrypt decryptionKey iv ciphertext with
  | Some decrypted => Ok (TextDecoder_decode decrypted)
  | None => Throw OperationError
  end.

End ApiKey.

(* ================================================================== *)
(** * IndexedDB object stores *)
(* ================================================================== *)

(** An object store with a key path: its records in ascending order of
    their keys, no two with one key.  Keys are strings, compared by code
    units. *)
Section ObjectStore.
Variable V : Type.
Variable keyPath : V -> string.

Definition has_key (k : string) (records : list V) : bool :=
  existsb (fun r => keyPath r =? k) records.

(** The place of a new record among the records: before the first one of a
    greater key. *)
Fixpoint insert_by_key (v : V) (records : list V) : list V :=
  match records with
  | [] => [v]
  | r :: rest =>
      if String.ltb (keyPath v) (keyPath r) then v :: r :: rest
      else r :: insert_by_key v rest
  end.

(** [db.add(store, v)]: a [ConstraintError] when the key exists. *)
Definition store_add (v : V) (records : list V) : result (list V) :=
  if has_key (keyPath v) records then Throw ConstraintError
  else Ok (insert_by_key v records).

(** [db.put(store, v)]: inserts, or replaces the record of that key. *)
Definition store_put (v : V) (records : list V) : list V :=
  insert_by_key v (filter (fun r => negb (keyPath r =? keyPath v)) records).

(** [db.get(store, k)]. *)
Definition store_get (k : string) (records : list V) : option V :=
  find (fun r => keyPath r =? k) records.

(** [index.getAll(k)] for an index on the (possibly absent) key [indexKey]:
    the records of that index key, in the order of their primary keys. *)
Definition index_getAll (indexKey : V -> option string) (k : string)
    (records : list V) : list V :=
  filter (fun r => match indexKey r with
                   | Some k' => k' =? k
                   | None => false
                   end) records.

End ObjectStore.

(** [Array.prototype.sort(cmp)], which is stable: [x] goes before the first
    element it is strictly less than. *)
Section Sort.
Variable A : Type.
Variable cmp : A -> A -> comparison.

Fixpoint insert_sorted (x : A) (l : list A) : list A :=
  match l with
  | [] => [x]
  | y :: rest =>
      match cmp y x with
      | Gt => x :: y :: rest
      | _ => y :: insert_sorted x rest
      end
  end.

Definition sort (l : list A) : list A :=
  fold_left (fun acc x => insert_sorted x acc) l [].

End Sort.

(** [l.slice(0, n)]: a negative [n] counts from the end. *)
Definition slice_to {A : Type} (n : Z) (l : list A) : list A :=
  if (n <? 0)%Z then firstn (Z.to_nat (Z.of_nat (length l) + n)) l
  else firstn (Z.to_nat n) l.

Fixpoint map_result {A B : Type} (f : A -> result B) (l : list A) : result (list B) :=
  match l with
  | [] => Ok []
  | x :: rest => y <- f x ;; ys <- map_result f rest ;; Ok (y :: ys)
  end.

(* ================================================================== *)
(** * [src/lib/database.ts] *)
(* ================================================================== *)

(** The stores of the database the modelled functions read or write. *)
Module Database.
Record t : Type := mk {
  spans : list Span.t;
  contracts : list Contract.t;
  identity : option Identity.t
}.
Definition empty : t := mk [] [] None.
End Database.

(** An entry of the report of [verifyLedger], and the report. *)
Module LedgerError.
Record t : Type := mk {
  span_id : string;
  error : string
}.
End LedgerError.

Module Report.
Record t : Type := mk {
  valid : bool;
  total : nat;
  errors : list LedgerError.t
}.
End Report.

(** A stateful call: the database it leaves, and how it ended. *)
Definition outcome : Type := (Database.t * result unit)%type.

Section DatabaseOps.
Context {RT : Runtime}.

(** The key paths of the indices of the store [spans]. *)
Definition by_trace (s : Span.t) : option string := Some (Span.trace_id s).
Definition by_type (s : Span.t) : option string := Some (Span.type s).
Definition by_entity (s : Span.t) : option string := Some (Span.entity s).
Definition by_time (s : Span.t) : option string := Some (Span.started_at s).
Definition by_user (s : Span.t) : option string :=
  option_map SpanConfirmation.signer_id (Span.confirmed_by s).

(** [appendSpan]: [db.add('spans', span)].  The [id] of a [Span] is a
    string, which is a valid key; on a value without a valid key [add]
    rejects with a [DataError], which spans of the declared type never
    meet. *)
Definition appendSpan (span : Span.t) (db : Database.t) : outcome :=
  match store_add Span.id span (Database.spans db) with
  | Ok spans => (Database.mk spans (Database.contracts db) (Database.identity db), Ok tt)
  | Throw e => (db, Throw e)
  end.

(** A filter field that is truthy: present and not the empty string. *)
Definition given (field : option string) : option string :=
  match field with
  | Some x => if x =? "" then None else Some x
  | None => None
  end.

(** [querySpans].  The [if ... else if ...] on the indices, the three
    [filter]s, the sort and the [slice].  The comparator of the sort calls
    [b.started_at.localeCompare]: on spans of the declared type, whose
    [started_at] is a string, it throws nothing, and so the function returns
    a list; the [TypeError] it raises on a stored object without
    [started_at] is not modelled. *)
Definition querySpans (filter : SpanFilter.t) (db : Database.t) : list Span.t :=
  let spans :=
    match given (SpanFilter.trace_id filter) with
    | Some trace_id => index_getAll by_trace trace_id (Database.spans db)
    | None =>
        match given (SpanFilter.type filter) with
        | Some type => index_getAll by_type type (Database.spans db)
        | None =>
            match given (SpanFilter.entity filter) with
            | Some entity => index_getAll by_entity entity (Database.spans db)
            | None => Database.spans db
            end
        end
    end in
  let filtered := spans in
  let filtered :=
    match given (SpanFilter.user_id filter) with
    | Some user_id =>
        List.filter (fun s => match by_user s with
                              | Some signer_id => signer_id =? user_id
                              | None => false
                              end) filtered
    | None => filtered
    end in
  let filtered :=
    match given (SpanFilter.from filter) with
    | Some from => List.filter (fun s => String.leb from (Span.started_at s)) filtered
    | None => filtered
    end in
  let filtered :=
    match given (SpanFilter.to filter) with
    | Some to => List.filter (fun s => String.leb (Span.started_at s) to) filtered
    | None => filtered
    end in
  let filtered :=
    sort (fun a b => localeCompare (Span.started_at b) (Span.started_at a)) filtered in
  match SpanFilter.limit filter with
  | Some limit => if negb (limit =? 0)%Z then slice_to limit filtered else filtered
  | None => filtered
  end.

Definition getSpan (id : string) (db : Database.t) : option Span.t :=
  store_get Span.id id (Database.spans db).

Definition getSpansByTrace (traceId : string) (db : Database.t) : list Span.t :=
  querySpans
    (SpanFilter.mk (Some traceId) None None None None None None) db.

Definition getSpanCount (db : Database.t) : nat := length (Database.spans db).

(** [saveContract]: [db.put('contracts', contract)]. *)
Definition saveContract (contract : Contract.t) (db : Database.t) : Database.t :=
  Database.mk (Database.spans db)
    (store_put Contract.id contract (Database.contracts db))
    (Database.identity db).

Definition getContract (id : string) (db : Database.t) : option Contract.t :=
  store_get Contract.id id (Database.contracts db).

(** [getAllContracts]; as in [querySpans], the comparator throws nothing on
    records whose [created_at] is a string. *)
Definition getAllContracts (db : Database.t) : list Contract.t :=
  sort (fun a b => localeCompare (Contract.created_at b) (Contract.created_at a))
       (Database.contracts db).

Definition getIdentity (db : Database.t) : option Identity.t :=
  Database.identity db.

(* ================================================================== *)
(** * [src/lib/ledger.ts] *)
(* ================================================================== *)

(** [extractContractTitle]; [p.name] throws on a party that is [null]. *)
Definition extractContractTitle (span : Span.t) : result JSValue :=
  let input := SpanBody.input (Span.body span) in
  if truthy (get_prop "title" input) then Ok (get_prop "title" input)
  else if truthy (get_prop "parties" input) then
    partyNames <- map_result (get_prop_strict "name")
                    (Object_values (get_prop "parties" input)) ;;
    Ok (JStr ("Contrato entre " ++ join " e " partyNames))
  else Ok (JStr ("Contrato " ++ slice0 8 (Span.id span))).

(** [extractContractDescription]:
    [span.body.input?.description || span.body.metadata?.description]. *)
Definition extractContractDescription (span : Span.t) : JSValue :=
  let d := get_prop "description" (SpanBody.input (Span.body span)) in
  if truthy d then d
  else match SpanBody.metadata (Span.body span) with
       | Some metadata => lookup "description" metadata
       | None => JUndefined
       end.

Definition has_type (t : string) (s : Span.t) : bool := Span.type s =? t.

(** [updateContractFromSpans], at the time [now]. *)
Definition updateContractFromSpans (now : string) (traceId : string)
    (db : Database.t) : outcome :=
  let spans := getSpansByTrace traceId db in
  if Nat.eqb (length spans) 0 then (db, Ok tt)
  else
    match find (has_type "contract.created") spans with
    | None => (db, Ok tt)
    | Some creationSpan =>
        match getContract traceId db with
        | None =>
            match extractContractTitle creationSpan with
            | Throw e => (db, Throw e)
            | Ok title =>
                let input := SpanBody.input (Span.body creationSpan) in
                let contract :=
                  Contract.mk traceId title
                    (extractContractDescription creationSpan)
                    (if truthy (get_prop "parties" input)
                     then Object_values (get_prop "parties" input) else [])
                    active
                    (Span.started_at creationSpan)
                    now
                    None
                    (map Span.id spans)
                    (SpanBody.metadata (Span.body creationSpan)) in
                (saveContract contract db, Ok tt)
            end
        | Some contract =>
            let cancelledSpan := find (has_type "contract.cancelled") spans in
            let completedSpan := find (has_type "contract.completed") spans in
            let '(status, completed_at) :=
              match cancelledSpan, completedSpan with
              | Some cancelledSpan, _ => (cancelled, Span.completed_at cancelledSpan)
              | None, Some completedSpan => (completed, Span.completed_at completedSpan)
              | None, None => (Contract.status contract, Contract.completed_at contract)
              end in
            let contract :=
              Contract.mk (Contract.id contract) (Contract.title contract)
                (Contract.description contract) (Contract.parties contract)
                status (Contract.created_at contract) now completed_at
                (map Span.id spans) (Contract.metadata contract) in
            (saveContract contract db, Ok tt)
        end
    end.

(** [appendToLedger]; [now_signature] and [now_view] are the two readings of
    the clock, at the signature and in the projection.  A span of the
    declared type has a [this], so that [span.this.hash] can be read. *)
Definition appendToLedger (now_signature now_view : string) (span : Span.t)
    (db : Database.t) : outcome :=
  let span :=
    if SpanHash.hash (Span.this span) =? ""
    then Span.set_hash (calculateSpanHash (spanObject span)) span
    else span in
  let signed :=
    match getIdentity db, Span.confirmed_by span with
    | Some identity, None =>
        let '(span, signature) :=
          signSpan span (Identity.private_key_handle identity) in
        signature <- signature ;;
        Ok (Span.set_confirmed_by
              (SpanConfirmation.mk signature "minicontratos.local"
                 now_signature (Identity.user_id identity)) span)
    | _, _ => Ok span
    end in
  match signed with
  | Throw e => (db, Throw e)
  | Ok span =>
      match appendSpan span db with
      | (db, Throw e) => (db, Throw e)
      | (db, Ok _) =>
          if Span.entity span =? "minicontrato"
          then updateContractFromSpans now_view (Span.trace_id span) db
          else (db, Ok tt)
      end
  end.

(** The body of the inner loop of [verifyLedger]: what one span of the trace
    [spans] adds to [errors].  [verifySpan] answers a boolean and throws
    nothing, so the [catch] of the source has no case here. *)
Definition verifySpanInLedger (db : Database.t) (spans : list Span.t)
    (errors : list LedgerError.t) (span : Span.t) : list LedgerError.t :=
  (* 1. Verify hash *)
  let calculatedHash := calculateSpanHash (spanObject span) in
  let errors :=
    if negb (SpanHash.hash (Span.this span) =? calculatedHash)
    then (errors ++ [LedgerError.mk (Span.id span)
                 ("Hash mismatch: expected " ++ SpanHash.hash (Span.this span)
                  ++ ", got " ++ calculatedHash)])%list
    else errors in
  (* 2. Verify signature if present *)
  let errors :=
    if truthy_string (signature_of span) then
      match getIdentity db with
      | Some identity =>
          let isValid :=
            verifySpan span (Identity.private_key_handle identity) in
          if negb isValid
          then (errors ++ [LedgerError.mk (Span.id span) "Invalid signature"])%list
          else errors
      | None => errors
      end
    else errors in
  (* 3. Verify parent reference if present *)
  match Span.parent_id span with
  | Some parent_id =>
      if negb (parent_id =? "") then
        let parentExists := existsb (fun s => Span.id s =? parent_id) spans in
        if negb parentExists
        then (errors ++ [LedgerError.mk (Span.id span)
                     ("Parent span " ++ parent_id ++ " not found")])%list
        else errors
      else errors
  | None => errors
  end.

(** [verifyLedger]: the two loops carry [errors] and [totalSpans].  The
    calls of [getAllContracts] and [getSpansByTrace] are outside the [try]
    of the source; on records and spans of the declared types they throw
    nothing, and the function returns its report. *)
Definition verifyLedger (db : Database.t) : Report.t :=
  let allContracts := getAllContracts db in
  let '(errors, totalSpans) :=
    fold_left
      (fun '(errors, totalSpans) contract =>
         let spans := getSpansByTrace (Contract.id contract) db in
         let totalSpans := totalSpans + length spans in
         (fold_left (verifySpanInLedger db spans) spans errors, totalSpans))
      allContracts ([], 0) in
  Report.mk (Nat.eqb (length errors) 0) totalSpans errors.

End DatabaseOps.

(* ================================================================== *)
(** * [src/lib/llm.ts]: the extraction of spans from a reply *)
(* ================================================================== *)

(** White space of the regular expression class [\s] among the code units
    below 256; it is the white space of [parseInt]. *)
Definition regex_space (c : ascii) : bool := is_space c.

Fixpoint drop (n : nat) (s : string) : string :=
  match n, s with
  | S k, String _ rest => drop k rest
  | _, _ => s
  end.

Fixpoint skip_spaces (s : string) : string :=
  match s with
  | String c rest => if regex_space c then skip_spaces rest else s
  | EmptyString => s
  end.

Definition fence : string := "```".

(** Whether [\s*```] matches at the start of [s]: the number of characters it
    takes. *)
Fixpoint closing (s : string) : option nat :=
  if prefix fence s then Some 3
  else match s with
       | String c rest =>
           if regex_space c then option_map S (closing rest) else None
       | EmptyString => None
       end.

(** [([\s\S]*?)\s*```] at the start of [s]: the shortest capture after which
    the closing matches, and the number of characters of capture and
    closing. *)
Fixpoint capture (s : string) : option (string * nat) :=
  match closing s with
  | Some n => Some (EmptyString, n)
  | None =>
      match s with
      | String c rest =>
          match capture rest with
          | Some (text, n) => Some (String c text, S n)
          | None => None
          end
      | EmptyString => None
      end
  end.

(** The regular expression [```json\s*([\s\S]*?)\s*```] at the start of [s]:
    the text of group 1 and the length of the match.  The white space after
    the tag is taken greedily, the group lazily. *)
Definition match_here (s : string) : option (string * nat) :=
  if prefix "```json" s then
    let after_tag := drop 7 s in
    let body := skip_spaces after_tag in
    match capture body with
    | Some (text, n) =>
        Some (text, 7 + (String.length after_tag - String.length body) + n)
    | None => None
    end
  else None.

(** [response.matchAll(jsonBlockRegex)], group 1 of every match: the matches
    from left to right, the search going on after each match.  [skip] is the
    number of characters still inside the last match. *)
Fixpoint matchAll_from (skip : nat) (s : string) : list string :=
  match s with
  | EmptyString => []
  | String _ rest =>
      match skip with
      | S k => matchAll_from k rest
      | O =>
          match match_here s with
          | Some (text, n) => text :: matchAll_from (n - 1) rest
          | None => matchAll_from 0 rest
          end
      end
  end.

Definition matchAll (response : string) : list string := matchAll_from 0 response.

Section Extraction.
Context {RT : Runtime}.

(** What the body of the [try] around [JSON.parse(jsonText)] pushes. *)
Definition parsed_spans (jsonText : string) : list JSValue :=
  match JSON_parse jsonText with
  | Some (JArr parsed) => parsed
  | Some (JObj props) => [JObj props]
  | Some _ => []
  | None => []
  end.

(** [extractSpansFromResponse]. *)
Definition extractSpansFromResponse (response : string) : list JSValue :=
  let matches := matchAll response in
  let whole :=
    if Nat.eqb (length matches) 0 then
      (* Try to parse the entire response as JSON *)
      match JSON_parse response with
      | Some (JArr parsed) => Some parsed
      | Some (JObj props) => Some [JObj props]
      | Some _ => None
      | None => Some []     (* Not valid JSON *)
      end
    else None in
  match whole with
  | Some spans => spans
  | None =>
      (* Parse each JSON block *)
      fold_left
        (fun allSpans jsonText =>
           match JSON_parse jsonText with
           | Some (JArr parsed) => (allSpans ++ parsed)%list
           | Some (JObj props) => (allSpans ++ [JObj props])%list
           | Some _ => allSpans
           | None => allSpans   (* Failed to parse JSON block *)
           end)
        matches []
  end.

End Extraction.

(* ================================================================== *)
(** * [src/lib/crypto.ts]: identifiers and names *)
(* ================================================================== *)

(** A lower-case hexadecimal digit. *)
Definition lower_hex (c : ascii) : bool :=
  let n := N_of_ascii c in
  (((48 <=? n) && (n <=? 57)) || ((97 <=? n) && (n <=? 102)))%N.

(** The digits of [n.toString(16)] in front of [acc], the least significant
    one produced first; [fuel] bounds the number of digits. *)
Fixpoint hex_digits (fuel : nat) (n : N) (acc : string) : string :=
  match fuel with
  | O => acc
  | S fuel =>
      let acc := String (hex_digit (n mod 16)) acc in
      if (n <? 16)%N then acc else hex_digits fuel (n / 16) acc
  end.

(** [n.toString(16)] for an integer [n >= 0]: no leading zero, [0] is
    printed [0].  A number has no more hexadecimal digits than binary ones. *)
Definition toString16 (n : N) : string :=
  hex_digits (S (N.to_nat (N.log2 n))) n "".

Fixpoint zeros (n : nat) : string :=
  match n with
  | O => ""
  | S n => String "0" (zeros n)
  end.

(** [s.padStart(targetLength, '0')]. *)
Definition padStart0 (targetLength : nat) (s : string) : string :=
  zeros (targetLength - String.length s) ++ s.

(** [s.slice(a, b)] for [0 <= a <= b]. *)
Definition slice (a b : nat) (s : string) : string := substring a (b - a) s.

(** [generateUUIDv7], at the reading [timestamp] of [Date.now()].  The
    expression that prints the random bytes is the body of [bytesToHex]. *)
Definition generateUUIDv7 (timestamp : N) (rng : Rng.t) : string * Rng.t :=
  let timestampHex := padStart0 12 (toString16 timestamp) in
  let '(bytes, rng) := getRandomValues 10 rng in
  let randomHex := bytesToHex bytes in
  (slice 0 8 timestampHex ++ "-" ++ slice 8 12 timestampHex ++ "-7"
   ++ slice 0 3 randomHex ++ "-" ++ slice 3 7 randomHex ++ "-"
   ++ slice 7 19 randomHex, rng).

(** [generateShortId]. *)
Definition generateShortId (rng : Rng.t) : string * Rng.t :=
  let '(bytes, rng) := getRandomValues 3 rng in
  (slice 0 3 (bytesToHex bytes), rng).

(** The [k] hexadecimal digits of [n] modulo [16^k], the most significant
    first. *)
Fixpoint hex_fixed (k : nat) (n : N) : string :=
  match k with
  | O => ""
  | S k' => String (hex_digit ((n / 16 ^ N.of_nat k') mod 16)) (hex_fixed k' n)
  end.

Fixpoint map_units (f : ascii -> ascii) (s : string) : string :=
  match s with
  | EmptyString => EmptyString
  | String c rest => String (f c) (map_units f rest)
  end.

(** [toLowerCase] on a code unit below 256: the letters [A]-[Z] and the
    capital letters of Latin-1 (U+00C0-U+00DE but the sign U+00D7) have their
    lower case 32 above; nothing else changes. *)
Definition toLowerCase_unit (c : ascii) : ascii :=
  let n := N_of_ascii c in
  if (((65 <=? n) && (n <=? 90))
      || ((192 <=? n) && (n <=? 222) && negb (n =? 215)))%N
  then ascii_of_N (n + 32) else c.

(** [.normalize(NFD)] followed by the removal of U+0300-U+036F on a code unit below
    256.  The letters of Latin-1 with a canonical decomposition are a base
    letter and one combining mark, and the marks are all in U+0300-U+036F:
    what is left is the base letter.  The other code units are their own
    normal form. *)
Definition base_letter (c : ascii) : ascii :=
  let n := N_of_ascii c in
  (if (192 <=? n) && (n <=? 197) then "A"
   else if n =? 199 then "C"
   else if (200 <=? n) && (n <=? 203) then "E"
   else if (204 <=? n) && (n <=? 207) then "I"
   else if n =? 209 then "N"
   else if (210 <=? n) && (n <=? 214) then "O"
   else if (217 <=? n) && (n <=? 220) then "U"
   else if n =? 221 then "Y"
   else if (224 <=? n) && (n <=? 229) then "a"
   else if n =? 231 then "c"
   else if (232 <=? n) && (n <=? 235) then "e"
   else if (236 <=? n) && (n <=? 239) then "i"
   else if n =? 241 then "n"
   else if (242 <=? n) && (n <=? 246) then "o"
   else if (249 <=? n) && (n <=? 252) then "u"
   else if (n =? 253) || (n =? 255) then "y"
   else c)%N%char.

(** The class [[a-z0-9]]. *)
Definition slug_unit (c : ascii) : bool :=
  let n := N_of_ascii c in
  (((97 <=? n) && (n <=? 122)) || ((48 <=? n) && (n <=? 57)))%N.

Definition is_dash (c : ascii) : bool := (N_of_ascii c =? 45)%N.

(** [.replace(/[^a-z0-9]/g, '-')] on a code unit. *)
Definition dash_unless_slug (c : ascii) : ascii :=
  if slug_unit c then c else "-"%char.

(** [.replace(/-+/g, '-')]: a dash followed by a dash is dropped. *)
Fixpoint collapse_dashes (s : string) : string :=
  match s with
  | EmptyString => EmptyString
  | String c rest =>
      if is_dash c then
        match rest with
        | String d _ =>
            if is_dash d then collapse_dashes rest
            else String c (collapse_dashes rest)
        | EmptyString => String c EmptyString
        end
      else String c (collapse_dashes rest)
  end.

Definition remove_first_dash (s : string) : string :=
  match s with
  | String c rest => if is_dash c then rest else s
  | EmptyString => s
  end.

Fixpoint remove_last_dash (s : string) : string :=
  match s with
  | EmptyString => EmptyString
  | String c EmptyString => if is_dash c then EmptyString else s
  | String c rest => String c (remove_last_dash rest)
  end.

(** [.replace(/^-|-$/g, '')]: the dash at the start and the dash at the end,
    which are one dash in the string [-]. *)
Definition trim_dashes (s : string) : string :=
  remove_last_dash (remove_first_dash s).

(** [sanitizeName], on a name of code units below 256. *)
Definition sanitizeName (name : string) : string :=
  trim_dashes
    (collapse_dashes
       (map_units dash_unless_slug
          (map_units base_letter
             (map_units toLowerCase_unit name)))).

Definition starts_with_dash (s : string) : bool :=
  match s with
  | String c _ => is_dash c
  | EmptyString => false
  end.

Fixpoint ends_with_dash (s : string) : bool :=
  match s with
  | EmptyString => false
  | String c EmptyString => is_dash c
  | String _ rest => ends_with_dash rest
  end.

Fixpoint no_double_dash (s : string) : bool :=
  match s with
  | EmptyString => true
  | String c rest =>
      negb (is_dash c && starts_with_dash rest) && no_double_dash rest
  end.

(* ================================================================== *)
(** * [src/lib/llm.ts]: providers and the validity of a span *)
(* ================================================================== *)

Inductive LLMProvider : Type := anthropic | openai | ollama.

(** [detectProvider]. *)
Definition detectProvider (apiKey : string) : LLMProvider :=
  if prefix "sk-ant-" apiKey then anthropic
  else if prefix "sk-proj-" apiKey || prefix "sk-" apiKey then openai
  else if prefix "http://" apiKey || prefix "https://" apiKey then ollama
  else (* Default to anthropic *) anthropic.

(** [typeof v]. *)
Definition typeof (v : JSValue) : string :=
  match v with
  | JUndefined => "undefined"
  | JNull => "object"
  | JBool _ => "boolean"
  | JNum _ => "number"
  | JStr _ => "string"
  | JArr _ | JObj _ => "object"
  end.

(** [isValidSpan], as the condition it is used for: whether the value of the
    chain of [&&] is truthy. *)
Definition isValidSpan (obj : JSValue) : bool :=
  truthy obj
  && (typeof obj =? "object")
  && (typeof (get_prop "id" obj) =? "string")
  && (typeof (get_prop "trace_id" obj) =? "string")
  && (typeof (get_prop "type" obj) =? "string")
  && (typeof (get_prop "entity" obj) =? "string")
  && truthy (get_prop "body" obj)
  && (typeof (get_prop "body" obj) =? "object")
  && (typeof (get_prop "action" (get_prop "body" obj)) =? "string")
  && truthy (get_prop "this" obj)
  && (typeof (get_prop "this" obj) =? "object")
  && (typeof (get_prop "version" (get_prop "this" obj)) =? "string").

Definition is_backtick (c : ascii) : bool := (N_of_ascii c =? 96)%N.

Definition no_backtick (s : string) : bool :=
  forallb (fun c => negb (is_backtick c)) (list_ascii_of_string s).

Definition all_spaces (s : string) : bool :=
  forallb regex_space (list_ascii_of_string s).

Definition starts_with_space (s : string) : bool :=
  match s with
  | String c _ => regex_space c
  | EmptyString => false
  end.

Fixpoint ends_with_space (s : string) : bool :=
  match s with
  | EmptyString => false
  | String c EmptyString => regex_space c
  | String _ rest => ends_with_space rest
  end.

(* ================================================================== *)
(** * [src/lib/ledger.ts]: the span builders *)
(* ================================================================== *)

(** [createContractSpan], at the reading [now] of the clock;
    [timestamp1] and [timestamp2] are the readings inside the two calls of
    [generateUUIDv7], the one for the trace first. *)
Definition createContractSpan (contractData : JSObject) (_userId : string)
    (now : string) (timestamp1 timestamp2 : N) (rng : Rng.t) : JSObject * Rng.t :=
  let '(uuid, rng) := generateUUIDv7 timestamp1 rng in
  let traceId := "contract-" ++ uuid in
  let '(id, rng) := generateUUIDv7 timestamp2 rng in
  ([("id", JStr id);
    ("trace_id", JStr traceId);
    ("type", JStr "contract.created");
    ("entity", JStr "minicontrato");
    ("body", JObj [("action", JStr "create_contract");
                   ("input", JObj contractData);
                   ("rules", if truthy (lookup "rules" contractData)
                             then lookup "rules" contractData else JArr [])]);
    ("started_at", JStr now);
    ("completed_at", JStr now);
    ("duration_ms", JNum 0);
    ("this", JObj [("hash", JStr ""); ("version", JStr "1.0.0")])],
   rng).

(** [createObligationSpan]. *)
Definition createObligationSpan (traceId parentId : string)
    (obligationData : JSObject) (now : string) (timestamp : N) (rng : Rng.t)
    : JSObject * Rng.t :=
  let '(id, rng) := generateUUIDv7 timestamp rng in
  ([("id", JStr id);
    ("trace_id", JStr traceId);
    ("parent_id", JStr parentId);
    ("type", JStr "obligation.registered");
    ("entity", JStr "minicontrato");
    ("body", JObj [("action", JStr "register_obligation");
                   ("input", JObj obligationData)]);
    ("started_at", JStr now);
    ("completed_at", JStr now);
    ("duration_ms", JNum 0);
    ("this", JObj [("hash", JStr ""); ("version", JStr "1.0.0")])],
   rng).

(** [createUserRegistrationSpan]. *)
Definition createUserRegistrationSpan (userId userName : string)
    (now : string) (timestamp : N) (rng : Rng.t) : JSObject * Rng.t :=
  let traceId := "onboarding-" ++ userId in
  let '(id, rng) := generateUUIDv7 timestamp rng in
  ([("id", JStr id);
    ("trace_id", JStr traceId);
    ("type", JStr "user.registered");
    ("entity", JStr "user");
    ("body", JObj [("action", JStr "register_user");
                   ("input", JObj [("name", JStr userName); ("user_id", JStr userId)]);
                   ("output", JObj [("success", JBool true); ("user_id", JStr userId)])]);
    ("started_at", JStr now);
    ("completed_at", JStr now);
    ("duration_ms", JNum 0);
    ("this", JObj [("hash", JStr ""); ("version", JStr "1.0.0")])],
   rng).

(* ================================================================== *)
(** * [src/lib/database.ts]: the sessions and the export *)
(* ================================================================== *)

Module Session.
Record t : Type := mk {
  user_id : string;
  started_at : string;
  last_activity : string;
  api_key : option string;
  provider : option LLMProvider;
  model : option string
}.
End Session.

(** [db.delete(store, k)]. *)
Definition store_delete (V : Type) (keyPath : V -> string) (k : string)
    (records : list V) : list V :=
  filter (fun r => negb (keyPath r =? k)) records.

(** The store [session], whose key path is [user_id]. *)
Definition SessionStore : Type := list Session.t.

(** [saveSession]: [db.put('session', session)]. *)
Definition saveSession (session : Session.t) (store : SessionStore) : SessionStore :=
  store_put Session.user_id session store.

(** [getCurrentSession]: [sessions[0]] of [db.getAll('session')]. *)
Definition getCurrentSession (store : SessionStore) : option Session.t :=
  match store with
  | session :: _ => Some session
  | [] => None
  end.

(** [clearSession]: [db.delete('session', userId)]. *)
Definition clearSession (userId : string) (store : SessionStore) : SessionStore :=
  store_delete Session.user_id userId store.

(** [isLoggedIn]: [!!session]. *)
Definition isLoggedIn (store : SessionStore) : bool :=
  match getCurrentSession store with
  | Some _ => true
  | None => false
  end.

(** The line feed, code unit 10. *)
Definition line_feed : string := str1 (ascii_of_N 10).

(** [JSON.stringify(v, null, 2)]; [indent] is the indentation reached. *)
Fixpoint JSON_stringify_indented (indent : string) (v : JSValue) : option string :=
  match v with
  | JUndefined => None
  | JNull => Some "null"
  | JBool true => Some "true"
  | JBool false => Some "false"
  | JNum n => Some (string_of_Z n)
  | JStr s => Some (quote s)
  | JArr elems =>
      let stepback := indent in
      let indent := indent ++ "  " in
      match (fix items (l : list JSValue) : list string :=
               match l with
               | [] => []
               | x :: rest =>
                   match JSON_stringify_indented indent x with
                   | Some s => s :: items rest
                   | None => "null" :: items rest
                   end
               end) elems with
      | [] => Some "[]"
      | partial =>
          Some ("[" ++ line_feed ++ indent
                ++ String.concat ("," ++ line_feed ++ indent) partial
                ++ line_feed ++ stepback ++ "]")
      end
  | JObj props =>
      let stepback := indent in
      let indent := indent ++ "  " in
      match (fix members (l : list (string * JSValue)) : list string :=
               match l with
               | [] => []
               | (k, x) :: rest =>
                   match JSON_stringify_indented indent x with
                   | Some s => (quote k ++ ": " ++ s) :: members rest
                   | None => members rest
                   end
               end) props with
      | [] => Some "{}"
      | partial =>
          Some ("{" ++ line_feed ++ indent
                ++ String.concat ("," ++ line_feed ++ indent) partial
                ++ line_feed ++ stepback ++ "}")
      end
  end.

Inductive ExportFormat : Type := ndjson | json | csv.

Module Blob.
Record t : Type := mk {
  content : string;
  type : string
}.
End Blob.

Section ExportLedger.
Context {RT : Runtime}.

(** [exportLedger].  The type of [format] leaves the three cases; the
    [default] of the [switch] is not reached. *)
Definition exportLedger (format : ExportFormat) (db : Database.t) : Blob.t :=
  let allSpans := Database.spans db in
  match format with
  | ndjson =>
      (* Newline Delimited JSON *)
      let ndjson :=
        String.concat line_feed
          (map (fun s => JSON_stringify_object (spanObject s)) allSpans)
        ++ line_feed in
      Blob.mk ndjson "application/x-ndjson"
  | json =>
      (* JSON array *)
      Blob.mk
        (match JSON_stringify_indented ""
                 (JArr (map (fun s => JObj (spanObject s)) allSpans)) with
         | Some text => text
         | None => ""
         end)
        "application/json"
  | csv =>
      (* CSV simplified *)
      let headers :=
        ["id"; "trace_id"; "type"; "entity"; "started_at"; "hash"; "signature"] in
      let rows :=
        map (fun s =>
               [Span.id s; Span.trace_id s; Span.type s; Span.entity s;
                Span.started_at s; SpanHash.hash (Span.this s);
                match signature_of s with
                | Some signature => signature
                | None => ""
                end])
            allSpans in
      let csv :=
        String.concat line_feed (map (String.concat ",") (headers :: rows)) in
      Blob.mk csv "text/csv"
  end.

End ExportLedger.

(** [text.split('\n')]. *)
Fixpoint split_lines (text : string) : list string :=
  match text with
  | EmptyString => [EmptyString]
  | String c rest =>
      if (N_of_ascii c =? 10)%N then EmptyString :: split_lines rest
      else match split_lines rest with
           | line :: lines => String c line :: lines
           | [] => [String c EmptyString]
           end
  end.

Definition no_line_feed (s : string) : bool :=
  forallb (fun c => negb (N_of_ascii c =? 10)%N) (list_ascii_of_string s).

(* ================================================================== *)
(** * One platform, for the examples *)
(* ================================================================== *)

(** An instance of [Runtime] on which the functions above can be run: a
    reader of JSON, the comparison of strings by code units, the layout of a
    span in the order of its interface, and stand-ins for the cryptography
    that satisfy its equations (a signature is verified by the key that made
    it, a ciphertext is decrypted by the key that made it).  The theorems do
    not depend on it; it shows that their hypotheses can be met. *)
Module Example.

Definition json_ws (c : ascii) : bool :=
  let n := N_of_ascii c in
  ((n =? 9) || (n =? 10) || (n =? 13) || (n =? 32))%N.

Fixpoint skip_ws (s : string) : string :=
  match s with
  | String c rest => if json_ws c then skip_ws rest else s
  | EmptyString => s
  end.

Definition is_digit (c : ascii) : bool :=
  let n := N_of_ascii c in ((48 <=? n) && (n <=? 57))%N.

Fixpoint read_digits (acc : Z) (s : string) : Z * string :=
  match s with
  | String c rest =>
      if is_digit c
      then read_digits (10 * acc + (Z.of_N (N_of_ascii c) - 48))%Z rest
      else (acc, s)
  | EmptyString => (acc, s)
  end.

(** An integer: [0] or a non-zero digit and digits. *)
Definition read_int (s : string) : option (Z * string) :=
  match s with
  | String c rest =>
      if (N_of_ascii c =? 48)%N then Some (0%Z, rest)
      else if is_digit c then Some (read_digits 0 s)
      else None
  | EmptyString => None
  end.

(** A number without fraction and exponent. *)
Definition read_number (s : string) : option (Z * string) :=
  match s with
  | String c rest =>
      if (N_of_ascii c =? 45)%N
      then option_map (fun '(n, r) => (Z.opp n, r)) (read_int rest)
      else read_int s
  | EmptyString => None
  end.

(** The characters of a string literal after its opening quote; of the
    escapes, [\u] is not read. *)
Fixpoint read_string (s : string) : option (string * string) :=
  match s with
  | EmptyString => None
  | String c rest =>
      let n := N_of_ascii c in
      if (n =? 34)%N then Some (EmptyString, rest)
      else if (n <? 32)%N then None
      else if (n =? 92)%N then
        match rest with
        | String e rest' =>
            let m := N_of_ascii e in
            let unescaped :=
              (if m =? 34 then Some 34 else if m =? 92 then Some 92
               else if m =? 47 then Some 47 else if m =? 98 then Some 8
               else if m =? 102 then Some 12 else if m =? 110 then Some 10
               else if m =? 114 then Some 13 else if m =? 116 then Some 9
               else None)%N in
            match unescaped, read_string rest' with
            | Some u, Some (text, r) => Some (String (ascii_of_N u) text, r)
            | _, _ => None
            end
        | EmptyString => None
        end
      else match read_string rest with
           | Some (text, r) => Some (String c text, r)
           | None => None
           end
  end.

Fixpoint read_value (fuel : nat) (s : string) : option (JSValue * string) :=
  match fuel with
  | O => None
  | S fuel =>
      let s := skip_ws s in
      if prefix "null" s then Some (JNull, drop 4 s)
      else if prefix "true" s then Some (JBool true, drop 4 s)
      else if prefix "false" s then Some (JBool false, drop 5 s)
      else match s with
           | EmptyString => None
           | String c rest =>
               let n := N_of_ascii c in
               if (n =? 34)%N then
                 option_map (fun '(text, r) => (JStr text, r)) (read_string rest)
               else if (n =? 91)%N then
                 match skip_ws rest with
                 | String c' r =>
                     if (N_of_ascii c' =? 93)%N then Some (JArr [], r)
                     else option_map (fun '(l, r) => (JArr l, r)) (read_items fuel rest)
                 | EmptyString => None
                 end
               else if (n =? 123)%N then
                 match skip_ws rest with
                 | String c' r =>
                     if (N_of_ascii c' =? 125)%N then Some (JObj [], r)
                     else option_map (fun '(l, r) => (JObj l, r))
                            (read_members fuel [] rest)
                 | EmptyString => None
                 end
               else option_map (fun '(z, r) => (JNum z, r)) (read_number s)
           end
  end
with read_items (fuel : nat) (s : string) : option (list JSValue * string) :=
  match fuel with
  | O => None
  | S fuel =>
      match read_value fuel s with
      | Some (v, r) =>
          match skip_ws r with
          | String c r' =>
              if (N_of_ascii c =? 44)%N then
                option_map (fun '(l, r) => (v :: l, r)) (read_items fuel r')
              else if (N_of_ascii c =? 93)%N then Some ([v], r')
              else None
          | EmptyString => None
          end
      | None => None
      end
  end
with read_members (fuel : nat) (acc : JSObject) (s : string)
    : option (JSObject * string) :=
  match fuel with
  | O => None
  | S fuel =>
      match skip_ws s with
      | String q r =>
          if (N_of_ascii q =? 34)%N then
            match read_string r with
            | Some (k, r) =>
                match skip_ws r with
                | String colon r =>
                    if (N_of_ascii colon =? 58)%N then
                      match read_value fuel r with
                      | Some (v, r) =>
                          let acc := set_prop k v acc in
                          match skip_ws r with
                          | String c r' =>
                              if (N_of_ascii c =? 44)%N then read_members fuel acc r'
                              else if (N_of_ascii c =? 125)%N then Some (acc, r')
                              else None
                          | EmptyString => None
                          end
                      | None => None
                      end
                    else None
                | EmptyString => None
                end
            | None => None
            end
          else None
      | EmptyString => None
      end
  end.

(** A reader of JSON texts (integers for numbers, no [\u] escape). *)
Definition parse (text : string) : option JSValue :=
  match read_value (2 * String.length text + 2) text with
  | Some (v, r) => if skip_ws r =? "" then Some v else None
  | None => None
  end.

Definition opt_prop {A : Type} (k : string) (f : A -> JSValue) (o : option A) : JSObject :=
  match o with
  | Some x => [(k, f x)]
  | None => []
  end.

Definition rule_object (r : Rule.t) : JSValue :=
  JObj ([("id", JStr (Rule.id r)); ("condition", JStr (Rule.condition r));
         ("action", JStr (Rule.action r))]
        ++ opt_prop "parameters" JObj (Rule.parameters r)
        ++ opt_prop "description" JStr (Rule.description r))%list.

Definition body_object (b : SpanBody.t) : JSValue :=
  JObj ([("action", JStr (SpanBody.action b)); ("input", SpanBody.input b);
         ("output", SpanBody.output b)]
        ++ opt_prop "rules" (fun l => JArr (map rule_object l)) (SpanBody.rules b)
        ++ opt_prop "metadata" JObj (SpanBody.metadata b))%list.

Definition confirmation_object (c : SpanConfirmation.t) : JSValue :=
  JObj [("signature", JStr (SpanConfirmation.signature c));
        ("domain", JStr (SpanConfirmation.domain c));
        ("timestamp", JStr (SpanConfirmation.timestamp c));
        ("signer_id", JStr (SpanConfirmation.signer_id c))].

(** A span with its properties in the order of the interface [Span]. *)
Definition span_object (s : Span.t) : JSObject :=
  ([("id", JStr (Span.id s)); ("trace_id", JStr (Span.trace_id s))]
   ++ opt_prop "parent_id" JStr (Span.parent_id s)
   ++ [("type", JStr (Span.type s)); ("entity", JStr (Span.entity s));
       ("body", body_object (Span.body s));
       ("started_at", JStr (Span.started_at s))]
   ++ opt_prop "completed_at" JStr (Span.completed_at s)
   ++ opt_prop "duration_ms" JNum (Span.duration_ms s)
   ++ [("this", JObj [("hash", JStr (SpanHash.hash (Span.this s)));
                      ("version", JStr (SpanHash.version (Span.this s)))])]
   ++ opt_prop "confirmed_by" confirmation_object (Span.confirmed_by s))%list.

Fixpoint bytes_eqb (a b : list byte) : bool :=
  match a, b with
  | [], [] => true
  | x :: a', y :: b' => Byte.eqb x y && bytes_eqb a' b'
  | _, _ => false
  end.

#[export] Instance runtime : Runtime := {
  blake3 := fun bytes => bytes;
  Ed25519_public := fun private_key => private_key;
  Ed25519_sign := fun private_key data => (private_key ++ data)%list;
  Ed25519_verify := fun public_key sig data =>
    bytes_eqb sig (public_key ++ data)%list;
  PBKDF2_SHA256 := fun password salt _ => (password ++ salt)%list;
  AES_GCM_encrypt := fun key iv text => (iv ++ text)%list;
  AES_GCM_decrypt := fun key iv text =>
    if bytes_eqb (firstn (length iv) text) iv
    then Some (skipn (length iv) text) else None;
  localeCompare := String.compare;
  JSON_parse := parse;
  spanObject := span_object
}.

(** The span of the scenario of the specification: the creation of a
    contract in the trace [t1]. *)
Definition created_span : Span.t :=
  Span.mk "s1" "t1" None "contract.created" "minicontrato"
    (SpanBody.mk "create_contract"
       (JObj [("parties",
               JObj [("a", JObj [("name", JStr "Jo"); ("role", JStr "debtor")])])])
       JUndefined None None)
    "2025-01-01T00:00:00Z" None None
    (SpanHash.mk "" "1.0.0") None.

(** The cancellation of that contract. *)
Definition cancelled_span : Span.t :=
  Span.mk "s2" "t1" (Some "s1") "contract.cancelled" "minicontrato"
    (SpanBody.mk "cancel_contract" (JObj []) JUndefined None None)
    "2025-01-02T00:00:00Z" (Some "2025-01-02T00:00:01Z") None
    (SpanHash.mk "" "1.0.0") None.

(** The object of the creation span as a model may write it, [id] first,
    and the same properties with [trace_id] first. *)
Definition id_first : JSObject :=
  [("id", JStr "s1"); ("trace_id", JStr "t1"); ("type", JStr "contract.created");
   ("entity", JStr "minicontrato");
   ("body", JObj [("action", JStr "create_contract"); ("input", JObj [])]);
   ("started_at", JStr "2025-01-01T00:00:00Z");
   ("this", JObj [("hash", JStr ""); ("version", JStr "1.0.0")])].


Definition newline : string := str1 (ascii_of_N 10).

Definition quoted (s : string) : string := dquote ++ s ++ dquote.

(** The text of an array of two objects. *)
Definition two_span_block : string :=
  "[{" ++ quoted "id" ++ ": " ++ quoted "s1" ++ ", "
       ++ quoted "trace_id" ++ ": " ++ quoted "t1" ++ "},"
  ++ newline
  ++ " {" ++ quoted "id" ++ ": " ++ quoted "s2" ++ ", "
       ++ quoted "trace_id" ++ ": " ++ quoted "t1" ++ "}]".


(** A source of random bytes. *)
Definition rng : Rng.t := Rng.mk (fun i => byte_of_N (N.of_nat (7 * i + 3))) 0.

(** A ledger that holds both and no contract yet. *)
Definition two_spans : Database.t :=
  Database.mk [created_span; cancelled_span] [] None.

(** The local identity: a key pair, the private key kept as the handle. *)
Definition key_pair : CryptoKey.t * CryptoKey.t := generateKeyPair [x01; x02; x03].

Definition identity : Identity.t :=
  Identity.mk "user-jo-001" (CryptoKey.handle (fst key_pair)) (snd key_pair)
    "2025-01-01T00:00:00Z".

Definition confirmation (signature : string) : SpanConfirmation.t :=
  SpanConfirmation.mk signature "minicontratos.local" "2025-01-01T00:00:01Z"
    "user-jo-001".

(** The hash of the creation span once it carries its confirmation. *)
Definition intact_hash : string :=
  calculateSpanHash
    (span_object (Span.set_confirmed_by (confirmation "") created_span)).

(** The creation span with that hash, signed over it by the private key of
    the identity. *)
Definition signed_span : Span.t :=
  Span.set_confirmed_by
    (confirmation (match sign intact_hash (snd key_pair) with
                   | Ok signature => signature
                   | Throw _ => ""
                   end))
    (Span.set_hash intact_hash created_span).

Definition contract_t1 : Contract.t :=
  Contract.mk "t1" (JStr "Contrato entre Jo") JUndefined
    [JObj [("name", JStr "Jo"); ("role", JStr "debtor")]]
    active "2025-01-01T00:00:00Z" "2025-01-01T00:00:02Z" None ["s1"] None.

(** A ledger with the identity, the signed span and its contract. *)
Definition signed_ledger : Database.t :=
  Database.mk [signed_span] [contract_t1] (Some identity).

(** A ledger with the identity and nothing else. *)
Definition fresh_ledger : Database.t := Database.mk [] [] (Some identity).

(** A span of [t1] with a hash that is not its hash, a signature nobody
    made and a parent that is not in the ledger. *)
Definition forged_span : Span.t :=
  Span.mk "s3" "t1" (Some "s0") "obligation.registered" "minicontrato"
    (SpanBody.mk "register_obligation" (JObj [("amount", JNum 1000)])
       JUndefined None None)
    "2025-01-03T00:00:00Z" None None
    (SpanHash.mk "blake3:00" "1.0.0") (Some (confirmation "ed25519:00")).

(** A ledger with the creation span, without hash, and the forged span. *)
Definition damaged_ledger : Database.t :=
  Database.mk [created_span; forged_span] [contract_t1] (Some identity).

End Example.

(** More data for the examples. *)
Module Cases.

(** A creation span whose only party is [null]: [p.name] throws in
    [extractContractTitle]. *)
Definition null_party_span : Span.t :=
  Span.mk "s9" "t9" None "contract.created" "minicontrato"
    (SpanBody.mk "create_contract" (JObj [("parties", JArr [JNull])])
       JUndefined None None)
    "2025-02-01T00:00:00Z" None None
    (SpanHash.mk "" "1.0.0") None.

End Cases.

(* ================================================================== *)
(** * Properties: the object stores and [appendSpan] *)
(* ================================================================== *)

Section ObjectStoreFacts.
Variable V : Type.
Variable keyPath : V -> string.

Lemma In_insert_by_key (v x : V) (records : list V) :
  In x (insert_by_key keyPath v records) <-> x = v \/ In x records.
Proof.
  induction records as [|r rest IH]; simpl.
  - intuition.
  - destruct (String.ltb (keyPath v) (keyPath r)); simpl.
    + intuition.
    + rewrite IH. intuition.
Qed.

Lemma has_key_true (k : string) (records : list V) :
  has_key keyPath k records = true <->
  exists r, In r records /\ keyPath r = k.
Proof.
  unfold has_key. rewrite existsb_exists.
  split; intros [r [Hin Hk]]; exists r; split; auto.
  - now apply String.eqb_eq.
  - now apply String.eqb_eq.
Qed.

Lemma has_key_false (k : string) (records : list V) :
  has_key keyPath k records = false <->
  forall r, In r records -> keyPath r <> k.
Proof.
  split.
  - intros H r Hin Hk.
    assert (has_key keyPath k records = true) as Ht
      by (apply has_key_true; eauto).
    congruence.
  - intros H. destruct (has_key keyPath k records) eqn:E; auto.
    apply has_key_true in E. destruct E as [r [Hin Hk]].
    exfalso. eapply H; eauto.
Qed.

Lemma store_get_insert_fresh (v : V) (records : list V) :
  has_key keyPath (keyPath v) records = false ->
  store_get keyPath (keyPath v) (insert_by_key keyPath v records) = Some v.
Proof.
  unfold store_get, has_key.
  induction records as [|r rest IH]; simpl; intros H.
  - now rewrite String.eqb_refl.
  - apply orb_false_iff in H. destruct H as [Hr Hrest].
    destruct (String.ltb (keyPath v) (keyPath r)); simpl.
    + now rewrite String.eqb_refl.
    + rewrite Hr. auto.
Qed.

Lemma In_index_getAll (indexKey : V -> option string) (k : string) (x : V)
    (records : list V) :
  In x (index_getAll indexKey k records) <-> In x records /\ indexKey x = Some k.
Proof.
  unfold index_getAll. rewrite filter_In.
  destruct (indexKey x) as [k'|].
  - rewrite String.eqb_eq. intuition congruence.
  - intuition congruence.
Qed.

Lemma index_getAll_insert (indexKey : V -> option string) (k : string) (v x : V)
    (records : list V) :
  In x (index_getAll indexKey k (insert_by_key keyPath v records)) <->
  (x = v /\ indexKey v = Some k) \/ In x (index_getAll indexKey k records).
Proof.
  rewrite !In_index_getAll, In_insert_by_key.
  intuition (subst; auto).
Qed.

End ObjectStoreFacts.

(** [appendSpan] by cases on the presence of the key. *)
Lemma appendSpan_cases (span : Span.t) (db : Database.t) :
  ((exists s, In s (Database.spans db) /\ Span.id s = Span.id span) ->
   appendSpan span db = (db, Throw ConstraintError))
  /\
  ((forall s, In s (Database.spans db) -> Span.id s <> Span.id span) ->
   exists db',
     appendSpan span db = (db', Ok tt)
     /\ getSpan (Span.id span) db' = Some span).
Proof.
  unfold appendSpan, store_add. split.
  - intros Hex. apply has_key_true in Hex. now rewrite Hex.
  - intros Hfresh. apply has_key_false in Hfresh. rewrite Hfresh.
    eexists. split; [reflexivity|].
    unfold getSpan. simpl. now apply store_get_insert_fresh.
Qed.

(** C5.  [appendSpan] on a span whose [id] is the [id] of a stored span
    fails with the [ConstraintError] of IndexedDB and leaves the database as
    it was; on a span whose [id] is new it succeeds, and in the database it
    leaves the record of that [id] is the span, the stored spans are the span
    and the ones before, every index (on any key path, so the five of the
    store) answers with the span under its key and is otherwise unchanged,
    and the other stores are untouched. *)
Theorem appendSpan_exclusive (span : Span.t) (db : Database.t) :
  ((exists s, In s (Database.spans db) /\ Span.id s = Span.id span) ->
   appendSpan span db = (db, Throw ConstraintError))
  /\
  ((forall s, In s (Database.spans db) -> Span.id s <> Span.id span) ->
   exists db',
     appendSpan span db = (db', Ok tt)
     /\ getSpan (Span.id span) db' = Some span
     /\ (forall s, In s (Database.spans db') <-> s = span \/ In s (Database.spans db))
     /\ (forall (index : Span.t -> option string) (k : string) (s : Span.t),
           In s (index_getAll index k (Database.spans db')) <->
           (s = span /\ index span = Some k)
           \/ In s (index_getAll index k (Database.spans db)))
     /\ Database.contracts db' = Database.contracts db
     /\ Database.identity db' = Database.identity db).
Proof.
  unfold appendSpan, store_add. split.
  - intros Hex. apply has_key_true in Hex. now rewrite Hex.
  - intros Hfresh. apply has_key_false in Hfresh. rewrite Hfresh.
    eexists. split; [reflexivity|]. simpl. repeat split.
    + unfold getSpan. simpl. now apply store_get_insert_fresh.
    + now apply In_insert_by_key.
    + now apply In_insert_by_key.
    + now apply index_getAll_insert.
    + now apply index_getAll_insert.
Qed.

(** The scenario span cannot be appended twice, and can be appended to the
    empty ledger. *)
Lemma appendSpan_exclusive_witness :
  appendSpan Example.created_span Example.two_spans
  = (Example.two_spans, Throw ConstraintError)
  /\ exists db',
       appendSpan Example.created_span Database.empty = (db', Ok tt)
       /\ getSpan "s1" db' = Some Example.created_span.
Proof.
  split.
  - apply (proj1 (appendSpan_exclusive Example.created_span Example.two_spans)).
    exists Example.created_span. simpl. split; [left|]; reflexivity.
  - destruct (proj2 (appendSpan_exclusive Example.created_span Database.empty))
      as [db' [H1 [H2 _]]].
    + simpl. intros s [].
    + exists db'. split; assumption.
Defined.

(* ================================================================== *)
(** * Properties: sorting and [querySpans] *)
(* ================================================================== *)

Section SortFacts.
Variable A : Type.
Variable cmp : A -> A -> comparison.

Lemma In_insert_sorted (x y : A) (l : list A) :
  In y (insert_sorted cmp x l) <-> y = x \/ In y l.
Proof.
  induction l as [|z rest IH]; simpl.
  - intuition.
  - destruct (cmp z x); simpl; try rewrite IH; intuition.
Qed.

Lemma In_fold_insert (l acc : list A) (y : A) :
  In y (fold_left (fun acc x => insert_sorted cmp x acc) l acc) <->
  In y l \/ In y acc.
Proof.
  revert acc. induction l as [|x rest IH]; simpl; intros acc.
  - intuition.
  - rewrite IH, In_insert_sorted. intuition.
Qed.

Lemma In_sort (l : list A) (y : A) : In y (sort cmp l) <-> In y l.
Proof.
  unfold sort. rewrite In_fold_insert. simpl. intuition.
Qed.

Lemma length_insert_sorted (x : A) (l : list A) :
  length (insert_sorted cmp x l) = S (length l).
Proof.
  induction l as [|z rest IH]; simpl; auto.
  destruct (cmp z x); simpl; auto.
Qed.

Lemma length_sort (l : list A) : length (sort cmp l) = length l.
Proof.
  unfold sort.
  assert (forall acc, length (fold_left (fun acc x => insert_sorted cmp x acc) l acc)
                      = length l + length acc) as H.
  { induction l as [|x rest IH]; simpl; intros acc; auto.
    rewrite IH, length_insert_sorted. lia. }
  rewrite H. simpl. lia.
Qed.

End SortFacts.

Section QueryFacts.
Context {RT : Runtime}.

(** What [querySpans] selects when no [limit] is given: the stored spans
    that pass the index the code has chosen (the first of [trace_id], [type],
    [entity] that is given; the later ones are not looked at) and the three
    filters. *)
Lemma In_querySpans (filter : SpanFilter.t) (db : Database.t) (s : Span.t) :
  SpanFilter.limit filter = None ->
  In s (querySpans filter db) <->
  In s (Database.spans db)
  /\ match given (SpanFilter.trace_id filter) with
     | Some trace_id => Span.trace_id s = trace_id
     | None =>
         match given (SpanFilter.type filter) with
         | Some type => Span.type s = type
         | None =>
             match given (SpanFilter.entity filter) with
             | Some entity => Span.entity s = entity
             | None => True
             end
         end
     end
  /\ match given (SpanFilter.user_id filter) with
     | Some user_id => by_user s = Some user_id
     | None => True
     end
  /\ match given (SpanFilter.from filter) with
     | Some from => String.leb from (Span.started_at s) = true
     | None => True
     end
  /\ match given (SpanFilter.to filter) with
     | Some to => String.leb (Span.started_at s) to = true
     | None => True
     end.
Proof.
  intros Hlimit. unfold querySpans. rewrite Hlimit, In_sort.
  destruct (given (SpanFilter.to filter)); [rewrite filter_In|];
  (destruct (given (SpanFilter.from filter)); [rewrite filter_In|]);
  (destruct (given (SpanFilter.user_id filter)); [rewrite filter_In|]);
  (destruct (given (SpanFilter.trace_id filter));
   [rewrite In_index_getAll
   |destruct (given (SpanFilter.type filter));
    [rewrite In_index_getAll
    |destruct (given (SpanFilter.entity filter)); [rewrite In_index_getAll|]]]);
  unfold by_trace, by_type, by_entity;
  try (destruct (by_user s) as [signer|]; [rewrite String.eqb_eq|]);
  intuition congruence.
Qed.

(** [getSpansByTrace] of a trace with a name: the stored spans of the trace. *)
Lemma In_getSpansByTrace (traceId : string) (db : Database.t) (s : Span.t) :
  traceId <> "" ->
  In s (getSpansByTrace traceId db) <->
  In s (Database.spans db) /\ Span.trace_id s = traceId.
Proof.
  intros Hne. unfold getSpansByTrace. rewrite In_querySpans by reflexivity.
  simpl. apply String.eqb_neq in Hne. rewrite Hne. intuition.
Qed.

End QueryFacts.

(** C4, refuted as stated.  Asked for the spans of the trace [t1] that have
    the type [contract.created], [querySpans] answers with the two spans of
    the trace: the cancelled one, whose type is not the type asked for, and
    the created one.  The branch taken for [trace_id] never reads
    [filter.type]. *)
Lemma querySpans_type_not_applied :
  @querySpans Example.runtime
    (SpanFilter.mk (Some "t1") (Some "contract.created") None None None None None)
    Example.two_spans
  = [Example.cancelled_span; Example.created_span]
  /\ Span.trace_id Example.cancelled_span = "t1"
  /\ Span.type Example.cancelled_span <> "contract.created".
Proof.
  split; [reflexivity|]. split; [reflexivity|discriminate].
Qed.

(* ================================================================== *)
(** * Properties: the contract view *)
(* ================================================================== *)

Lemma store_get_put (V : Type) (keyPath : V -> string) (v : V) (records : list V) :
  store_get keyPath (keyPath v) (store_put keyPath v records) = Some v.
Proof.
  unfold store_put. apply store_get_insert_fresh.
  apply has_key_false. intros r Hin Hk.
  apply filter_In in Hin. destruct Hin as [_ Hneq].
  apply String.eqb_eq in Hk. rewrite Hk in Hneq. discriminate.
Qed.

Lemma store_get_key (V : Type) (keyPath : V -> string) (k : string) (v : V)
    (records : list V) :
  store_get keyPath k records = Some v -> keyPath v = k.
Proof.
  unfold store_get. intros H. apply find_some in H.
  now apply String.eqb_eq.
Qed.

Section ViewFacts.
Context {RT : Runtime}.

Lemma getContract_saveContract (contract : Contract.t) (db : Database.t) :
  getContract (Contract.id contract) (saveContract contract db) = Some contract.
Proof. unfold getContract, saveContract. simpl. apply store_get_put. Qed.

Lemma getContract_saveContract_at (k : string) (contract : Contract.t)
    (db : Database.t) :
  Contract.id contract = k ->
  getContract k (saveContract contract db) = Some contract.
Proof. intros <-. apply getContract_saveContract. Qed.

(** The projection writes the store of contracts only. *)
Lemma updateContractFromSpans_spans (now traceId : string) (db : Database.t) :
  Database.spans (fst (updateContractFromSpans now traceId db)) = Database.spans db
  /\ Database.identity (fst (updateContractFromSpans now traceId db))
     = Database.identity db.
Proof.
  unfold updateContractFromSpans.
  destruct (Nat.eqb _ 0); [auto|].
  destruct (find _ _); [|auto].
  destruct (getContract traceId db).
  - destruct (find _ _); [auto|]. destruct (find _ _); auto.
  - destruct (extractContractTitle _); auto.
Qed.

(** A first projection, when it creates the contract, always creates it
    [active] and without [completed_at]: the spans of the trace are not
    consulted for the status in that branch. *)
Lemma first_projection_active (now traceId : string) (db db' : Database.t)
    (r : result unit) (contract : Contract.t) :
  getContract traceId db = None ->
  updateContractFromSpans now traceId db = (db', r) ->
  getContract traceId db' = Some contract ->
  Contract.status contract = active /\ Contract.completed_at contract = None.
Proof.
  intros Hnone Hrun Hget. unfold updateContractFromSpans in Hrun.
  rewrite Hnone in Hrun.
  destruct (Nat.eqb _ 0); [inversion Hrun; subst; congruence|].
  destruct (find _ _) as [creationSpan|]; [|inversion Hrun; subst; congruence].
  destruct (extractContractTitle creationSpan) as [title|e];
    [|inversion Hrun; subst; congruence].
  inversion Hrun; subst db' r. clear Hrun.
  match type of Hget with
  | getContract _ (saveContract ?c _) = _ =>
      pose proof (getContract_saveContract c db) as Hsaved
  end.
  simpl in Hsaved. rewrite Hsaved in Hget. inversion Hget. split; reflexivity.
Qed.

(** C2, at a first projection.  The ledger holds the creation span and the
    cancellation span of the trace [t1] and no contract yet.  The projection
    creates the contract with the status [active] and no [completed_at],
    although a [contract.cancelled] span is among the spans it has fetched
    and lists in [spans]. *)
Theorem updateContractFromSpans_first_projection (now : string) :
  exists contract,
    updateContractFromSpans now "t1" Example.two_spans
    = (saveContract contract Example.two_spans, Ok tt)
    /\ getContract "t1" (saveContract contract Example.two_spans) = Some contract
    /\ Contract.status contract = active
    /\ Contract.completed_at contract = None
    /\ In (Span.id Example.cancelled_span) (Contract.spans contract)
    /\ In Example.cancelled_span (getSpansByTrace "t1" Example.two_spans)
    /\ Span.type Example.cancelled_span = "contract.cancelled".
Proof.
  unfold updateContractFromSpans, getSpansByTrace, querySpans. simpl.
  unfold sort. simpl.
  destruct (localeCompare "2025-01-02T00:00:00Z" "2025-01-01T00:00:00Z");
    simpl; eexists; (split; [reflexivity|]); simpl;
    (split; [reflexivity|]); intuition.
Qed.

Lemma querySpans_saveContract (filter : SpanFilter.t) (contract : Contract.t)
    (db : Database.t) :
  querySpans filter (saveContract contract db) = querySpans filter db.
Proof. reflexivity. Qed.

(** The status and [completed_at] the update branch settles on. *)
Lemma update_existing (now traceId : string) (db : Database.t)
    (contract : Contract.t) :
  getContract traceId db = Some contract ->
  updateContractFromSpans now traceId db = (db, Ok tt)
  /\ (Nat.eqb (length (getSpansByTrace traceId db)) 0 = true
      \/ find (has_type "contract.created") (getSpansByTrace traceId db) = None)
  \/ exists status completed_at,
       Nat.eqb (length (getSpansByTrace traceId db)) 0 = false
       /\ find (has_type "contract.created") (getSpansByTrace traceId db) <> None
       /\ (status, completed_at)
          = match find (has_type "contract.cancelled") (getSpansByTrace traceId db),
                  find (has_type "contract.completed") (getSpansByTrace traceId db) with
            | Some cancelledSpan, _ => (cancelled, Span.completed_at cancelledSpan)
            | None, Some completedSpan => (completed, Span.completed_at completedSpan)
            | None, None => (Contract.status contract, Contract.completed_at contract)
            end
       /\ updateContractFromSpans now traceId db
          = (saveContract
               (Contract.mk (Contract.id contract) (Contract.title contract)
                  (Contract.description contract) (Contract.parties contract)
                  status (Contract.created_at contract) now completed_at
                  (map Span.id (getSpansByTrace traceId db))
                  (Contract.metadata contract)) db, Ok tt).
Proof.
  intros Hget. unfold updateContractFromSpans. rewrite Hget.
  destruct (Nat.eqb (length (getSpansByTrace traceId db)) 0) eqn:Hlen; [auto|].
  destruct (find (has_type "contract.created") (getSpansByTrace traceId db))
    as [creationSpan|] eqn:Hcreated; [|auto].
  right.
  destruct (find (has_type "contract.cancelled") _) as [x|];
    [|destruct (find (has_type "contract.completed") _) as [y|]];
    do 2 eexists; (split; [reflexivity|]); (split; [discriminate|]);
    (split; [reflexivity|]); reflexivity.
Qed.

(** Once the contract of a trace exists, projecting again over the same
    spans changes nothing but [updated_at], and no projection changes
    [created_at]. *)
Lemma updateContractFromSpans_idempotent_once_created
    (now1 now2 traceId : string) (db : Database.t) (contract : Contract.t) :
  getContract traceId db = Some contract ->
  exists c1 c2,
    getContract traceId (fst (updateContractFromSpans now1 traceId db)) = Some c1
    /\ getContract traceId
         (fst (updateContractFromSpans now2 traceId
                 (fst (updateContractFromSpans now1 traceId db)))) = Some c2
    /\ Contract.same_but_updated_at c1 c2
    /\ Contract.created_at c1 = Contract.created_at contract.
Proof.
  intros Hget.
  assert (Contract.id contract = traceId) as Hid
    by (eapply store_get_key; exact Hget).
  assert (forall c, Contract.same_but_updated_at c c) as Hrefl
    by (intros c; repeat split).
  destruct (update_existing now1 traceId db Hget)
    as [[Hrun1 Hwhy]|[status1 [completed1 [Hlen [Hcreated [Hstatus1 Hrun1]]]]]].
  - rewrite Hrun1. simpl.
    destruct (update_existing now2 traceId db Hget)
      as [[Hrun2 _]|[status2 [completed2 [Hlen [Hcreated _]]]]].
    + rewrite Hrun2. simpl. exists contract, contract. auto.
    + destruct Hwhy; congruence.
  - rewrite Hrun1. simpl.
    match goal with
    | |- context [saveContract ?c db] => set (c1 := c)
    end.
    assert (getContract traceId (saveContract c1 db) = Some c1) as Hget1.
    { apply getContract_saveContract_at. exact Hid. }
    destruct (update_existing now2 traceId (saveContract c1 db) Hget1)
      as [[_ Hwhy]|[status2 [completed2 [_ [_ [Hstatus2 Hrun2]]]]]].
    + unfold getSpansByTrace in *. rewrite querySpans_saveContract in Hwhy.
      destruct Hwhy; congruence.
    + rewrite Hrun2. simpl.
      exists c1. eexists. split; [exact Hget1|]. split.
      * apply getContract_saveContract_at. exact Hid.
      * unfold getSpansByTrace in *.
        rewrite !querySpans_saveContract in Hstatus2. subst c1. simpl in *.
        destruct (find (has_type "contract.cancelled") _) as [x|];
          [|destruct (find (has_type "contract.completed") _) as [y|]];
          inversion Hstatus1; inversion Hstatus2; subst;
          repeat split.
Qed.

(** C8, at two projections from a ledger without the contract.  Over the
    unchanged spans of [t1] (the creation and the cancellation), the first
    projection writes an [active] contract without [completed_at] and the
    second one a [cancelled] contract with the [completed_at] of the
    cancellation: the two records differ in more than [updated_at].
    [created_at] is the same in both. *)
Theorem updateContractFromSpans_twice (now1 now2 : string) :
  exists c1 c2 db1 db2,
    updateContractFromSpans now1 "t1" Example.two_spans = (db1, Ok tt)
    /\ getContract "t1" db1 = Some c1
    /\ Database.spans db1 = Database.spans Example.two_spans
    /\ updateContractFromSpans now2 "t1" db1 = (db2, Ok tt)
    /\ getContract "t1" db2 = Some c2
    /\ Contract.status c1 = active
    /\ Contract.status c2 = cancelled
    /\ Contract.completed_at c1 = None
    /\ Contract.completed_at c2 = Some "2025-01-02T00:00:01Z"
    /\ ~ Contract.same_but_updated_at c1 c2
    /\ Contract.created_at c2 = Contract.created_at c1.
Proof.
  destruct (localeCompare "2025-01-02T00:00:00Z" "2025-01-01T00:00:00Z") eqn:Hcmp;
    unfold updateContractFromSpans, getSpansByTrace, querySpans, sort; simpl;
    rewrite Hcmp; simpl;
    do 4 eexists;
    (split; [reflexivity|]); (split; [reflexivity|]); (split; [reflexivity|]);
    simpl; rewrite Hcmp; simpl;
    (split; [reflexivity|]); (split; [reflexivity|]);
    repeat split; try reflexivity;
    intros [_ [_ [_ [_ [H _]]]]]; discriminate.
Qed.

End ViewFacts.

(* ================================================================== *)
(** * Properties: [appendToLedger] *)
(* ================================================================== *)

Section LedgerFacts.
Context {RT : Runtime}.

Lemma calculateSpanHash_not_empty (span : JSObject) :
  (calculateSpanHash span =? "") = false.
Proof. reflexivity. Qed.

(** The span after the first step of [appendToLedger]. *)
Lemma signSpan_hashed (span : Span.t) (key : CryptoKey.t) :
  let hashed :=
    if SpanHash.hash (Span.this span) =? ""
    then Span.set_hash (calculateSpanHash (spanObject span)) span else span in
  signSpan hashed key = (hashed, sign (SpanHash.hash (Span.this hashed)) key).
Proof.
  simpl. unfold signSpan.
  destruct (SpanHash.hash (Span.this span) =? "") eqn:E.
  - simpl. reflexivity.
  - rewrite E. reflexivity.
Qed.

Lemma getSpan_fresh (span : Span.t) (db : Database.t) :
  (forall s, In s (Database.spans db) -> Span.id s <> Span.id span) ->
  getSpan (Span.id span) db = None.
Proof.
  intros Hfresh. unfold getSpan, store_get.
  destruct (find _ _) as [s|] eqn:E; [|reflexivity].
  apply find_some in E. destruct E as [Hin Hid].
  apply String.eqb_eq in Hid. exfalso. eapply Hfresh; eauto.
Qed.

(** What happens to a span whose [id] is new, once [appendToLedger] has the
    span [stored] to store. *)
Lemma appendToLedger_after_signing (now_view : string) (stored : Span.t)
    (db : Database.t) :
  (forall s, In s (Database.spans db) -> Span.id s <> Span.id stored) ->
  exists db' r,
    match appendSpan stored db with
    | (db, Throw e) => (db, Throw e)
    | (db, Ok _) =>
        if Span.entity stored =? "minicontrato"
        then updateContractFromSpans now_view (Span.trace_id stored) db
        else (db, Ok tt)
    end = (db', r)
    /\ getSpan (Span.id stored) db' = Some stored.
Proof.
  intros Hfresh.
  destruct (proj2 (appendSpan_cases stored db) Hfresh)
    as [db1 [Happend Hget]].
  rewrite Happend.
  destruct (Span.entity stored =? "minicontrato").
  - destruct (updateContractFromSpans now_view (Span.trace_id stored) db1)
      as [db' r] eqn:Hrun.
    exists db', r. split; [reflexivity|].
    pose proof (updateContractFromSpans_spans now_view (Span.trace_id stored) db1)
      as [Hspans _].
    rewrite Hrun in Hspans. simpl in Hspans.
    unfold getSpan in *. now rewrite Hspans.
  - exists db1, (Ok tt). auto.
Qed.

(** The span [appendToLedger] stores under a new [id]: the span with its
    hash filled when it was empty, and with the confirmation of the local
    identity when it had none and there is an identity. *)
Lemma appendToLedger_stored (now_signature now_view : string) (span : Span.t)
    (db db' : Database.t) (r : result unit) (stored : Span.t) :
  (forall s, In s (Database.spans db) -> Span.id s <> Span.id span) ->
  appendToLedger now_signature now_view span db = (db', r) ->
  getSpan (Span.id span) db' = Some stored ->
  let hashed :=
    if SpanHash.hash (Span.this span) =? ""
    then Span.set_hash (calculateSpanHash (spanObject span)) span else span in
  (stored = hashed
   /\ (Database.identity db = None \/ Span.confirmed_by span <> None))
  \/ (exists identity signature,
        Database.identity db = Some identity
        /\ Span.confirmed_by span = None
        /\ stored = Span.set_confirmed_by
                      (SpanConfirmation.mk signature "minicontratos.local"
                         now_signature (Identity.user_id identity)) hashed).
Proof.
  intros Hfresh Hrun Hget hashed.
  assert (Span.id hashed = Span.id span) as Hid
    by (subst hashed; destruct (_ =? ""); reflexivity).
  assert (Span.confirmed_by hashed = Span.confirmed_by span) as Hconf
    by (subst hashed; destruct (_ =? ""); reflexivity).
  unfold appendToLedger in Hrun. fold hashed in Hrun.
  rewrite Hconf in Hrun. unfold getIdentity in Hrun.
  destruct (Database.identity db) as [identity|] eqn:Hidentity;
    [destruct (Span.confirmed_by span) as [c|] eqn:Hc|].
  - destruct (appendToLedger_after_signing now_view hashed db)
      as [db2 [r2 [Heq Hget2]]]; [now rewrite Hid|].
    rewrite Heq in Hrun. inversion Hrun; subst db2 r2.
    rewrite Hid in Hget2. left. split; [congruence|]. right. discriminate.
  - pose proof (signSpan_hashed span (Identity.private_key_handle identity)) as Hs.
    cbv zeta in Hs. fold hashed in Hs. rewrite Hs in Hrun. clear Hs.
    destruct (sign (SpanHash.hash (Span.this hashed))
                (Identity.private_key_handle identity)) as [signature|e];
      unfold bind in Hrun; cbv beta iota in Hrun.
    + match type of Hrun with
      | context [appendSpan ?s db] => set (signed := s) in *
      end.
      destruct (appendToLedger_after_signing now_view signed db)
        as [db2 [r2 [Heq Hget2]]]; [subst signed; simpl; now rewrite Hid|].
      rewrite Heq in Hrun. inversion Hrun; subst db2 r2.
      change (Span.id signed) with (Span.id hashed) in Hget2.
      rewrite Hid in Hget2. right. exists identity, signature.
      split; [reflexivity|]. split; [reflexivity|].
      rewrite Hget in Hget2. inversion Hget2. reflexivity.
    + inversion Hrun; subst db' r.
      rewrite (getSpan_fresh span db Hfresh) in Hget. discriminate.
  - cbv beta iota in Hrun.
    destruct (appendToLedger_after_signing now_view hashed db)
      as [db2 [r2 [Heq Hget2]]]; [now rewrite Hid|].
    rewrite Heq in Hrun. inversion Hrun; subst db2 r2.
    rewrite Hid in Hget2. left. split; [congruence|]. now left.
Qed.

(** C10, for a span whose [id] is new.  [appendToLedger] on such a span:
    - a span that carries a hash and a confirmation is stored exactly as it
      was given (and [appendToLedger] does store it);
    - in general, the span stored under that [id] has the fields of the given
      span, except that an empty hash has been replaced by the computed hash
      and that a missing confirmation has been replaced by the signature of
      the local identity when there is one: a hash that was not empty is
      kept, a confirmation that was present is kept, and without an identity
      the confirmation stays as it was. *)
Theorem appendToLedger_frame (now_signature now_view : string) (span : Span.t)
    (db : Database.t) :
  (forall s, In s (Database.spans db) -> Span.id s <> Span.id span) ->
  (forall c,
     SpanHash.hash (Span.this span) <> "" ->
     Span.confirmed_by span = Some c ->
     exists db' r,
       appendToLedger now_signature now_view span db = (db', r)
       /\ getSpan (Span.id span) db' = Some span)
  /\
  (forall db' r stored,
     appendToLedger now_signature now_view span db = (db', r) ->
     getSpan (Span.id span) db' = Some stored ->
     (SpanHash.hash (Span.this span) <> "" -> Span.this stored = Span.this span)
     /\ (SpanHash.hash (Span.this span) = "" ->
         Span.this stored
         = SpanHash.mk (calculateSpanHash (spanObject span))
             (SpanHash.version (Span.this span)))
     /\ (Span.confirmed_by span <> None ->
         Span.confirmed_by stored = Span.confirmed_by span)
     /\ (Database.identity db = None ->
         Span.confirmed_by stored = Span.confirmed_by span)
     /\ (Span.confirmed_by span = None ->
         forall identity, Database.identity db = Some identity ->
         exists signature,
           Span.confirmed_by stored
           = Some (SpanConfirmation.mk signature "minicontratos.local"
                     now_signature (Identity.user_id identity)))
     /\ Span.id stored = Span.id span
     /\ Span.trace_id stored = Span.trace_id span
     /\ Span.parent_id stored = Span.parent_id span
     /\ Span.type stored = Span.type span
     /\ Span.entity stored = Span.entity span
     /\ Span.body stored = Span.body span
     /\ Span.started_at stored = Span.started_at span
     /\ Span.completed_at stored = Span.completed_at span
     /\ Span.duration_ms stored = Span.duration_ms span).
Proof.
  intros Hfresh. split.
  - intros c Hhash Hc.
    apply String.eqb_neq in Hhash.
    unfold appendToLedger. rewrite Hhash, Hc.
    destruct (getIdentity db); cbv beta iota;
      apply appendToLedger_after_signing; exact Hfresh.
  - intros db' r stored Hrun Hget.
    destruct (appendToLedger_stored now_signature now_view span db Hfresh Hrun Hget)
      as [[Hstored Hwhy]|[identity [signature [Hidentity [Hc Hstored]]]]];
      subst stored;
      destruct (String.eqb_spec (SpanHash.hash (Span.this span)) "") as [Hhash|Hhash];
      simpl; repeat split; intros; try congruence; try reflexivity;
      try (exfalso; destruct Hwhy; congruence);
      exists signature; congruence.
Qed.

End LedgerFacts.

(** A span with its hash and its confirmation, appended to a ledger that has
    a local identity, is stored as it was given. *)
Lemma appendToLedger_frame_witness :
  exists db' r,
    @appendToLedger Example.runtime "2025-01-01T00:00:03Z" "2025-01-01T00:00:04Z"
      Example.signed_span Example.fresh_ledger = (db', r)
    /\ getSpan "s1" db' = Some Example.signed_span.
Proof.
  destruct (@appendToLedger_frame Example.runtime "2025-01-01T00:00:03Z"
              "2025-01-01T00:00:04Z" Example.signed_span Example.fresh_ledger)
    as [H _].
  - simpl. intros s [].
  - eapply H.
    + intro E. vm_compute in E. discriminate E.
    + reflexivity.
Defined.

(** C10, refuted as stated.  The signed span carries its hash and its
    confirmation; appended to the ledger of the two spans, which holds the
    unsigned creation span under the same [id], it is refused with the
    [ConstraintError] of [appendSpan]: the ledger is as it was, the record of
    that [id] is still the unsigned span, and the signed span is not stored. *)
Lemma appendToLedger_existing_id :
  SpanHash.hash (Span.this Example.signed_span) <> ""
  /\ Span.confirmed_by Example.signed_span <> None
  /\ @appendToLedger Example.runtime "2025-01-01T00:00:03Z" "2025-01-01T00:00:04Z"
       Example.signed_span Example.two_spans
     = (Example.two_spans, Throw ConstraintError)
  /\ getSpan "s1" Example.two_spans = Some Example.created_span
  /\ Span.this Example.created_span <> Span.this Example.signed_span
  /\ ~ In Example.signed_span (Database.spans Example.two_spans).
Proof.
  split; [intro E; vm_compute in E; discriminate E|].
  split; [discriminate|].
  split; [reflexivity|].
  split; [reflexivity|].
  split; [intro E; vm_compute in E; discriminate E|].
  simpl. intros [E|[E|[]]]; vm_compute in E; discriminate E.
Qed.

(* ================================================================== *)
(** * Properties: [verifyLedger] *)
(* ================================================================== *)

Section VerifierFacts.
Context {RT : Runtime}.

(** [crypto.subtle.verify] refuses a private key, and [verify] answers
    [false] to whatever is thrown. *)
Lemma verify_private_key (data signature : string) (key : CryptoKey.t) :
  CryptoKey.type key = private -> verify data signature key = false.
Proof.
  intros Hprivate. unfold verify, try_catch.
  unfold subtle_verify. rewrite Hprivate.
  destruct (negb (has_usage usage_verify key)); reflexivity.
Qed.

Lemma verifySpan_private_key (span : Span.t) (key : CryptoKey.t) :
  CryptoKey.type key = private -> verifySpan span key = false.
Proof.
  intros Hprivate. unfold verifySpan.
  destruct (Span.confirmed_by span) as [c|]; [|reflexivity].
  destruct (SpanConfirmation.signature c =? ""); [reflexivity|].
  destruct (negb _); [reflexivity|].
  now apply verify_private_key.
Qed.

(** The inner loop only adds to [errors]. *)
Lemma verifySpanInLedger_app (db : Database.t) (spans : list Span.t)
    (errors : list LedgerError.t) (span : Span.t) :
  verifySpanInLedger db spans errors span
  = (errors ++ verifySpanInLedger db spans [] span)%list.
Proof.
  unfold verifySpanInLedger.
  destruct (negb (SpanHash.hash (Span.this span) =? _));
    (destruct (truthy_string (signature_of span));
     [destruct (getIdentity db) as [identity|];
      [destruct (negb (verifySpan span _))|]|]);
    (destruct (Span.parent_id span) as [parent_id|];
     [destruct (negb (parent_id =? ""));
      [destruct (negb (existsb _ spans))|]|]);
    simpl; rewrite <- ?app_assoc, ?app_nil_r; reflexivity.
Qed.

Lemma fold_verifySpanInLedger (db : Database.t) (spans l : list Span.t)
    (errors : list LedgerError.t) :
  fold_left (verifySpanInLedger db spans) l errors
  = (errors ++ flat_map (verifySpanInLedger db spans []) l)%list.
Proof.
  revert errors. induction l as [|span rest IH]; simpl; intros errors.
  - now rewrite app_nil_r.
  - rewrite IH, verifySpanInLedger_app, app_assoc. reflexivity.
Qed.

Lemma In_hash_mismatch (db : Database.t) (spans : list Span.t) (span : Span.t) :
  SpanHash.hash (Span.this span) <> calculateSpanHash (spanObject span) ->
  In (LedgerError.mk (Span.id span)
        ("Hash mismatch: expected " ++ SpanHash.hash (Span.this span)
         ++ ", got " ++ calculateSpanHash (spanObject span)))
     (verifySpanInLedger db spans [] span).
Proof.
  intros Hneq. apply String.eqb_neq in Hneq.
  unfold verifySpanInLedger. rewrite Hneq. simpl negb. cbv iota.
  match goal with
  | |- In ?e match ?p with
             | Some _ => _
             | None => ?errors2
             end =>
      assert (In e errors2) as Hin
  end.
  { destruct (truthy_string (signature_of span)); [|now left].
    destruct (getIdentity db); [|now left].
    destruct (negb _); [|now left]. apply in_or_app. left. now left. }
  destruct (Span.parent_id span) as [parent_id|]; [|exact Hin].
  destruct (negb (parent_id =? "")); [|exact Hin].
  destruct (negb (existsb _ spans)); [|exact Hin].
  apply in_or_app. now left.
Qed.

Lemma In_invalid_signature (db : Database.t) (spans : list Span.t)
    (span : Span.t) (identity : Identity.t) :
  truthy_string (signature_of span) = true ->
  Database.identity db = Some identity ->
  verifySpan span (Identity.private_key_handle identity) = false ->
  In (LedgerError.mk (Span.id span) "Invalid signature")
     (verifySpanInLedger db spans [] span).
Proof.
  intros Hsig Hidentity Hinvalid.
  unfold verifySpanInLedger, getIdentity. rewrite Hsig, Hidentity, Hinvalid.
  simpl negb. cbv iota.
  match goal with
  | |- In ?e match ?p with
             | Some _ => _
             | None => ?errors2
             end =>
      assert (In e errors2) as Hin by (apply in_or_app; right; now left)
  end.
  destruct (Span.parent_id span) as [parent_id|]; [|exact Hin].
  destruct (negb (parent_id =? "")); [|exact Hin].
  destruct (negb (existsb _ spans)); [|exact Hin].
  apply in_or_app. now left.
Qed.


(** The outer loop, from any [errors] and [totalSpans]. *)
Lemma fold_contracts (db : Database.t) (contracts : list Contract.t)
    (errors : list LedgerError.t) (totalSpans : nat) :
  fold_left
    (fun '(errors, totalSpans) contract =>
       let spans := getSpansByTrace (Contract.id contract) db in
       let totalSpans := totalSpans + length spans in
       (fold_left (verifySpanInLedger db spans) spans errors, totalSpans))
    contracts (errors, totalSpans)
  = ((errors
      ++ flat_map
           (fun contract =>
              flat_map
                (verifySpanInLedger db (getSpansByTrace (Contract.id contract) db) [])
                (getSpansByTrace (Contract.id contract) db))
           contracts)%list,
     totalSpans
     + list_sum (map (fun contract =>
                        length (getSpansByTrace (Contract.id contract) db))
                   contracts)).
Proof.
  revert errors totalSpans.
  induction contracts as [|contract rest IH]; simpl; intros errors totalSpans.
  - rewrite app_nil_r. f_equal. lia.
  - rewrite IH, fold_verifySpanInLedger, <- app_assoc. f_equal. lia.
Qed.

(** The report of [verifyLedger], in closed form. *)
Lemma verifyLedger_closed_form (db : Database.t) :
  Report.errors (verifyLedger db)
  = flat_map
      (fun contract =>
         flat_map
           (verifySpanInLedger db (getSpansByTrace (Contract.id contract) db) [])
           (getSpansByTrace (Contract.id contract) db))
      (getAllContracts db)
  /\ Report.total (verifyLedger db)
     = list_sum (map (fun contract =>
                        length (getSpansByTrace (Contract.id contract) db))
                   (getAllContracts db))
  /\ Report.valid (verifyLedger db)
     = Nat.eqb (length (Report.errors (verifyLedger db))) 0.
Proof.
  unfold verifyLedger. rewrite fold_contracts. simpl. auto.
Qed.

Lemma In_verifyLedger (db : Database.t) (contract : Contract.t) (span : Span.t)
    (e : LedgerError.t) :
  In contract (Database.contracts db) ->
  In span (getSpansByTrace (Contract.id contract) db) ->
  In e (verifySpanInLedger db (getSpansByTrace (Contract.id contract) db) [] span) ->
  In e (Report.errors (verifyLedger db)).
Proof.
  intros Hc Hs He.
  destruct (verifyLedger_closed_form db) as [Herrors _]. rewrite Herrors.
  apply in_flat_map. exists contract. split.
  - unfold getAllContracts. now apply In_sort.
  - apply in_flat_map. exists span. auto.
Qed.


(** C3, for every span that carries a signature.  When the ledger has a
    local identity, whose [private_key_handle] is the private key of its
    pair, every span of the trace of a contract that carries a signature is
    reported with [Invalid signature], whatever the signature is: the
    verifier hands [verifySpan] the private key of the identity, which
    [crypto.subtle.verify] refuses.  The signer of the span is not looked
    up. *)
Theorem verifyLedger_rejects_every_signature (db : Database.t)
    (identity : Identity.t) (contract : Contract.t) (span : Span.t) :
  Database.identity db = Some identity ->
  CryptoKey.type (Identity.private_key_handle identity) = private ->
  In contract (Database.contracts db) ->
  In span (getSpansByTrace (Contract.id contract) db) ->
  truthy_string (signature_of span) = true ->
  In (LedgerError.mk (Span.id span) "Invalid signature")
     (Report.errors (verifyLedger db)).
Proof.
  intros Hidentity Hprivate Hc Hs Hsig.
  eapply In_verifyLedger; eauto.
  eapply In_invalid_signature; eauto.
  now apply verifySpan_private_key.
Qed.

End VerifierFacts.



(** The signed ledger: the hash of its span is intact and its signature is
    the signature of the local identity, which the public key of the
    identity verifies; [verifyLedger] reports [Invalid signature] for it. *)
Lemma verifyLedger_rejects_every_signature_witness :
  SpanHash.hash (Span.this Example.signed_span)
  = @calculateSpanHash Example.runtime (Example.span_object Example.signed_span)
  /\ @verifySpan Example.runtime Example.signed_span (fst Example.key_pair) = true
  /\ In (LedgerError.mk "s1" "Invalid signature")
        (Report.errors (@verifyLedger Example.runtime Example.signed_ledger)).
Proof.
  split; [reflexivity|]. split; [reflexivity|].
  apply (@verifyLedger_rejects_every_signature Example.runtime
           Example.signed_ledger Example.identity Example.contract_t1
           Example.signed_span).
  - reflexivity.
  - reflexivity.
  - simpl. now left.
  - apply In_getSpansByTrace; [discriminate|]. simpl. auto.
  - reflexivity.
Defined.

(* ================================================================== *)
(** * Properties: [calculateSpanHash] *)
(* ================================================================== *)


Lemma lookup_set_prop_other (k k' : string) (v : JSValue) (props : JSObject) :
  k <> k' -> lookup k (set_prop k' v props) = lookup k props.
Proof.
  intros Hne. induction props as [|[k0 v0] rest IH]; simpl.
  - apply not_eq_sym in Hne. apply String.eqb_neq in Hne. now rewrite Hne.
  - destruct (k0 =? k') eqn:E; simpl.
    + apply String.eqb_eq in E. subst k0.
      apply not_eq_sym in Hne. apply String.eqb_neq in Hne. now rewrite Hne.
    + now rewrite IH.
Qed.




Lemma remove_prop_set_prop (k : string) (v w : JSValue) (props : JSObject) :
  remove_prop k (set_prop k v props) = remove_prop k (set_prop k w props).
Proof.
  unfold remove_prop. induction props as [|[k' v'] rest IH]; simpl.
  - now rewrite String.eqb_refl.
  - destruct (k' =? k) eqn:E; simpl; rewrite E; simpl; [reflexivity|now rewrite IH].
Qed.










Lemma append_empty (s : string) : s ++ "" = s.
Proof. induction s as [|c s IH]; simpl; [reflexivity|now rewrite IH]. Qed.

Lemma concat_empty_cons (x : string) (l : list string) :
  String.concat "" (x :: l) = x ++ String.concat "" l.
Proof. destruct l; simpl; [now rewrite append_empty|reflexivity]. Qed.

Lemma hex_pairs_hex_of_byte (b : byte) (tail : string) :
  hex_pairs (hex_of_byte b ++ tail) = b :: hex_pairs tail.
Proof. destruct b; reflexivity. Qed.

(** [hexToBytes] reads back what [bytesToHex] writes. *)
Lemma hex_pairs_bytesToHex (bytes : list byte) :
  hex_pairs (bytesToHex bytes) = bytes.
Proof.
  unfold bytesToHex. induction bytes as [|b rest IH]; [reflexivity|].
  cbn [map]. rewrite concat_empty_cons, hex_pairs_hex_of_byte. now rewrite IH.
Qed.


Lemma append_assoc (a b c : string) : (a ++ b) ++ c = a ++ b ++ c.
Proof. induction a as [|x a IH]; simpl; [reflexivity|now rewrite IH]. Qed.



Section HashFacts.
Context {RT : Runtime}.



End HashFacts.



(* ================================================================== *)
(** * Properties: [extractSpansFromResponse] *)
(* ================================================================== *)

Section ExtractionFacts.
Context {RT : Runtime}.

(** The loop over the blocks, from any [allSpans]. *)
Lemma fold_blocks (blocks : list string) (allSpans : list JSValue) :
  fold_left
    (fun allSpans jsonText =>
       match JSON_parse jsonText with
       | Some (JArr parsed) => (allSpans ++ parsed)%list
       | Some (JObj props) => (allSpans ++ [JObj props])%list
       | Some _ => allSpans
       | None => allSpans
       end)
    blocks allSpans
  = (allSpans ++ flat_map parsed_spans blocks)%list.
Proof.
  revert allSpans. induction blocks as [|text rest IH]; simpl; intros allSpans.
  - now rewrite app_nil_r.
  - rewrite IH. unfold parsed_spans.
    destruct (JSON_parse text) as [[| | | | | |]|];
      rewrite <- ?app_assoc; reflexivity.
Qed.


End ExtractionFacts.


(* ================================================================== *)
(** * Properties: the encryption of the API key *)
(* ================================================================== *)

(** [lia] on quotients and remainders by constants. *)
Ltac Zify.zify_post_hook ::= Z.to_euclidean_division_equations.

Local Open Scope N_scope.

(** Boolean tests in the hypotheses, as propositions. *)
Ltac bool_to_prop :=
  repeat match goal with
  | H : _ = true |- _ =>
      progress rewrite ?andb_true_iff, ?andb_false_iff, ?orb_true_iff,
        ?orb_false_iff, ?negb_true_iff, ?negb_false_iff, ?N.leb_le, ?N.leb_gt,
        ?N.ltb_lt, ?N.ltb_ge, ?N.eqb_eq, ?N.eqb_neq in H
  | H : _ = false |- _ =>
      progress rewrite ?andb_true_iff, ?andb_false_iff, ?orb_true_iff,
        ?orb_false_iff, ?negb_true_iff, ?negb_false_iff, ?N.leb_le, ?N.leb_gt,
        ?N.ltb_lt, ?N.ltb_ge, ?N.eqb_eq, ?N.eqb_neq in H
  end.

Ltac decide_if :=
  match goal with
  | |- context [if ?b then _ else _] =>
      let E := fresh "E" in
      destruct b eqn:E; bool_to_prop; try (exfalso; lia)
  end.

Lemma N_of_ascii_of_N (n : N) : n < 256 -> N_of_ascii (ascii_of_N n) = n.
Proof. intros. apply N_ascii_embedding. assumption. Qed.

Lemma b64_value_char (n : N) : n < 64 -> b64_value (b64_char n) = Some n.
Proof.
  intros Hn. unfold b64_char.
  repeat decide_if; unfold b64_value; rewrite N_of_ascii_of_N by lia;
    repeat decide_if; try (f_equal; lia).
  all: try reflexivity.
Qed.

Local Open Scope string_scope.

Lemma string_ind3 (P : string -> Prop) :
  P "" ->
  (forall a, P (String a "")) ->
  (forall a b, P (String a (String b ""))) ->
  (forall a b c rest, P rest -> P (String a (String b (String c rest)))) ->
  forall s, P s.
Proof.
  intros H0 H1 H2 H3. fix IH 1.
  intros [|a [|b [|c rest]]];
    [exact H0|apply H1|apply H2|apply H3; apply IH].
Qed.

Lemma b64_code (n : N) :
  (n < 64)%N ->
  let m := N_of_ascii (b64_char n) in
  (m = 43 \/ m = 47 \/ 48 <= m <= 57 \/ 65 <= m <= 90 \/ 97 <= m <= 122)%N.
Proof.
  intros Hn. unfold b64_char.
  repeat decide_if; cbv zeta; rewrite N_of_ascii_of_N by lia; lia.
Qed.

Lemma b64_char_plain (n : N) :
  (n < 64)%N ->
  ascii_whitespace (b64_char n) = false
  /\ Ascii.eqb (b64_char n) pad = false.
Proof.
  intros Hn. pose proof (b64_code Hn) as Hm. cbv zeta in Hm. split.
  - unfold ascii_whitespace. cbv zeta.
    repeat match goal with
           | |- context [(?a =? ?b)%N] => destruct (N.eqb_spec a b); [exfalso; lia|]
           end. reflexivity.
  - apply Ascii.eqb_neq. intros E.
    assert (N_of_ascii (b64_char n) = 61)%N by (rewrite E; reflexivity). lia.
Qed.

Lemma sextets (a b c : ascii) :
  let x := N_of_ascii a in
  let y := N_of_ascii b in
  let z := N_of_ascii c in
  (x / 4 < 64 /\ (x mod 4) * 16 + y / 16 < 64 /\ (y mod 16) * 4 + z / 64 < 64
   /\ z mod 64 < 64 /\ (x mod 4) * 16 < 64 /\ (y mod 16) * 4 < 64)%N.
Proof.
  pose proof (N_ascii_bounded a). pose proof (N_ascii_bounded b).
  pose proof (N_ascii_bounded c). cbv zeta. lia.
Qed.

Lemma remove_whitespace_plain (c : ascii) (s : string) :
  ascii_whitespace c = false ->
  remove_whitespace (String c s) = String c (remove_whitespace s).
Proof. intros H. simpl. now rewrite H. Qed.

Lemma remove_padding_plain (c : ascii) (s : string) :
  Ascii.eqb c pad = false ->
  remove_padding (String c s) = String c (remove_padding s).
Proof.
  intros H. destruct s as [|d s']; simpl; rewrite H; reflexivity.
Qed.

Lemma remove_whitespace_btoa (s : string) : remove_whitespace (btoa s) = btoa s.
Proof.
  induction s as [|a|a b|a b c rest IH] using string_ind3.
  - reflexivity.
  - destruct (sextets a a a) as [H1 [_ [_ [_ [H5 _]]]]].
    cbn [btoa]. rewrite !remove_whitespace_plain;
      try (apply b64_char_plain; assumption); reflexivity.
  - destruct (sextets a b b) as [H1 [H2 [_ [_ [_ H6]]]]].
    cbn [btoa]. rewrite !remove_whitespace_plain;
      try (apply b64_char_plain; assumption); reflexivity.
  - destruct (sextets a b c) as [H1 [H2 [H3 [H4 _]]]].
    cbn [btoa]. rewrite !remove_whitespace_plain;
      try (apply b64_char_plain; assumption). now rewrite IH.
Qed.

Lemma length_btoa (s : string) : (String.length (btoa s) mod 4 = 0)%nat.
Proof.
  induction s as [|a|a b|a b c rest IH] using string_ind3; try reflexivity.
  cbn [btoa String.length].
  replace (S (S (S (S (String.length (btoa rest))))))
    with (String.length (btoa rest) + 1 * 4)%nat by lia.
  now rewrite Nat.Div0.mod_add.
Qed.

Lemma ascii_of_N_of_ascii (a : ascii) : ascii_of_N (N_of_ascii a) = a.
Proof. apply ascii_N_embedding. Qed.

Lemma ascii_of_N_eq (n : N) (a : ascii) : n = N_of_ascii a -> ascii_of_N n = a.
Proof. intros ->. apply ascii_N_embedding. Qed.

Ltac ascii_eq :=
  repeat match goal with
         | |- Ok _ = Ok _ => f_equal
         | |- String _ _ = String _ _ => f_equal
         | |- ascii_of_N _ = _ => apply ascii_of_N_eq; lia
         end.

Lemma decode_btoa (s : string) :
  decode_groups (remove_padding (btoa s)) = Ok s
  /\ (String.length (remove_padding (btoa s)) mod 4 =? 1)%nat = false.
Proof.
  induction s as [|a|a b|a b c rest IH] using string_ind3.
  - split; reflexivity.
  - destruct (sextets a a a) as [H1 [_ [_ [_ [H5 _]]]]].
    pose proof (N_ascii_bounded a).
    cbn [btoa]. rewrite !remove_padding_plain by (apply b64_char_plain; assumption).
    simpl remove_padding. split; [|reflexivity].
    cbn [decode_groups]. rewrite !b64_value_char by assumption.
    ascii_eq.
  - destruct (sextets a b b) as [H1 [H2 [_ [_ [_ H6]]]]].
    pose proof (N_ascii_bounded a). pose proof (N_ascii_bounded b).
    cbn [btoa]. rewrite !remove_padding_plain by (apply b64_char_plain; assumption).
    simpl remove_padding. split; [|reflexivity].
    cbn [decode_groups]. rewrite !b64_value_char by assumption.
    ascii_eq.
  - destruct (sextets a b c) as [H1 [H2 [H3 [H4 _]]]].
    pose proof (N_ascii_bounded a). pose proof (N_ascii_bounded b).
    pose proof (N_ascii_bounded c).
    destruct IH as [IH Hlen].
    cbn [btoa]. rewrite !remove_padding_plain by (apply b64_char_plain; assumption).
    split.
    + cbn [decode_groups]. rewrite !b64_value_char by assumption.
      rewrite IH. cbn [bind]. ascii_eq.
    + cbn [String.length].
      match goal with
      | |- context [S (S (S (S ?n)))] =>
          replace (S (S (S (S n)))) with (n + 1 * 4)%nat by lia
      end.
      now rewrite Nat.Div0.mod_add.
Qed.

Lemma atob_btoa (s : string) : atob (btoa s) = Ok s.
Proof.
  unfold atob. rewrite remove_whitespace_btoa, length_btoa. cbn [Nat.eqb].
  destruct (decode_btoa s) as [H1 H2]. now rewrite H2.
Qed.

Local Open Scope N_scope.

Lemma to_N_byte_of_N (n : N) : n < 256 -> Byte.to_N (byte_of_N n) = n.
Proof.
  intros Hn. unfold byte_of_N.
  destruct (Byte.of_N n) as [b|] eqn:E.
  - now apply Byte.to_of_N.
  - pose proof (Byte.to_of_N_option_map n) as H. rewrite E in H. simpl in H.
    destruct (N.leb_spec n 255); [discriminate|lia].
Qed.

Lemma lead_1 (b : N) : b <= 127 -> Utf8.lead b = ([b], Utf8.start).
Proof. intros H. unfold Utf8.lead. repeat decide_if. reflexivity. Qed.

Lemma lead_2 (b : N) :
  194 <= b <= 223 -> Utf8.lead b = ([], Utf8.mk (b mod 32) 0 1 128 191).
Proof. intros H. unfold Utf8.lead. repeat decide_if. reflexivity. Qed.

Lemma lead_3 (b : N) :
  224 <= b <= 239 ->
  Utf8.lead b
  = ([], Utf8.mk (b mod 16) 0 2 (if b =? 224 then 160 else 128)
           (if b =? 237 then 159 else 191)).
Proof.
  intros H. unfold Utf8.lead.
  destruct (b <=? 127) eqn:E1; bool_to_prop; [lia|].
  destruct ((194 <=? b) && (b <=? 223))%bool eqn:E2; bool_to_prop; [lia|].
  destruct ((224 <=? b) && (b <=? 239))%bool eqn:E3; bool_to_prop; [|lia].
  reflexivity.
Qed.

Lemma lead_4 (b : N) :
  240 <= b <= 244 ->
  Utf8.lead b
  = ([], Utf8.mk (b mod 8) 0 3 (if b =? 240 then 144 else 128)
           (if b =? 244 then 143 else 191)).
Proof.
  intros H. unfold Utf8.lead.
  destruct (b <=? 127) eqn:E1; bool_to_prop; [lia|].
  destruct ((194 <=? b) && (b <=? 223))%bool eqn:E2; bool_to_prop; [lia|].
  destruct ((224 <=? b) && (b <=? 239))%bool eqn:E3; bool_to_prop; [lia|].
  destruct ((240 <=? b) && (b <=? 244))%bool eqn:E4; bool_to_prop; [|lia].
  reflexivity.
Qed.

Lemma decode_first (b : N) (rest : list N) :
  Utf8.decode Utf8.start (b :: rest)
  = (fst (Utf8.lead b) ++ Utf8.decode (snd (Utf8.lead b)) rest)%list.
Proof. cbn [Utf8.decode Utf8.start Utf8.needed N.eqb]. now destruct (Utf8.lead b). Qed.

Lemma decode_last (cp seen needed lower upper b : N) (rest : list N) :
  needed <> 0 -> lower <= b <= upper -> seen + 1 = needed ->
  Utf8.decode (Utf8.mk cp seen needed lower upper) (b :: rest)
  = (cp * 64 + b mod 64) :: Utf8.decode Utf8.start rest.
Proof.
  intros Hn Hb Hs. cbn [Utf8.decode Utf8.needed Utf8.lower Utf8.upper Utf8.seen
                         Utf8.code_point].
  destruct (needed =? 0) eqn:E1; bool_to_prop; [lia|].
  destruct ((b <? lower) || (upper <? b))%bool eqn:E2; bool_to_prop; [lia|].
  destruct (seen + 1 =? needed) eqn:E3; bool_to_prop; [reflexivity|lia].
Qed.

Lemma decode_more (cp seen needed lower upper b : N) (rest : list N) :
  needed <> 0 -> lower <= b <= upper -> seen + 1 <> needed ->
  Utf8.decode (Utf8.mk cp seen needed lower upper) (b :: rest)
  = Utf8.decode (Utf8.mk (cp * 64 + b mod 64) (seen + 1) needed 128 191) rest.
Proof.
  intros Hn Hb Hs. cbn [Utf8.decode Utf8.needed Utf8.lower Utf8.upper Utf8.seen
                         Utf8.code_point].
  destruct (needed =? 0) eqn:E1; bool_to_prop; [lia|].
  destruct ((b <? lower) || (upper <? b))%bool eqn:E2; bool_to_prop; [lia|].
  destruct (seen + 1 =? needed) eqn:E3; bool_to_prop; [lia|reflexivity].
Qed.

Lemma decode_scalar (c : N) (rest : list N) :
  valid_scalar c ->
  Utf8.decode Utf8.start (map Byte.to_N (utf8_of_scalar c) ++ rest)
  = c :: Utf8.decode Utf8.start rest.
Proof.
  intros Hc. unfold valid_scalar in Hc. unfold utf8_of_scalar.
  destruct (c <? 128) eqn:E1; bool_to_prop;
    [|destruct (c <? 2048) eqn:E2; bool_to_prop;
      [|destruct (c <? 65536) eqn:E3; bool_to_prop]];
    cbn [map app]; rewrite !to_N_byte_of_N by lia; rewrite decode_first.
  - rewrite lead_1 by lia. reflexivity.
  - rewrite lead_2 by lia. cbn [fst snd app].
    rewrite decode_last by lia. f_equal. lia.
  - rewrite lead_3 by lia. cbn [fst snd app].
    rewrite decode_more; [|lia| |lia].
    + rewrite decode_last by lia. f_equal. lia.
    + repeat decide_if; lia.
  - rewrite lead_4 by lia. cbn [fst snd app].
    rewrite decode_more; [|lia| |lia].
    + rewrite decode_more by lia. rewrite decode_last by lia. f_equal. lia.
    + repeat decide_if; lia.
Qed.

Lemma decode_encode (l : list N) :
  Forall valid_scalar l ->
  Utf8.decode Utf8.start (map Byte.to_N (flat_map utf8_of_scalar l)) = l.
Proof.
  induction 1 as [|c rest Hc Hrest IH]; [reflexivity|].
  cbn [flat_map]. rewrite map_app, decode_scalar by assumption. now rewrite IH.
Qed.

(** Induction on a string of code units that follows [scalar_values]: two
    units at a time at a surrogate pair. *)
Lemma units_ind (P : list N -> Prop) :
  P [] ->
  (forall u v rest,
     is_high_surrogate u = true -> is_low_surrogate v = true ->
     P rest -> P (u :: v :: rest)) ->
  (forall u rest,
     (is_high_surrogate u = false
      \/ match rest with
         | v :: _ => is_low_surrogate v = false
         | [] => True
         end) ->
     P rest -> P (u :: rest)) ->
  forall units, P units.
Proof.
  intros Hnil Hpair Hone units.
  assert (forall n units, (length units <= n)%nat -> P units) as H.
  { induction n as [|n IH]; intros l Hlen.
    - destruct l; [exact Hnil|simpl in Hlen; lia].
    - destruct l as [|u rest]; [exact Hnil|].
      simpl in Hlen.
      destruct (is_high_surrogate u) eqn:Eu.
      + destruct rest as [|v rest'].
        * apply Hone; [now right|exact Hnil].
        * destruct (is_low_surrogate v) eqn:Ev.
          -- apply Hpair; auto. apply IH. simpl in Hlen. lia.
          -- apply Hone; [now right|]. apply IH. lia.
      + apply Hone; [now left|]. apply IH. lia. }
  apply (H (length units)). lia.
Qed.

Lemma scalar_values_valid (units : list N) :
  Forall (fun u => u < 65536) units -> Forall valid_scalar (scalar_values units).
Proof.
  induction units as [|u v rest Hu Hv IH|u rest Hu IH] using units_ind;
    intros Hall.
  - constructor.
  - cbn [scalar_values]. rewrite Hu, Hv.
    inversion Hall as [|? ? _ Hall']. inversion Hall' as [|? ? _ Hall''].
    constructor; [|now apply IH].
    unfold is_high_surrogate, is_low_surrogate in *. bool_to_prop.
    unfold valid_scalar. lia.
  - inversion Hall as [|? ? Hu16 Hall']. specialize (IH Hall').
    cbn [scalar_values].
    destruct (is_high_surrogate u) eqn:Eu.
    + destruct Hu as [Hu|Hu]; [discriminate|].
      destruct rest as [|v rest'].
      * constructor; [unfold valid_scalar; lia|constructor].
      * rewrite Hu. constructor; [unfold valid_scalar; lia|exact IH].
    + destruct (is_low_surrogate u) eqn:El.
      * constructor; [unfold valid_scalar; lia|exact IH].
      * constructor; [|exact IH].
        unfold is_high_surrogate, is_low_surrogate in *. bool_to_prop.
        unfold valid_scalar. lia.
Qed.

Lemma well_formed_16_bit (units : list N) :
  well_formed units = true -> Forall (fun u => u < 65536) units.
Proof.
  induction units as [|u v rest Hu Hv IH|u rest Hu IH] using units_ind;
    intros Hwf.
  - constructor.
  - cbn [well_formed] in Hwf. rewrite Hu, Hv in Hwf.
    unfold is_high_surrogate, is_low_surrogate in *. bool_to_prop.
    repeat constructor; try lia. now apply IH.
  - cbn [well_formed] in Hwf.
    destruct (is_high_surrogate u) eqn:Eu.
    + destruct Hu as [Hu|Hu]; [discriminate|].
      destruct rest as [|v rest']; [discriminate|].
      rewrite Hu in Hwf. discriminate.
    + bool_to_prop. destruct Hwf as [[_ H16] Hrest].
      constructor; [exact H16|now apply IH].
Qed.

Lemma utf16_scalar_values (units : list N) :
  well_formed units = true -> flat_map Utf8.utf16 (scalar_values units) = units.
Proof.
  induction units as [|u v rest Hu Hv IH|u rest Hu IH] using units_ind;
    intros Hwf.
  - reflexivity.
  - cbn [well_formed scalar_values] in *. rewrite Hu, Hv in *.
    cbn [flat_map]. rewrite IH by (now bool_to_prop).
    unfold Utf8.utf16.
    unfold is_high_surrogate, is_low_surrogate in *. bool_to_prop.
    decide_if. cbn [app]. f_equal; [lia|]. f_equal. lia.
  - cbn [well_formed scalar_values] in *.
    destruct (is_high_surrogate u) eqn:Eu.
    + destruct Hu as [Hu|Hu]; [discriminate|].
      destruct rest as [|v rest']; [discriminate|].
      rewrite Hu in Hwf. discriminate.
    + bool_to_prop. destruct Hwf as [[Hlow H16] Hrest].
      rewrite Hlow. cbn [flat_map]. rewrite IH by assumption.
      unfold Utf8.utf16. decide_if. reflexivity.
Qed.

Lemma scalar_values_no_BOM (units : list N) :
  well_formed units = true -> starts_with_BOM units = false ->
  match scalar_values units with
  | cp :: rest => if cp =? 65279 then rest else scalar_values units
  | [] => []
  end = scalar_values units.
Proof.
  intros Hwf Hbom. destruct units as [|u rest]; [reflexivity|].
  cbn [scalar_values well_formed starts_with_BOM] in *.
  destruct (is_high_surrogate u) eqn:Eu.
  - destruct rest as [|v rest']; [discriminate|].
    bool_to_prop. destruct Hwf as [Hv _]. rewrite Hv.
    unfold is_high_surrogate, is_low_surrogate in *. bool_to_prop.
    decide_if. reflexivity.
  - bool_to_prop. destruct Hwf as [[Hlow _] _]. rewrite Hlow.
    destruct (u =? 65279) eqn:E; [bool_to_prop; lia|reflexivity].
Qed.

(** What [TextDecoder] reads back from what [TextEncoder] wrote. *)
Lemma TextDecoder_TextEncoder (units : list N) :
  Forall (fun u => u < 65536) units ->
  TextDecoder_decode (utf8_encode units)
  = flat_map Utf8.utf16
      match scalar_values units with
      | cp :: rest => if cp =? 65279 then rest else scalar_values units
      | [] => []
      end.
Proof.
  intros H16. unfold TextDecoder_decode, utf8_encode.
  rewrite decode_encode by now apply scalar_values_valid.
  reflexivity.
Qed.

Lemma TextDecoder_TextEncoder_well_formed (units : list N) :
  well_formed units = true -> starts_with_BOM units = false ->
  TextDecoder_decode (utf8_encode units) = units.
Proof.
  intros Hwf Hbom.
  rewrite TextDecoder_TextEncoder by now apply well_formed_16_bit.
  rewrite scalar_values_no_BOM by assumption.
  now apply utf16_scalar_values.
Qed.

Local Open Scope string_scope.

Lemma firstn_skipn_app (A : Type) (n : nat) (a b : list A) :
  length a = n -> firstn n (a ++ b)%list = a /\ skipn n (a ++ b)%list = b.
Proof.
  intros <-. induction a as [|x a IH]; simpl; [auto|].
  destruct IH as [IH1 IH2]. now rewrite IH1, IH2.
Qed.

Lemma length_getRandomValues (n : nat) (rng : Rng.t) :
  length (fst (getRandomValues n rng)) = n.
Proof. unfold getRandomValues. simpl. now rewrite length_map, length_seq. Qed.

(** [base64ToBytes] reads back what [bytesToBase64] writes. *)
Lemma base64ToBytes_bytesToBase64 (bytes : list byte) :
  base64ToBytes (bytesToBase64 bytes) = Ok bytes.
Proof.
  unfold base64ToBytes, bytesToBase64. rewrite atob_btoa. cbn [bind].
  now rewrite list_byte_of_string_of_list_byte.
Qed.

Section ApiKeyFacts.
Context {RT : Runtime}.

(** AES-GCM decrypts, under the key and the nonce, what it has encrypted
    under them. *)
Hypothesis AES_GCM_correct :
  forall key iv text,
    AES_GCM_decrypt key iv (AES_GCM_encrypt key iv text) = Some text.

(** What [decryptApiKey] returns for what [encryptApiKey] has written: the
    text [TextDecoder] reads in the UTF-8 bytes of the key. *)
Lemma decrypt_after_encrypt_text (apiKey userId : list N) (rng : Rng.t) :
  decryptApiKey (fst (encryptApiKey apiKey userId rng)) userId
  = Ok (TextDecoder_decode (utf8_encode apiKey)).
Proof.
  unfold decryptApiKey, encryptApiKey.
  destruct (getRandomValues 16 rng) as [salt rng1] eqn:E1.
  destruct (getRandomValues 12 rng1) as [iv rng2] eqn:E2.
  cbn [fst]. rewrite base64ToBytes_bytesToBase64. cbn [bind].
  assert (length salt = 16%nat) as Hsalt
    by (change salt with (fst (salt, rng1)); rewrite <- E1;
        apply length_getRandomValues).
  assert (length iv = 12%nat) as Hiv
    by (change iv with (fst (iv, rng2)); rewrite <- E2;
        apply length_getRandomValues).
  destruct (firstn_skipn_app salt
              (iv ++ AES_GCM_encrypt
                       (PBKDF2_SHA256 (utf8_encode userId) salt PBKDF2_iterations)
                       iv (utf8_encode apiKey)) Hsalt) as [Hf16 Hs16].
  change 28%nat with (12 + 16)%nat. rewrite <- skipn_skipn.
  rewrite Hf16, Hs16.
  destruct (firstn_skipn_app iv
              (AES_GCM_encrypt
                 (PBKDF2_SHA256 (utf8_encode userId) salt PBKDF2_iterations)
                 iv (utf8_encode apiKey)) Hiv) as [Hf12 Hs12].
  rewrite Hf12, Hs12, AES_GCM_correct. reflexivity.
Qed.

(** C9, for the keys that UTF-8 gives back.  [encryptApiKey] draws 16
    random bytes for the salt and then 12 for the nonce (the next call draws
    further on), derives the key from the UTF-8 bytes of [userId] by PBKDF2
    with 100000 iterations, encrypts the UTF-8 bytes of the key by AES-GCM and
    returns the base64 of salt, nonce and ciphertext together.
    [decryptApiKey] with the same [userId] returns the key, when the key is
    well-formed UTF-16 and does not start with U+FEFF. *)
Theorem decryptApiKey_encryptApiKey (apiKey userId : list N) (rng : Rng.t) :
  let salt := fst (getRandomValues 16 rng) in
  let iv := fst (getRandomValues 12 (snd (getRandomValues 16 rng))) in
  let key := PBKDF2_SHA256 (utf8_encode userId) salt PBKDF2_iterations in
  (100000 <= PBKDF2_iterations)%Z
  /\ length salt = 16%nat
  /\ length iv = 12%nat
  /\ salt = map (Rng.tape rng) (seq (Rng.position rng) 16)
  /\ iv = map (Rng.tape rng) (seq (Rng.position rng + 16) 12)
  /\ Rng.position (snd (encryptApiKey apiKey userId rng))
     = (Rng.position rng + 16 + 12)%nat
  /\ base64ToBytes (fst (encryptApiKey apiKey userId rng))
     = Ok (salt ++ iv ++ AES_GCM_encrypt key iv (utf8_encode apiKey))%list
  /\ (well_formed apiKey = true ->
      starts_with_BOM apiKey = false ->
      decryptApiKey (fst (encryptApiKey apiKey userId rng)) userId = Ok apiKey).
Proof.
  cbv zeta.
  split; [unfold PBKDF2_iterations; lia|].
  split; [apply length_getRandomValues|].
  split; [apply length_getRandomValues|].
  split; [reflexivity|]. split; [reflexivity|]. split; [reflexivity|].
  split.
  - unfold encryptApiKey, getRandomValues. cbn [fst snd].
    apply base64ToBytes_bytesToBase64.
  - intros Hwf Hbom. rewrite decrypt_after_encrypt_text.
    now rewrite TextDecoder_TextEncoder_well_formed.
Qed.

(** The key that starts with U+FEFF comes back without it, and the key that
    is an unpaired surrogate comes back as U+FFFD. *)
Lemma decrypt_after_encrypt_lossy (userId : list N) (rng : Rng.t) :
  decryptApiKey (fst (encryptApiKey [65279; 107]%N userId rng)) userId
  = Ok [107%N]
  /\ decryptApiKey (fst (encryptApiKey [55357%N] userId rng)) userId
     = Ok [65533%N].
Proof. rewrite !decrypt_after_encrypt_text. split; reflexivity. Qed.

End ApiKeyFacts.

Lemma bytes_eqb_refl (a : list byte) : Example.bytes_eqb a a = true.
Proof.
  induction a as [|x a IH]; simpl; [reflexivity|].
  rewrite IH. destruct x; reflexivity.
Qed.

(** The example platform decrypts what it has encrypted. *)
Lemma Example_AES_GCM_correct (key iv text : list byte) :
  @AES_GCM_decrypt Example.runtime key iv
    (@AES_GCM_encrypt Example.runtime key iv text) = Some text.
Proof.
  simpl.
  destruct (firstn_skipn_app iv text eq_refl) as [H1 H2].
  now rewrite H1, H2, bytes_eqb_refl.
Qed.

(** The key [sk-1] of the user [jo] is read back. *)
Lemma decryptApiKey_encryptApiKey_witness :
  @decryptApiKey Example.runtime
    (fst (@encryptApiKey Example.runtime [115; 107; 45; 49]%N [106; 111]%N
            Example.rng))
    [106; 111]%N
  = Ok [115; 107; 45; 49]%N.
Proof.
  destruct (@decryptApiKey_encryptApiKey Example.runtime
              Example_AES_GCM_correct [115; 107; 45; 49]%N [106; 111]%N
              Example.rng) as [_ [_ [_ [_ [_ [_ [_ H]]]]]]].
  apply H; reflexivity.
Defined.

(** C9, refuted as stated.  On every platform whose AES-GCM decrypts what it
    encrypts, the key made of U+FEFF and [k] is read back as [k] alone, and
    the key made of one unpaired surrogate as U+FFFD; so it is on the example
    platform. *)
Lemma decryptApiKey_loses_byte_order_mark :
  (forall RT : Runtime,
     (forall key iv text,
        AES_GCM_decrypt key iv (AES_GCM_encrypt key iv text) = Some text) ->
     forall userId rng,
       decryptApiKey (fst (encryptApiKey [65279; 107]%N userId rng)) userId
       = Ok [107%N]
       /\ decryptApiKey (fst (encryptApiKey [55357%N] userId rng)) userId
          = Ok [65533%N])
  /\ @decryptApiKey Example.runtime
       (fst (@encryptApiKey Example.runtime [65279; 107]%N [106; 111]%N
               Example.rng))
       [106; 111]%N
     = Ok [107%N]
  /\ @decryptApiKey Example.runtime
       (fst (@encryptApiKey Example.runtime [65279; 107]%N [106; 111]%N
               Example.rng))
       [106; 111]%N
     <> Ok [65279; 107]%N.
Proof.
  split; [intros RT H userId rng; now apply decrypt_after_encrypt_lossy|].
  destruct (@decrypt_after_encrypt_lossy Example.runtime
              Example_AES_GCM_correct [106; 111]%N Example.rng) as [H _].
  split; [exact H|]. rewrite H. discriminate.
Qed.

(* ================================================================== *)
(** * Properties: hexadecimal text and signatures *)
(* ================================================================== *)

Lemma substring_all (s : string) : substring 0 (String.length s) s = s.
Proof. induction s as [|c s IH]; simpl; [reflexivity|now rewrite IH]. Qed.

Lemma prefix_app (p h : string) : prefix p (p ++ h) = true.
Proof.
  induction p as [|c p IH]; simpl; [now destruct h|].
  destruct (ascii_dec c c); [exact IH|congruence].
Qed.

Lemma slice_from_app (p h : string) : slice_from (String.length p) (p ++ h) = h.
Proof.
  unfold slice_from. induction p as [|c p IH]; simpl.
  - rewrite Nat.sub_0_r. apply substring_all.
  - exact IH.
Qed.

Lemma hexToBytes_of_hex (bytes : list byte) :
  hexToBytes (bytesToHex bytes) = bytes.
Proof. apply hex_pairs_bytesToHex. Qed.

(** A character after the last pair is not read. *)
Lemma hexToBytes_odd (bytes : list byte) (c : ascii) :
  hexToBytes (bytesToHex bytes ++ String c "") = bytes.
Proof.
  unfold hexToBytes, bytesToHex. induction bytes as [|b rest IH]; [reflexivity|].
  cbn [map]. rewrite concat_empty_cons, append_assoc, hex_pairs_hex_of_byte.
  now rewrite IH.
Qed.

Lemma length_bytesToHex (bytes : list byte) :
  String.length (bytesToHex bytes) = (2 * length bytes)%nat.
Proof.
  unfold bytesToHex. induction bytes as [|b rest IH]; [reflexivity|].
  simpl map. rewrite concat_empty_cons. simpl. rewrite IH. simpl. lia.
Qed.

Lemma lower_hex_hex_of_byte (b : byte) :
  forallb lower_hex (list_ascii_of_string (hex_of_byte b)) = true.
Proof. destruct b; reflexivity. Qed.

Lemma list_ascii_of_string_app (a b : string) :
  list_ascii_of_string (a ++ b)
  = (list_ascii_of_string a ++ list_ascii_of_string b)%list.
Proof. induction a as [|c a IH]; simpl; [reflexivity|now rewrite IH]. Qed.

Lemma lower_hex_bytesToHex (bytes : list byte) :
  forallb lower_hex (list_ascii_of_string (bytesToHex bytes)) = true.
Proof.
  unfold bytesToHex. induction bytes as [|b rest IH]; [reflexivity|].
  simpl map. rewrite concat_empty_cons, list_ascii_of_string_app, forallb_app.
  now rewrite lower_hex_hex_of_byte, IH.
Qed.

(** X1.  [hexToBytes] undoes [bytesToHex]: the hexadecimal text of a byte
    array is read back as that array.  The text has two characters for
    every byte, all of them digits or the letters [a]-[f].  One more
    character at the end of the text changes nothing: [hexToBytes] reads
    whole pairs. *)
Theorem hexToBytes_bytesToHex (bytes : list byte) :
  hexToBytes (bytesToHex bytes) = bytes
  /\ String.length (bytesToHex bytes) = (2 * length bytes)%nat
  /\ forallb lower_hex (list_ascii_of_string (bytesToHex bytes)) = true
  /\ (forall c, hexToBytes (bytesToHex bytes ++ String c "") = bytes).
Proof.
  split; [apply hexToBytes_of_hex|].
  split; [apply length_bytesToHex|].
  split; [apply lower_hex_bytesToHex|apply hexToBytes_odd].
Qed.

Lemma prefix_ed25519 (s : string) :
  prefix "ed25519:" s = true -> exists rest, s = "ed25519:" ++ rest.
Proof.
  intros H. apply prefix_correct in H. simpl String.length in H.
  do 8 (destruct s as [|? s]; [discriminate H|]).
  simpl in H. exists s.
  injection H as -> -> -> -> -> -> -> -> _. reflexivity.
Qed.

Lemma no_prefix_in_hex (bytes : list byte) :
  prefix "ed25519:" (bytesToHex bytes) = false.
Proof.
  destruct (prefix "ed25519:" (bytesToHex bytes)) eqn:E; [|reflexivity].
  apply prefix_ed25519 in E. destruct E as [rest E].
  pose proof (lower_hex_bytesToHex bytes) as H. rewrite E in H.
  simpl in H. discriminate H.
Qed.

Section SignatureFacts.
Context {RT : Runtime}.

Hypothesis Ed25519_correct :
  forall seed data,
    Ed25519_verify (Ed25519_public seed) (Ed25519_sign seed data) data = true.

Lemma verify_sign (seed : list byte) (data : string) :
  verify data ("ed25519:" ++ bytesToHex (Ed25519_sign seed (TextEncoder_encode data)))
    (fst (generateKeyPair seed)) = true
  /\ verify data (bytesToHex (Ed25519_sign seed (TextEncoder_encode data)))
       (fst (generateKeyPair seed)) = true.
Proof.
  unfold verify, try_catch. split.
  - rewrite prefix_app.
    rewrite (slice_from_app "ed25519:"), hexToBytes_of_hex. simpl.
    apply Ed25519_correct.
  - rewrite no_prefix_in_hex, hexToBytes_of_hex. simpl.
    apply Ed25519_correct.
Qed.

(** X2.  With an Ed25519 that verifies its own signatures, [sign] with the
    private key of a pair made by [generateKeyPair] succeeds, its result is
    [ed25519:] followed by lower-case hexadecimal digits, and [verify]
    accepts it under the public key of the pair, with the prefix or without
    it; under the private key of the pair [verify] answers [false]. *)
Theorem sign_then_verify (seed : list byte) (data : string) :
  exists signature,
    sign data (snd (generateKeyPair seed)) = Ok signature
    /\ prefix "ed25519:" signature = true
    /\ forallb lower_hex (list_ascii_of_string (slice_from 8 signature)) = true
    /\ verify data signature (fst (generateKeyPair seed)) = true
    /\ verify data (slice_from 8 signature) (fst (generateKeyPair seed)) = true
    /\ verify data signature (snd (generateKeyPair seed)) = false.
Proof.
  eexists. split; [reflexivity|]. split; [apply prefix_app|].
  destruct (verify_sign seed data) as [H1 H2].
  split; [rewrite (slice_from_app "ed25519:"); apply lower_hex_bytesToHex|].
  split; [exact H1|]. split.
  - rewrite (slice_from_app "ed25519:"). exact H2.
  - now apply verify_private_key.
Qed.

(** X3.  [verifySpan] accepts, under the public key of a pair, a span whose
    stored hash is its computed hash and whose signature is what [sign]
    returns for that hash with the private key of the pair. *)
Theorem verifySpan_accepts (seed : list byte) (span : Span.t)
    (confirmed_by : SpanConfirmation.t) :
  Span.confirmed_by span = Some confirmed_by ->
  SpanHash.hash (Span.this span) = calculateSpanHash (spanObject span) ->
  sign (SpanHash.hash (Span.this span)) (snd (generateKeyPair seed))
  = Ok (SpanConfirmation.signature confirmed_by) ->
  verifySpan span (fst (generateKeyPair seed)) = true.
Proof.
  intros Hc Hhash Hsign. unfold verifySpan. rewrite Hc.
  injection Hsign as Hsig. rewrite <- Hsig.
  change ("ed25519:" ++ ?h =? "") with false. cbv iota.
  rewrite <- Hhash, String.eqb_refl. simpl negb. cbv iota.
  apply verify_sign.
Qed.

End SignatureFacts.

Section VerifySpanFacts.
Context {RT : Runtime}.
(** X4.  What [verifySpan] answering [true] means: the span has a
    confirmation with a signature that is not empty, its stored hash is its
    computed hash, the key is a public key that may verify, and [verify]
    accepts the signature over the stored hash. *)
Theorem verifySpan_sound (span : Span.t) (key : CryptoKey.t) :
  verifySpan span key = true ->
  exists confirmed_by,
    Span.confirmed_by span = Some confirmed_by
    /\ SpanConfirmation.signature confirmed_by <> ""
    /\ SpanHash.hash (Span.this span) = calculateSpanHash (spanObject span)
    /\ CryptoKey.type key = public
    /\ has_usage usage_verify key = true
    /\ verify (SpanHash.hash (Span.this span))
         (SpanConfirmation.signature confirmed_by) key = true.
Proof.
  unfold verifySpan. intros H.
  destruct (Span.confirmed_by span) as [c|]; [|discriminate H].
  exists c. split; [reflexivity|].
  destruct (String.eqb_spec (SpanConfirmation.signature c) ""); [discriminate H|].
  split; [assumption|].
  destruct (String.eqb_spec (SpanHash.hash (Span.this span))
              (calculateSpanHash (spanObject span))); [|discriminate H].
  simpl in H. split; [assumption|].
  assert (CryptoKey.type key = public /\ has_usage usage_verify key = true) as [H1 H2].
  { revert H. unfold verify, try_catch.
    unfold subtle_verify.
    destruct (has_usage usage_verify key); [|discriminate].
    destruct (CryptoKey.type key); simpl; try discriminate. auto. }
  auto.
Qed.
End VerifySpanFacts.

Lemma Example_Ed25519_correct (seed data : list byte) :
  @Ed25519_verify Example.runtime (@Ed25519_public Example.runtime seed)
    (@Ed25519_sign Example.runtime seed data) data = true.
Proof. simpl. apply bytes_eqb_refl. Qed.

Lemma sign_then_verify_witness :
  exists signature,
    @sign Example.runtime "blake3:00" (snd (@generateKeyPair Example.runtime [x01; x02; x03])) = Ok signature
    /\ prefix "ed25519:" signature = true
    /\ forallb lower_hex (list_ascii_of_string (slice_from 8 signature)) = true
    /\ @verify Example.runtime "blake3:00" signature (fst (@generateKeyPair Example.runtime [x01; x02; x03])) = true
    /\ @verify Example.runtime "blake3:00" (slice_from 8 signature) (fst (@generateKeyPair Example.runtime [x01; x02; x03])) = true
    /\ @verify Example.runtime "blake3:00" signature (snd (@generateKeyPair Example.runtime [x01; x02; x03])) = false.
Proof.
  exact (@sign_then_verify Example.runtime Example_Ed25519_correct [x01; x02; x03] "blake3:00").
Defined.

Lemma verifySpan_accepts_witness :
  @verifySpan Example.runtime Example.signed_span (fst Example.key_pair) = true.
Proof.
  apply (@verifySpan_accepts Example.runtime Example_Ed25519_correct
           [x01; x02; x03] Example.signed_span
           (Example.confirmation
              (match @sign Example.runtime Example.intact_hash (snd Example.key_pair) with
               | Ok signature => signature
               | Throw _ => ""
               end))).
  - reflexivity.
  - reflexivity.
  - reflexivity.
Defined.

Lemma verifySpan_sound_witness :
  exists confirmed_by,
    Span.confirmed_by Example.signed_span = Some confirmed_by
    /\ SpanConfirmation.signature confirmed_by <> ""
    /\ SpanHash.hash (Span.this Example.signed_span)
       = @calculateSpanHash Example.runtime (Example.span_object Example.signed_span)
    /\ CryptoKey.type (fst Example.key_pair) = public
    /\ has_usage usage_verify (fst Example.key_pair) = true
    /\ @verify Example.runtime (SpanHash.hash (Span.this Example.signed_span))
         (SpanConfirmation.signature confirmed_by) (fst Example.key_pair) = true.
Proof.
  apply (@verifySpan_sound Example.runtime Example.signed_span (fst Example.key_pair)).
  reflexivity.
Defined.

Lemma string_ind4 (P : string -> Prop) :
  P "" ->
  (forall a, P (String a "")) ->
  (forall a b, P (String a (String b ""))) ->
  (forall a b c, P (String a (String b (String c "")))) ->
  (forall a b c d rest, P rest -> P (String a (String b (String c (String d rest))))) ->
  forall s, P s.
Proof.
  intros H0 H1 H2 H3 H4. fix IH 1.
  intros [|a [|b [|c [|d rest]]]];
    [exact H0|apply H1|apply H2|apply H3|apply H4; apply IH].
Qed.

(** A character outside the alphabet makes the decoding fail, wherever it
    is. *)
Lemma decode_groups_invalid (s : string) (c : ascii) :
  In c (list_ascii_of_string s) -> b64_value c = None ->
  decode_groups s = Throw InvalidCharacterError.
Proof.
  intros Hin Hc. revert Hin.
  induction s as [|a|a b|a b d|a b d e rest IH] using string_ind4; simpl.
  - intros [].
  - reflexivity.
  - intros [<-|[<-|[]]]; rewrite ?Hc; [reflexivity|].
    destruct (b64_value a); reflexivity.
  - intros [<-|[<-|[<-|[]]]]; rewrite ?Hc; try reflexivity;
      destruct (b64_value a); try reflexivity;
      destruct (b64_value b); reflexivity.
  - intros [<-|[<-|[<-|[<-|Hin]]]]; rewrite ?Hc; try reflexivity;
      destruct (b64_value a); try reflexivity;
      destruct (b64_value b); try reflexivity;
      destruct (b64_value d); try reflexivity.
    destruct (b64_value e); [|reflexivity].
    rewrite (IH Hin). reflexivity.
Qed.

Lemma In_remove_whitespace (s : string) (c : ascii) :
  In c (list_ascii_of_string s) -> ascii_whitespace c = false ->
  In c (list_ascii_of_string (remove_whitespace s)).
Proof.
  intros Hin Hc. induction s as [|a s IH]; [exact Hin|]. simpl in *.
  destruct Hin as [->|Hin].
  - rewrite Hc. now left.
  - destruct (ascii_whitespace a); [auto|right; auto].
Qed.

Lemma In_remove_padding (s : string) (c : ascii) :
  In c (list_ascii_of_string s) -> c <> pad ->
  In c (list_ascii_of_string (remove_padding s)).
Proof.
  intros Hin Hc. induction s as [|a s IH]; [exact Hin|].
  unfold remove_padding; fold remove_padding.
  destruct (String.eqb_spec (String a s) (String pad "")) as [E|_].
  - injection E as -> ->. destruct Hin as [<-|[]]. congruence.
  - destruct (String.eqb_spec (String a s) (String pad (String pad ""))) as [E|_].
    + injection E as -> ->. destruct Hin as [<-|[<-|[]]]; congruence.
    + simpl. destruct Hin as [->|Hin]; [now left|right; auto].
Qed.

Section MalformedKey.
Context {RT : Runtime}.

(** X5.  A stored credential that holds a character that is neither of the
    base64 alphabet, nor white space, nor [=], is not decrypted: [atob]
    throws an [InvalidCharacterError], and so does [decryptApiKey], before
    any key is derived. *)
Theorem decryptApiKey_invalid_character (encrypted : string) (userId : list N)
    (c : ascii) :
  In c (list_ascii_of_string encrypted) ->
  b64_value c = None -> ascii_whitespace c = false -> c <> pad ->
  atob encrypted = Throw InvalidCharacterError
  /\ decryptApiKey encrypted userId = Throw InvalidCharacterError.
Proof.
  intros Hin Hvalue Hws Hpad.
  assert (atob encrypted = Throw InvalidCharacterError) as Hatob.
  { unfold atob.
    pose proof (@In_remove_whitespace encrypted c Hin Hws) as H1.
    set (data := remove_whitespace encrypted) in *.
    destruct (Nat.eqb (String.length data mod 4) 0).
    - destruct (Nat.eqb (String.length (remove_padding data) mod 4) 1);
        [reflexivity|].
      eapply decode_groups_invalid; [|exact Hvalue].
      now apply In_remove_padding.
    - destruct (Nat.eqb (String.length data mod 4) 1); [reflexivity|].
      eapply decode_groups_invalid; eauto. }
  split; [exact Hatob|].
  unfold decryptApiKey, base64ToBytes. now rewrite Hatob.
Qed.

End MalformedKey.

Lemma decryptApiKey_invalid_character_witness :
  atob "sk-ant-api03" = Throw InvalidCharacterError
  /\ @decryptApiKey Example.runtime "sk-ant-api03" [117; 49] = Throw InvalidCharacterError.
Proof.
  apply (@decryptApiKey_invalid_character Example.runtime "sk-ant-api03" [117; 49] "-"%char).
  - simpl. auto.
  - reflexivity.
  - reflexivity.
  - discriminate.
Defined.

(* ================================================================== *)
(** * Properties: [generateUUIDv7] and [generateShortId] *)
(* ================================================================== *)

Lemma hex_fixed_snoc (k : nat) (n : N) :
  hex_fixed k (n / 16) ++ String (hex_digit (n mod 16)) "" = hex_fixed (S k) n.
Proof.
  induction k as [|k IH].
  - simpl. now rewrite N.div_1_r.
  - change (hex_fixed (S k) (n / 16))
      with (String (hex_digit ((n / 16 / 16 ^ N.of_nat k) mod 16)) (hex_fixed k (n / 16))).
    change (hex_fixed (S (S k)) n)
      with (String (hex_digit ((n / 16 ^ N.of_nat (S k)) mod 16)) (hex_fixed (S k) n)).
    simpl append. rewrite IH. f_equal. f_equal.
    rewrite N.Div0.div_div. rewrite Nat2N.inj_succ, N.pow_succ_r'. reflexivity.
Qed.

Lemma hex_digits_fixed (fuel : nat) :
  forall n acc,
    n < 16 ^ N.of_nat fuel ->
    exists d,
      hex_digits fuel n acc = hex_fixed d n ++ acc
      /\ (d <= fuel)%nat
      /\ n < 16 ^ N.of_nat d
      /\ (fuel <> O -> d <> O)
      /\ (forall k, n < 16 ^ N.of_nat k -> k <> O -> (d <= k)%nat).
Proof.
  induction fuel as [|fuel IH]; intros n acc Hn.
  - exists O. simpl. repeat split; auto; try lia. 
  - simpl hex_digits. destruct (N.ltb_spec n 16) as [Hlt|Hge].
    + exists 1%nat. simpl hex_fixed. rewrite N.div_1_r.
      split; [reflexivity|]. split; [lia|]. split; [simpl; lia|].
      split; [discriminate|]. intros k _ Hk. lia.
    + rewrite Nat2N.inj_succ, N.pow_succ_r' in Hn.
      destruct (IH (n / 16) (String (hex_digit (n mod 16)) acc))
        as [d [Heq [Hd [Hlt [Hnz Hmin]]]]].
      { apply N.Div0.div_lt_upper_bound. lia. }
      exists (S d). rewrite Heq. rewrite <- hex_fixed_snoc.
      rewrite append_assoc. simpl append.
      split; [reflexivity|]. split; [lia|]. split.
      * rewrite Nat2N.inj_succ, N.pow_succ_r'.
        assert (n = 16 * (n / 16) + n mod 16) by (apply N.div_mod'). 
        assert (n mod 16 < 16) by (apply N.mod_lt; lia). lia.
      * split; [lia|]. intros k Hk Hk0.
        destruct k as [|k]; [congruence|].
        rewrite Nat2N.inj_succ, N.pow_succ_r' in Hk.
        destruct k as [|k].
        -- simpl in Hk. lia.
        -- assert (d <= S k)%nat; [|lia]. apply Hmin; [|discriminate].
           apply N.Div0.div_lt_upper_bound. lia.
Qed.

Lemma toString16_fixed (n : N) :
  exists d,
    toString16 n = hex_fixed d n
    /\ d <> O
    /\ n < 16 ^ N.of_nat d
    /\ (forall k, n < 16 ^ N.of_nat k -> k <> O -> (d <= k)%nat).
Proof.
  unfold toString16.
  destruct (@hex_digits_fixed (S (N.to_nat (N.log2 n))) n "")
    as [d [Heq [_ [Hlt [Hnz Hmin]]]]].
  - rewrite Nat2N.inj_succ, N2Nat.id.
    destruct n as [|p]; [reflexivity|].
    apply N.lt_le_trans with (2 ^ N.succ (N.log2 (N.pos p))).
    + apply N.log2_spec. reflexivity.
    + apply N.pow_le_mono_l. lia.
  - exists d. rewrite Heq, append_empty. repeat split; auto.
Qed.

Lemma hex_digit_0 : hex_digit 0 = "0"%char.
Proof. reflexivity. Qed.

Lemma hex_fixed_zeros (j d : nat) (n : N) :
  n < 16 ^ N.of_nat d -> hex_fixed (j + d) n = zeros j ++ hex_fixed d n.
Proof.
  intros Hn. induction j as [|j IH]; [reflexivity|].
  change (hex_fixed (S j + d) n)
    with (String (hex_digit ((n / 16 ^ N.of_nat (j + d)) mod 16)) (hex_fixed (j + d) n)).
  rewrite IH. simpl. f_equal.
  rewrite N.div_small; [reflexivity|].
  apply N.lt_le_trans with (16 ^ N.of_nat d); [exact Hn|].
  apply N.pow_le_mono_r; lia.
Qed.

Lemma length_hex_fixed (k : nat) (n : N) : String.length (hex_fixed k n) = k.
Proof. induction k as [|k IH]; simpl; [reflexivity|now rewrite IH]. Qed.

(** Below [16^12], the padded time stamp is its twelve digits. *)
Lemma padStart0_toString16 (n : N) :
  n < 16 ^ 12 -> padStart0 12 (toString16 n) = hex_fixed 12 n.
Proof.
  intros Hn. destruct (toString16_fixed n) as [d [Heq [Hnz [Hlt Hmin]]]].
  assert (d <= 12)%nat as Hd by (apply Hmin; [exact Hn|discriminate]).
  unfold padStart0. rewrite Heq, length_hex_fixed.
  replace 12%nat with ((12 - d) + d)%nat at 2 by lia.
  now rewrite hex_fixed_zeros.
Qed.

Lemma lower_hex_hex_digit (n : N) : lower_hex (hex_digit n) = true.
Proof.
  destruct n as [|p]; [reflexivity|].
  do 4 (destruct p as [p|p|]; try reflexivity).
Qed.

Lemma lower_hex_hex_fixed (k : nat) (n : N) :
  forallb lower_hex (list_ascii_of_string (hex_fixed k n)) = true.
Proof.
  induction k as [|k IH]; [reflexivity|].
  simpl. now rewrite lower_hex_hex_digit, IH.
Qed.

Lemma lower_hex_zeros (k : nat) :
  forallb lower_hex (list_ascii_of_string (zeros k)) = true.
Proof. induction k as [|k IH]; [reflexivity|]. simpl. exact IH. Qed.

Lemma length_append (a b : string) :
  String.length (a ++ b) = (String.length a + String.length b)%nat.
Proof. induction a as [|c a IH]; simpl; [reflexivity|now rewrite IH]. Qed.

Lemma length_zeros (k : nat) : String.length (zeros k) = k.
Proof. induction k as [|k IH]; simpl; [reflexivity|now rewrite IH]. Qed.

Lemma padStart0_hex (k : nat) (n : N) :
  (k <= String.length (padStart0 k (toString16 n)))%nat
  /\ forallb lower_hex (list_ascii_of_string (padStart0 k (toString16 n))) = true.
Proof.
  unfold padStart0. split.
  - rewrite length_append, length_zeros. lia.
  - destruct (toString16_fixed n) as [d [Heq _]]. rewrite Heq.
    rewrite list_ascii_of_string_app, forallb_app.
    now rewrite lower_hex_zeros, lower_hex_hex_fixed.
Qed.

Lemma length_substring (a n : nat) (s : string) :
  (a + n <= String.length s)%nat -> String.length (substring a n s) = n.
Proof.
  revert a n. induction s as [|c s IH]; intros a n H; simpl in *.
  - destruct a, n; simpl; try reflexivity; lia.
  - destruct a as [|a].
    + destruct n as [|n]; [reflexivity|]. simpl. rewrite IH; [reflexivity|lia].
    + apply IH. lia.
Qed.

Lemma forallb_substring (P : ascii -> bool) (a n : nat) (s : string) :
  forallb P (list_ascii_of_string s) = true ->
  forallb P (list_ascii_of_string (substring a n s)) = true.
Proof.
  revert a n. induction s as [|c s IH]; intros a n H; simpl in *.
  - destruct a, n; reflexivity.
  - apply andb_true_iff in H. destruct H as [Hc Hs].
    destruct a as [|a].
    + destruct n as [|n]; [reflexivity|]. simpl. rewrite Hc. now apply IH.
    + now apply IH.
Qed.

(** X6.  The layout of an identifier of [generateUUIDv7], at any reading of
    the clock and any random bytes: 36 characters, five groups of 8, 4, 4, 4
    and 12 lower-case hexadecimal digits separated by [-], the third group
    starting with the version digit [7].  The call consumes ten random
    bytes. *)
Theorem generateUUIDv7_format (timestamp : N) (rng : Rng.t) :
  exists time_high time_low rand_a rand_b rand_c,
    fst (generateUUIDv7 timestamp rng)
    = time_high ++ "-" ++ time_low ++ "-7" ++ rand_a ++ "-" ++ rand_b ++ "-" ++ rand_c
    /\ String.length time_high = 8%nat
    /\ String.length time_low = 4%nat
    /\ String.length rand_a = 3%nat
    /\ String.length rand_b = 4%nat
    /\ String.length rand_c = 12%nat
    /\ forallb lower_hex
         (list_ascii_of_string (time_high ++ time_low ++ rand_a ++ rand_b ++ rand_c))
       = true
    /\ String.length (fst (generateUUIDv7 timestamp rng)) = 36%nat
    /\ Rng.position (snd (generateUUIDv7 timestamp rng)) = (Rng.position rng + 10)%nat.
Proof.
  unfold generateUUIDv7.
  destruct (padStart0_hex 12 timestamp) as [Hlen Hhex].
  set (timestampHex := padStart0 12 (toString16 timestamp)) in *.
  unfold getRandomValues.
  set (bytes := map (Rng.tape rng) (seq (Rng.position rng) 10)).
  assert (String.length (bytesToHex bytes) = 20%nat) as Hrand
    by (rewrite length_bytesToHex; reflexivity).
  pose proof (lower_hex_bytesToHex bytes) as Hrhex.
  set (randomHex := bytesToHex bytes) in *.
  cbn [fst snd Rng.position].
  exists (slice 0 8 timestampHex), (slice 8 12 timestampHex),
         (slice 0 3 randomHex), (slice 3 7 randomHex), (slice 7 19 randomHex).
  assert (String.length (slice 0 8 timestampHex) = 8%nat) as L1
    by (apply length_substring; simpl; lia).
  assert (String.length (slice 8 12 timestampHex) = 4%nat) as L2
    by (apply length_substring; simpl; lia).
  assert (String.length (slice 0 3 randomHex) = 3%nat) as L3
    by (apply length_substring; simpl; lia).
  assert (String.length (slice 3 7 randomHex) = 4%nat) as L4
    by (apply length_substring; simpl; lia).
  assert (String.length (slice 7 19 randomHex) = 12%nat) as L5
    by (apply length_substring; simpl; lia).
  split; [reflexivity|].
  do 5 (split; [assumption|]).
  split; [|split; [|reflexivity]].
  - rewrite !list_ascii_of_string_app, !forallb_app.
    unfold slice. rewrite !forallb_substring by assumption. reflexivity.
  - rewrite !length_append, L1, L2, L3, L4, L5. reflexivity.
Qed.

Lemma N_of_ascii_hex_digit (n : N) :
  n < 16 -> N_of_ascii (hex_digit n) = if (n <? 10)%N then 48 + n else 87 + n.
Proof.
  intros H.
  destruct n as [|p]; [reflexivity|].
  do 4 (destruct p as [p|p|]; try reflexivity); lia.
Qed.

Lemma compare_hex_digit (a b : N) :
  a < b -> b < 16 -> Ascii.compare (hex_digit a) (hex_digit b) = Lt.
Proof.
  intros Hab Hb. unfold Ascii.compare.
  rewrite !N_of_ascii_hex_digit by lia.
  apply N.compare_lt_iff.
  destruct (N.ltb_spec a 10), (N.ltb_spec b 10); lia.
Qed.

Lemma compare_ascii_refl (c : ascii) : Ascii.compare c c = Eq.
Proof. unfold Ascii.compare. apply N.compare_refl. Qed.

Lemma compare_hex_fixed (k : nat) (n m : N) :
  n mod 16 ^ N.of_nat k < m mod 16 ^ N.of_nat k ->
  String.compare (hex_fixed k n) (hex_fixed k m) = Lt.
Proof.
  induction k as [|k IH]; intros H.
  - simpl in H. rewrite !N.mod_1_r in H. lia.
  - rewrite Nat2N.inj_succ, N.pow_succ_r' in H.
    set (P := 16 ^ N.of_nat k) in *.
    assert (0 < P) as HP by (apply N.neq_0_lt_0, N.pow_nonzero; lia).
    rewrite (N.mul_comm 16 P) in H.
    rewrite !N.Div0.mod_mul_r in H.
    assert (n mod P < P) by (apply N.mod_lt; lia).
    assert (m mod P < P) by (apply N.mod_lt; lia).
    assert ((n / P) mod 16 < 16) by (apply N.mod_lt; lia).
    assert ((m / P) mod 16 < 16) by (apply N.mod_lt; lia).
    simpl hex_fixed. fold P. simpl String.compare.
    destruct (N.lt_trichotomy ((n / P) mod 16) ((m / P) mod 16)) as [Hlt|[Heq|Hgt]].
    + now rewrite compare_hex_digit.
    + rewrite Heq, compare_ascii_refl. apply IH. fold P. nia.
    + exfalso. nia.
Qed.

Lemma compare_app_lt (a b x y : string) :
  String.length a = String.length b ->
  String.compare a b = Lt ->
  String.compare (a ++ x) (b ++ y) = Lt.
Proof.
  revert b. induction a as [|c a IH]; intros [|d b] Hlen H; simpl in *;
    try discriminate.
  destruct (Ascii.compare c d); try discriminate; [|reflexivity].
  apply IH; [congruence|assumption].
Qed.

Lemma compare_app_same (a x y : string) :
  String.compare (a ++ x) (a ++ y) = String.compare x y.
Proof.
  induction a as [|c a IH]; simpl; [reflexivity|].
  now rewrite compare_ascii_refl.
Qed.

Lemma hex_fixed_split (a b : nat) (n : N) :
  hex_fixed (a + b) n = hex_fixed a (n / 16 ^ N.of_nat b) ++ hex_fixed b n.
Proof.
  induction a as [|a IH]; [reflexivity|].
  change (hex_fixed (S a + b) n)
    with (String (hex_digit ((n / 16 ^ N.of_nat (a + b)) mod 16)) (hex_fixed (a + b) n)).
  rewrite IH. simpl. f_equal. f_equal. f_equal.
  rewrite N.Div0.div_div, Nat2N.inj_add, N.pow_add_r. f_equal. lia.
Qed.

Lemma substring_app_left (a b : string) :
  substring 0 (String.length a) (a ++ b) = a.
Proof. induction a as [|c a IH]; simpl; [now destruct b|now rewrite IH]. Qed.

Lemma substring_app_right (a b : string) :
  substring (String.length a) (String.length b) (a ++ b) = b.
Proof. induction a as [|c a IH]; simpl; [apply substring_all|exact IH]. Qed.

Lemma slice_hex_fixed_12 (t : N) :
  slice 0 8 (hex_fixed 12 t) = hex_fixed 8 (t / 16 ^ 4)
  /\ slice 8 12 (hex_fixed 12 t) = hex_fixed 4 t.
Proof.
  change 12%nat with (8 + 4)%nat at 1 3. rewrite hex_fixed_split.
  change (N.of_nat 4) with 4. unfold slice. split.
  - pose proof (substring_app_left (hex_fixed 8 (t / 16 ^ 4)) (hex_fixed 4 t)) as H.
    rewrite length_hex_fixed in H. exact H.
  - pose proof (substring_app_right (hex_fixed 8 (t / 16 ^ 4)) (hex_fixed 4 t)) as H.
    rewrite !length_hex_fixed in H. exact H.
Qed.

(** X7.  Identifiers of [generateUUIDv7] are ordered by time: an identifier
    made at an earlier millisecond is smaller, in the order of strings by
    code units (the order of the keys of the store), than one made at a later
    millisecond, whatever the random bytes are, as long as the clock is below
    [2^48]. *)
Theorem generateUUIDv7_time_ordered (t1 t2 : N) (rng1 rng2 : Rng.t) :
  t1 < t2 -> t2 < 2 ^ 48 ->
  String.ltb (fst (generateUUIDv7 t1 rng1)) (fst (generateUUIDv7 t2 rng2)) = true.
Proof.
  intros Hlt Hmax.
  assert (forall t rng, t < 2 ^ 48 ->
            exists rest,
              fst (generateUUIDv7 t rng)
              = hex_fixed 8 (t / 16 ^ 4) ++ "-" ++ hex_fixed 4 t ++ rest) as Hshape.
  { intros t rng Ht. unfold generateUUIDv7.
    rewrite padStart0_toString16 by exact Ht.
    destruct (getRandomValues 10 rng) as [bytes rng']. cbn [fst].
    eexists. destruct (slice_hex_fixed_12 t) as [-> ->]. reflexivity. }
  destruct (Hshape t1 rng1) as [rest1 ->]; [lia|].
  destruct (Hshape t2 rng2) as [rest2 ->]; [lia|].
  unfold String.ltb.
  assert (t1 / 16 ^ 4 <= t2 / 16 ^ 4) as Hdiv by (apply N.Div0.div_le_mono; lia).
  assert (t2 / 16 ^ 4 < 16 ^ 8) as Hhigh by (apply N.Div0.div_lt_upper_bound; lia).
  destruct (N.eq_dec (t1 / 16 ^ 4) (t2 / 16 ^ 4)) as [Heq|Hneq].
  - rewrite Heq, !compare_app_same.
    rewrite compare_app_lt; [reflexivity|now rewrite !length_hex_fixed|].
    apply compare_hex_fixed. change (N.of_nat 4) with 4.
    rewrite (N.Div0.mod_eq t1), (N.Div0.mod_eq t2), Heq. 
    assert (16 ^ 4 * (t2 / 16 ^ 4) <= t1) by (rewrite <- Heq; apply N.Div0.mul_div_le).
    assert (16 ^ 4 * (t2 / 16 ^ 4) <= t2) by (apply N.Div0.mul_div_le).
    lia.
  - rewrite compare_app_lt; [reflexivity|now rewrite !length_hex_fixed|].
    apply compare_hex_fixed. change (N.of_nat 8) with 8.
    rewrite !N.mod_small by lia. lia.
Qed.

Lemma generateUUIDv7_time_ordered_witness :
  String.ltb (fst (generateUUIDv7 1735689600000 Example.rng))
             (fst (generateUUIDv7 1735689600001 Example.rng)) = true.
Proof.
  apply (@generateUUIDv7_time_ordered 1735689600000 1735689600001 Example.rng Example.rng).
  - reflexivity.
  - reflexivity.
Defined.

(** X8.  [generateShortId] returns three lower-case hexadecimal digits: the
    two digits of the first random byte and the high digit of the second.
    The low half of the second byte and the third byte, which are drawn too,
    are not used. *)
Theorem generateShortId_digits (rng : Rng.t) :
  let b0 := Byte.to_N (Rng.tape rng (Rng.position rng)) in
  let b1 := Byte.to_N (Rng.tape rng (S (Rng.position rng))) in
  fst (generateShortId rng)
  = String (hex_digit (b0 / 16))
      (String (hex_digit (b0 mod 16)) (String (hex_digit (b1 / 16)) ""))
  /\ forallb lower_hex (list_ascii_of_string (fst (generateShortId rng))) = true
  /\ Rng.position (snd (generateShortId rng)) = (Rng.position rng + 3)%nat.
Proof.
  intros b0 b1. split; [reflexivity|]. split; [|reflexivity].
  change (fst (generateShortId rng))
    with (String (hex_digit (b0 / 16))
            (String (hex_digit (b0 mod 16)) (String (hex_digit (b1 / 16)) ""))).
  simpl. now rewrite !lower_hex_hex_digit.
Qed.

Lemma hex_of_byte_toString16 (b : byte) :
  hex_of_byte b = padStart0 2 (toString16 (Byte.to_N b)).
Proof. destruct b; reflexivity. Qed.

(* ================================================================== *)
(** * Properties: [sanitizeName] *)
(* ================================================================== *)

(** Boolean tests anywhere in the hypotheses, as propositions. *)
Ltac tests_to_props :=
  repeat match goal with
  | H : _ |- _ =>
      progress rewrite ?andb_true_iff, ?andb_false_iff, ?orb_true_iff,
        ?orb_false_iff, ?negb_true_iff, ?negb_false_iff, ?N.leb_le, ?N.leb_gt,
        ?N.ltb_lt, ?N.ltb_ge, ?N.eqb_eq, ?N.eqb_neq in H
  end.

Lemma is_dash_eq (c : ascii) : is_dash c = true <-> c = "-"%char.
Proof.
  unfold is_dash. rewrite N.eqb_eq. split.
  - intros H. rewrite <- (ascii_of_N_of_ascii c), H. reflexivity.
  - intros ->. reflexivity.
Qed.

Lemma slug_not_dash (c : ascii) : slug_unit c = true -> is_dash c = false.
Proof.
  unfold slug_unit, is_dash. cbv zeta. intros H. tests_to_props.
  apply N.eqb_neq. lia.
Qed.

Lemma starts_collapse (s : string) :
  starts_with_dash (collapse_dashes s) = starts_with_dash s.
Proof.
  induction s as [|c rest IH]; [reflexivity|]. simpl.
  destruct (is_dash c) eqn:Hc.
  - destruct rest as [|d r]; [simpl; exact Hc|].
    destruct (is_dash d) eqn:Hd.
    + rewrite IH. simpl. exact Hd.
    + simpl. exact Hc.
  - simpl. exact Hc.
Qed.

Lemma no_double_collapse (s : string) : no_double_dash (collapse_dashes s) = true.
Proof.
  induction s as [|c rest IH]; [reflexivity|]. simpl.
  destruct (is_dash c) eqn:Hc.
  - destruct rest as [|d r]; [simpl; now rewrite Hc|].
    destruct (is_dash d) eqn:Hd; [exact IH|].
    change (no_double_dash (String c (collapse_dashes (String d r))))
      with (negb (is_dash c && starts_with_dash (collapse_dashes (String d r)))
            && no_double_dash (collapse_dashes (String d r))).
    rewrite starts_collapse, IH. simpl. now rewrite Hd, Hc.
  - change (no_double_dash (String c (collapse_dashes rest)))
      with (negb (is_dash c && starts_with_dash (collapse_dashes rest))
            && no_double_dash (collapse_dashes rest)).
    now rewrite Hc, IH.
Qed.

Lemma In_collapse (s : string) (c : ascii) :
  In c (list_ascii_of_string (collapse_dashes s)) -> In c (list_ascii_of_string s).
Proof.
  induction s as [|a rest IH]; [auto|]. simpl.
  destruct (is_dash a).
  - destruct rest as [|d r]; [auto|].
    destruct (is_dash d); [intros H; right; now apply IH|].
    intros [H|H]; [now left|right; now apply IH].
  - intros [H|H]; [now left|right; now apply IH].
Qed.

Lemma In_remove_last (s : string) (c : ascii) :
  In c (list_ascii_of_string (remove_last_dash s)) -> In c (list_ascii_of_string s).
Proof.
  induction s as [|a rest IH]; [auto|].
  destruct rest as [|d r].
  - simpl. destruct (is_dash a); simpl; tauto.
  - change (remove_last_dash (String a (String d r)))
      with (String a (remove_last_dash (String d r))).
    intros [H|H]; [now left|right; now apply IH].
Qed.

Lemma In_trim (s : string) (c : ascii) :
  In c (list_ascii_of_string (trim_dashes s)) -> In c (list_ascii_of_string s).
Proof.
  unfold trim_dashes. intros H. apply In_remove_last in H.
  destruct s as [|a rest]; [exact H|]. simpl in *.
  destruct (is_dash a); [now right|exact H].
Qed.

Lemma In_map_units (f : ascii -> ascii) (s : string) (c : ascii) :
  In c (list_ascii_of_string (map_units f s)) ->
  exists a, c = f a.
Proof.
  induction s as [|a rest IH]; [intros []|].
  simpl. intros [H|H]; [now exists a|now apply IH].
Qed.

Lemma no_double_remove_first (s : string) :
  no_double_dash s = true ->
  no_double_dash (remove_first_dash s) = true
  /\ starts_with_dash (remove_first_dash s) = false.
Proof.
  destruct s as [|c rest]; [auto|]. simpl.
  destruct (is_dash c) eqn:Hc; simpl.
  - destruct (starts_with_dash rest); simpl; [discriminate|auto].
  - rewrite Hc. auto.
Qed.

Lemma starts_remove_last (s : string) :
  starts_with_dash s = false -> starts_with_dash (remove_last_dash s) = false.
Proof.
  destruct s as [|c rest]; [auto|]. simpl. intros Hc.
  destruct rest; [now rewrite Hc|exact Hc].
Qed.

Lemma no_double_remove_last (s : string) :
  no_double_dash s = true ->
  no_double_dash (remove_last_dash s) = true
  /\ ends_with_dash (remove_last_dash s) = false.
Proof.
  induction s as [|c rest IH]; [auto|].
  destruct rest as [|d r].
  - simpl. destruct (is_dash c) eqn:Hc; simpl; [auto|]. now rewrite Hc.
  - change (remove_last_dash (String c (String d r)))
      with (String c (remove_last_dash (String d r))).
    change (no_double_dash (String c (String d r)))
      with (negb (is_dash c && is_dash d) && no_double_dash (String d r)).
    intros H. apply andb_true_iff in H. destruct H as [Hcd Hrest].
    destruct (IH Hrest) as [IH1 IH2].
    destruct r as [|e r'].
    + simpl. simpl in Hcd. destruct (is_dash d) eqn:Hd.
      * simpl. rewrite andb_true_r in Hcd.
        destruct (is_dash c); [discriminate|auto].
      * simpl. rewrite Hd, andb_false_r. auto.
    + change (remove_last_dash (String d (String e r')))
        with (String d (remove_last_dash (String e r'))) in *.
      split.
      * change (no_double_dash (String c (String d ?x)))
          with (negb (is_dash c && is_dash d) && no_double_dash (String d x)).
        now rewrite Hcd, IH1.
      * exact IH2.
Qed.

Lemma starts_with_dash_app (p : string) : starts_with_dash ("-" ++ p) = true.
Proof. reflexivity. Qed.

Lemma ends_with_dash_app (p : string) : ends_with_dash (p ++ "-") = true.
Proof.
  induction p as [|c p IH]; [reflexivity|].
  simpl. destruct (p ++ "-") eqn:E; [destruct p; discriminate|exact IH].
Qed.

Lemma no_double_dash_app (p q : string) : no_double_dash (p ++ "--" ++ q) = false.
Proof.
  induction p as [|c p IH]; [reflexivity|].
  change (no_double_dash (String c p ++ "--" ++ q))
    with (negb (is_dash c && starts_with_dash (p ++ "--" ++ q))
          && no_double_dash (p ++ "--" ++ q)).
  rewrite IH. apply andb_false_r.
Qed.

(** What [sanitizeName] returns, in the three predicates. *)
Lemma sanitizeName_shape (name : string) :
  (forall c, In c (list_ascii_of_string (sanitizeName name)) ->
             slug_unit c = true \/ c = "-"%char)
  /\ starts_with_dash (sanitizeName name) = false
  /\ ends_with_dash (sanitizeName name) = false
  /\ no_double_dash (sanitizeName name) = true.
Proof.
  unfold sanitizeName.
  set (s := map_units dash_unless_slug _).
  split.
  - intros c H. apply In_trim, In_collapse in H.
    apply In_map_units in H. destruct H as [a ->].
    unfold dash_unless_slug. destruct (slug_unit a) eqn:E; auto.
  - pose proof (no_double_collapse s) as H.
    unfold trim_dashes.
    destruct (no_double_remove_first _ H) as [H1 H2].
    destruct (no_double_remove_last _ H1) as [H3 H4].
    split; [now apply starts_remove_last|]. split; assumption.
Qed.

(** X9.  The shape of what [sanitizeName] returns, for every name: only
    the characters [a]-[z], [0]-[9] and [-], no [-] at the start, no [-] at
    the end, and no two [-] in a row. *)
Theorem sanitizeName_slug (name : string) :
  (forall c, In c (list_ascii_of_string (sanitizeName name)) ->
             slug_unit c = true \/ c = "-"%char)
  /\ (forall p, sanitizeName name <> "-" ++ p)
  /\ (forall p, sanitizeName name <> p ++ "-")
  /\ (forall p q, sanitizeName name <> p ++ "--" ++ q).
Proof.
  destruct (sanitizeName_shape name) as [H1 [H2 [H3 H4]]].
  split; [exact H1|]. split; [|split].
  - intros p E. rewrite E in H2. discriminate H2.
  - intros p E. rewrite E, ends_with_dash_app in H3. discriminate H3.
  - intros p q E. rewrite E, no_double_dash_app in H4. discriminate H4.
Qed.

Lemma map_units_id (f : ascii -> ascii) (s : string) :
  (forall c, In c (list_ascii_of_string s) -> f c = c) -> map_units f s = s.
Proof.
  induction s as [|a rest IH]; [auto|]. simpl. intros H.
  rewrite (H a) by now left. rewrite IH; [reflexivity|]. auto.
Qed.

Lemma slug_or_dash_fixed (c : ascii) :
  slug_unit c = true \/ c = "-"%char ->
  toLowerCase_unit c = c /\ base_letter c = c /\ dash_unless_slug c = c.
Proof.
  intros [H| ->]; [|repeat split; reflexivity].
  unfold dash_unless_slug. rewrite H.
  unfold toLowerCase_unit, base_letter. unfold slug_unit in H.
  cbv zeta in *. tests_to_props.
  repeat (match goal with
          | |- context [if ?b then _ else _] =>
              let E := fresh "E" in
              destruct b eqn:E; tests_to_props; try (exfalso; lia)
          end).
  auto.
Qed.

Lemma collapse_id (s : string) : no_double_dash s = true -> collapse_dashes s = s.
Proof.
  induction s as [|c rest IH]; [auto|]. simpl. intros H.
  apply andb_true_iff in H. destruct H as [Hc Hrest].
  rewrite (IH Hrest).
  destruct (is_dash c); [|reflexivity].
  destruct rest as [|d r]; [reflexivity|]. simpl in Hc.
  destruct (is_dash d); [discriminate|reflexivity].
Qed.

Lemma remove_last_id (s : string) : ends_with_dash s = false -> remove_last_dash s = s.
Proof.
  induction s as [|c rest IH]; [auto|].
  destruct rest as [|d r].
  - simpl. now intros ->.
  - change (remove_last_dash (String c (String d r)))
      with (String c (remove_last_dash (String d r))).
    intros H. now rewrite IH.
Qed.

Lemma trim_id (s : string) :
  starts_with_dash s = false -> ends_with_dash s = false -> trim_dashes s = s.
Proof.
  intros H1 H2. unfold trim_dashes.
  destruct s as [|c rest]; [reflexivity|]. simpl in H1.
  unfold remove_first_dash. rewrite H1. now apply remove_last_id.
Qed.

Lemma sanitizeName_fixed (s : string) :
  (forall c, In c (list_ascii_of_string s) -> slug_unit c = true \/ c = "-"%char) ->
  starts_with_dash s = false -> ends_with_dash s = false ->
  no_double_dash s = true ->
  sanitizeName s = s.
Proof.
  intros H1 H2 H3 H4. unfold sanitizeName.
  rewrite (@map_units_id toLowerCase_unit s)
    by (intros c Hc; now apply slug_or_dash_fixed, H1).
  rewrite (@map_units_id base_letter s)
    by (intros c Hc; now apply slug_or_dash_fixed, H1).
  rewrite (@map_units_id dash_unless_slug s)
    by (intros c Hc; now apply slug_or_dash_fixed, H1).
  rewrite collapse_id by exact H4. now apply trim_id.
Qed.

(** X10.  [sanitizeName] is idempotent: a sanitized name is sanitized to
    itself. *)
Theorem sanitizeName_idempotent (name : string) :
  sanitizeName (sanitizeName name) = sanitizeName name.
Proof.
  destruct (sanitizeName_shape name) as [H1 [H2 [H3 H4]]].
  now apply sanitizeName_fixed.
Qed.

(* ================================================================== *)
(** * Properties: [detectProvider], [isValidSpan] and the span builders *)
(* ================================================================== *)

Lemma prefix_shorter (a b s : string) :
  prefix (a ++ b) s = true -> prefix a s = true.
Proof.
  revert s. induction a as [|c a IH]; intros s H.
  - now destruct s.
  - destruct s as [|d s]; [discriminate H|]. simpl in *.
    destruct (ascii_dec c d); [now apply IH|discriminate H].
Qed.

Lemma prefix_first (a b : string) (c d : ascii) (s : string) :
  c <> d -> prefix (String c a) s = true -> prefix (String d b) s = false.
Proof.
  intros Hcd H. destruct s as [|e s]; [discriminate H|]. simpl in *.
  destruct (ascii_dec c e) as [<-|]; [|discriminate H].
  destruct (ascii_dec d c); [congruence|reflexivity].
Qed.

(** X11.  What [detectProvider] answers: [openai] exactly for the keys that
    start with [sk-] but not with [sk-ant-] (the test on [sk-proj-] adds
    nothing), [ollama] exactly for the keys that start with [http://] or
    [https://], and [anthropic] for the keys that start with [sk-ant-] and
    for every key of no known form. *)
Theorem detectProvider_cases (apiKey : string) :
  (detectProvider apiKey = openai
   <-> prefix "sk-" apiKey = true /\ prefix "sk-ant-" apiKey = false)
  /\ (detectProvider apiKey = ollama
      <-> prefix "http://" apiKey = true \/ prefix "https://" apiKey = true)
  /\ (detectProvider apiKey = anthropic
      <-> prefix "sk-ant-" apiKey = true
          \/ (prefix "sk-" apiKey = false
              /\ prefix "http://" apiKey = false
              /\ prefix "https://" apiKey = false)).
Proof.
  unfold detectProvider.
  pose proof (@prefix_shorter "sk-" "ant-" apiKey) as Hant.
  pose proof (@prefix_shorter "sk-" "proj-" apiKey) as Hproj.
  assert (prefix "sk-" apiKey = true -> prefix "http://" apiKey = false) as H1
    by (apply prefix_first; discriminate).
  assert (prefix "sk-" apiKey = true -> prefix "https://" apiKey = false) as H2
    by (apply prefix_first; discriminate).
  simpl append in Hant, Hproj.
  destruct (prefix "sk-ant-" apiKey), (prefix "sk-proj-" apiKey),
    (prefix "sk-" apiKey), (prefix "http://" apiKey), (prefix "https://" apiKey);
    simpl; repeat split; intros; try discriminate; try tauto;
    try (specialize (Hant eq_refl)); try (specialize (Hproj eq_refl));
    try (specialize (H1 eq_refl)); try (specialize (H2 eq_refl));
    try discriminate; intuition discriminate.
Qed.

Lemma typeof_string (v : JSValue) :
  (typeof v =? "string") = true -> exists s, v = JStr s.
Proof. destruct v; try discriminate. intros _. now eexists. Qed.

Lemma typeof_prop_string (k : string) (v : JSValue) :
  (typeof (get_prop k v) =? "string") = true ->
  exists props s, v = JObj props /\ lookup k props = JStr s.
Proof.
  intros H. apply typeof_string in H. destruct H as [s H].
  destruct v; try discriminate H. now exists props, s.
Qed.

(** X12.  What [isValidSpan] guarantees: the value is an object whose [id],
    [trace_id], [type] and [entity] are strings, whose [body] is an object
    with a string [action], and whose [this] is an object with a string
    [version]. *)
Theorem isValidSpan_sound (obj : JSValue) :
  isValidSpan obj = true ->
  exists props id trace_id type entity body action this version,
    obj = JObj props
    /\ lookup "id" props = JStr id
    /\ lookup "trace_id" props = JStr trace_id
    /\ lookup "type" props = JStr type
    /\ lookup "entity" props = JStr entity
    /\ lookup "body" props = JObj body
    /\ lookup "action" body = JStr action
    /\ lookup "this" props = JObj this
    /\ lookup "version" this = JStr version.
Proof.
  unfold isValidSpan. intros H.
  repeat (apply andb_true_iff in H; destruct H as [H ?]).
  repeat match goal with
         | H : (typeof (get_prop _ _) =? "string") = true |- _ =>
             apply typeof_prop_string in H; destruct H as [? [? [? ?]]]
         end.
  subst obj.
  repeat match goal with
         | H : JObj _ = JObj _ |- _ => injection H as H; subst
         end.
  simpl get_prop in *.
  repeat match goal with
         | H : lookup ?k ?p = JObj _, H' : context [lookup ?k ?p] |- _ =>
             rewrite H in H'
         end.
  do 9 eexists. repeat split; eassumption.
Qed.

Lemma isValidSpan_sound_witness :
  exists props id trace_id type entity body action this version,
    JObj Example.id_first = JObj props
    /\ lookup "id" props = JStr id
    /\ lookup "trace_id" props = JStr trace_id
    /\ lookup "type" props = JStr type
    /\ lookup "entity" props = JStr entity
    /\ lookup "body" props = JObj body
    /\ lookup "action" body = JStr action
    /\ lookup "this" props = JObj this
    /\ lookup "version" this = JStr version.
Proof.
  apply (@isValidSpan_sound (JObj Example.id_first)). reflexivity.
Defined.

(** X13.  [isValidSpan] looks at the six properties [id], [trace_id],
    [type], [entity], [body] and [this] only: setting any other property of
    the object, [started_at] for one, to any value leaves its answer as it
    was. *)
Theorem isValidSpan_other_property (k : string) (v : JSValue) (props : JSObject) :
  k <> "id" -> k <> "trace_id" -> k <> "type" -> k <> "entity" ->
  k <> "body" -> k <> "this" ->
  isValidSpan (JObj (set_prop k v props)) = isValidSpan (JObj props).
Proof.
  intros. unfold isValidSpan. simpl.
  rewrite !lookup_set_prop_other by congruence. reflexivity.
Qed.

Lemma isValidSpan_other_property_witness :
  isValidSpan (JObj (set_prop "started_at" JUndefined Example.id_first))
  = isValidSpan (JObj Example.id_first).
Proof.
  apply (@isValidSpan_other_property "started_at" JUndefined Example.id_first);
    discriminate.
Defined.

(** X14.  The spans of the three builders [createContractSpan],
    [createObligationSpan] and [createUserRegistrationSpan] all pass
    [isValidSpan], carry an empty hash and no confirmation, and start at the
    reading [now] of the clock.  A contract span opens the trace
    [contract-<uuid>], whose identifier is drawn first, and takes the
    identifier drawn second as its [id]; an obligation span is put in the
    given trace under the given parent; both have the entity [minicontrato].
    A registration span is put in the trace [onboarding-<userId>] with the
    entity [user]. *)
Theorem span_builders_valid (contractData obligationData : JSObject)
    (userId userName traceId parentId now : string) (t1 t2 : N) (rng : Rng.t) :
  let contract := fst (createContractSpan contractData userId now t1 t2 rng) in
  let obligation := fst (createObligationSpan traceId parentId obligationData now t1 rng) in
  let registration := fst (createUserRegistrationSpan userId userName now t1 rng) in
  (forall span, In span [contract; obligation; registration] ->
     isValidSpan (JObj span) = true
     /\ get_prop "hash" (lookup "this" span) = JStr ""
     /\ lookup "confirmed_by" span = JUndefined
     /\ lookup "started_at" span = JStr now)
  /\ lookup "id" contract = JStr (fst (generateUUIDv7 t2 (snd (generateUUIDv7 t1 rng))))
  /\ lookup "trace_id" contract = JStr ("contract-" ++ fst (generateUUIDv7 t1 rng))
  /\ lookup "entity" contract = JStr "minicontrato"
  /\ lookup "trace_id" obligation = JStr traceId
  /\ lookup "parent_id" obligation = JStr parentId
  /\ lookup "entity" obligation = JStr "minicontrato"
  /\ lookup "trace_id" registration = JStr ("onboarding-" ++ userId)
  /\ lookup "entity" registration = JStr "user".
Proof.
  cbv zeta.
  unfold createContractSpan, createObligationSpan, createUserRegistrationSpan.
  destruct (generateUUIDv7 t1 rng) as [uuid1 rng1]. cbn [fst snd].
  destruct (generateUUIDv7 t2 rng1) as [uuid2 rng2]. cbn [fst snd].
  split; [|repeat split; reflexivity].
  intros span [<-|[<-|[<-|[]]]]; repeat split; reflexivity.
Qed.

(* ================================================================== *)
(** * Properties: the regular expression of the fenced blocks *)
(* ================================================================== *)

Lemma prefix_backtick (p s : string) (c : ascii) :
  is_backtick c = false -> prefix (String "`" p) (String c s) = false.
Proof.
  intros H.
  change (prefix (String "`" p) (String c s))
    with (if ascii_dec "`" c then prefix p s else false).
  destruct (ascii_dec "`" c) as [<-|]; [discriminate H|reflexivity].
Qed.

Lemma space_not_backtick (c : ascii) : regex_space c = true -> is_backtick c = false.
Proof.
  unfold regex_space, is_space, is_backtick. cbv zeta. intros H.
  apply N.eqb_neq. intros E. rewrite E in H. discriminate H.
Qed.

Lemma closing_eq (s : string) :
  closing s
  = if prefix fence s then Some 3%nat
    else match s with
         | String c rest =>
             if regex_space c then option_map S (closing rest) else None
         | EmptyString => None
         end.
Proof. destruct s; reflexivity. Qed.

Lemma capture_eq (s : string) :
  capture s
  = match closing s with
    | Some n => Some (EmptyString, n)
    | None =>
        match s with
        | String c rest =>
            match capture rest with
            | Some (text, n) => Some (String c text, S n)
            | None => None
            end
        | EmptyString => None
        end
    end.
Proof. destruct s; reflexivity. Qed.

(** The closing fence after white space. *)
Lemma closing_spaces (ws after : string) :
  all_spaces ws = true ->
  closing (ws ++ fence ++ after) = Some (String.length ws + 3)%nat.
Proof.
  unfold all_spaces. induction ws as [|c ws IH]; intros H.
  - change ("" ++ fence ++ after) with (fence ++ after).
    rewrite closing_eq, prefix_app. reflexivity.
  - simpl in H. apply andb_true_iff in H. destruct H as [Hc Hws].
    change (String c ws ++ fence ++ after) with (String c (ws ++ fence ++ after)).
    rewrite closing_eq.
    unfold fence at 1. rewrite prefix_backtick by now apply space_not_backtick.
    rewrite Hc, IH by exact Hws. reflexivity.
Qed.

(** No closing fence starts inside a text without backtick that does not end
    with white space. *)
Lemma closing_inside (text tail : string) :
  text <> "" -> no_backtick text = true -> ends_with_space text = false ->
  closing (text ++ tail) = None.
Proof.
  unfold no_backtick. induction text as [|c u IH]; intros Hne Hbt Hend; [congruence|].
  simpl in Hbt. apply andb_true_iff in Hbt. destruct Hbt as [Hc Hu].
  apply negb_true_iff in Hc.
  change (String c u ++ tail) with (String c (u ++ tail)).
  rewrite closing_eq.
  unfold fence at 1. rewrite prefix_backtick by exact Hc.
  destruct (regex_space c) eqn:Hs; [|reflexivity].
  destruct u as [|d u']; [simpl in Hend; congruence|].
  rewrite IH; [reflexivity|discriminate|exact Hu|exact Hend].
Qed.

Lemma capture_text (text ws after : string) :
  no_backtick text = true -> ends_with_space text = false ->
  all_spaces ws = true ->
  capture (text ++ ws ++ fence ++ after)
  = Some (text, (String.length text + String.length ws + 3)%nat).
Proof.
  intros Hbt Hend Hws. induction text as [|c u IH].
  - change ("" ++ ws ++ fence ++ after) with (ws ++ fence ++ after).
    rewrite capture_eq, closing_spaces by exact Hws. reflexivity.
  - assert (closing (String c u ++ ws ++ fence ++ after) = None) as Hnone
      by (apply closing_inside; [discriminate|exact Hbt|exact Hend]).
    rewrite capture_eq, Hnone.
    change (String c u ++ ws ++ fence ++ after)
      with (String c (u ++ ws ++ fence ++ after)).
    cbv beta iota. rewrite IH.
    + reflexivity.
    + unfold no_backtick in *. simpl in Hbt.
      apply andb_true_iff in Hbt. tauto.
    + destruct u; [reflexivity|exact Hend].
Qed.

Lemma skip_spaces_app (ws s : string) :
  all_spaces ws = true -> starts_with_space s = false ->
  skip_spaces (ws ++ s) = s.
Proof.
  unfold all_spaces. induction ws as [|c ws IH]; intros Hws Hs.
  - simpl. destruct s as [|d s]; [reflexivity|]. simpl in *. now rewrite Hs.
  - simpl in Hws. apply andb_true_iff in Hws. destruct Hws as [Hc Hws].
    simpl. rewrite Hc. now apply IH.
Qed.

Lemma matchAll_from_skip (a b : string) :
  matchAll_from (String.length a) (a ++ b) = matchAll_from 0 b.
Proof.
  induction a as [|c a IH]; [reflexivity|]. simpl. exact IH.
Qed.

Lemma matchAll_from_match (s text : string) (n : nat) :
  match_here s = Some (text, n) ->
  matchAll_from 0 s = text :: matchAll_from (n - 1) (drop 1 s).
Proof.
  intros H. destruct s as [|c rest]; [discriminate H|].
  unfold matchAll_from; fold matchAll_from. now rewrite H.
Qed.

Lemma matchAll_from_prose (before s : string) :
  no_backtick before = true ->
  matchAll_from 0 (before ++ s) = matchAll_from 0 s.
Proof.
  unfold no_backtick. induction before as [|c b IH]; intros H; [reflexivity|].
  simpl in H. apply andb_true_iff in H. destruct H as [Hc Hb].
  apply negb_true_iff in Hc.
  simpl append. unfold matchAll_from; fold matchAll_from.
  unfold match_here. rewrite prefix_backtick by exact Hc.
  now apply IH.
Qed.

Lemma starts_with_space_app (text tail : string) :
  starts_with_space text = false -> starts_with_space tail = false ->
  starts_with_space (text ++ tail) = false.
Proof. destruct text; simpl; auto. Qed.

Lemma match_here_block (ws1 text ws2 after : string) :
  all_spaces ws1 = true -> all_spaces ws2 = true ->
  no_backtick text = true ->
  starts_with_space text = false -> ends_with_space text = false ->
  match_here ("```json" ++ ws1 ++ text ++ ws2 ++ fence ++ after)
  = Some (text,
          String.length ("```json" ++ ws1 ++ text ++ ws2 ++ fence)).
Proof.
  intros H1 H2 Hbt Hstart Hend. unfold match_here.
  rewrite prefix_app.
  change (drop 7 ("```json" ++ ?s)) with s.
  assert (skip_spaces (ws1 ++ text ++ ws2 ++ fence ++ after)
          = match text with
            | EmptyString => fence ++ after
            | String _ _ => text ++ ws2 ++ fence ++ after
            end) as Hskip.
  { destruct text as [|c u].
    - change (ws1 ++ "" ++ ws2 ++ fence ++ after)
        with (ws1 ++ ws2 ++ fence ++ after).
      rewrite <- (append_assoc ws1 ws2 (fence ++ after)).
      apply skip_spaces_app; [|reflexivity].
      unfold all_spaces in *.
      now rewrite list_ascii_of_string_app, forallb_app, H1, H2.
    - apply skip_spaces_app; [exact H1|exact Hstart]. }
  rewrite Hskip.
  destruct text as [|c u].
  - pose proof (@capture_text "" "" after eq_refl eq_refl eq_refl) as Hc.
    change ("" ++ "" ++ fence ++ after) with (fence ++ after) in Hc.
    rewrite Hc. f_equal. f_equal.
    rewrite !length_append. simpl. lia.
  - rewrite capture_text by assumption. f_equal. f_equal.
    rewrite !length_append. simpl. lia.
Qed.

Section FencedBlock.
Context {RT : Runtime}.

(** X15.  A reply in the format asked of the model: prose without
    backtick, a fence tagged [json], white space, a text without backtick that
    neither starts nor ends with white space, white space, the closing fence,
    and anything after.  The regular expression captures exactly the text,
    and the search goes on after the closing fence; [extractSpansFromResponse]
    returns what the text parses to, followed by what the blocks after it
    give. *)
Theorem extractSpansFromResponse_fenced_block
    (before ws1 text ws2 after : string) :
  no_backtick before = true ->
  all_spaces ws1 = true ->
  no_backtick text = true ->
  starts_with_space text = false ->
  ends_with_space text = false ->
  all_spaces ws2 = true ->
  let response := before ++ "```json" ++ ws1 ++ text ++ ws2 ++ "```" ++ after in
  matchAll response = text :: matchAll after
  /\ extractSpansFromResponse response
     = (parsed_spans text ++ flat_map parsed_spans (matchAll after))%list.
Proof.
  intros Hb H1 Hbt Hstart Hend H2 response.
  assert (matchAll response = text :: matchAll after) as Hblocks.
  { unfold matchAll, response. rewrite matchAll_from_prose by exact Hb.
    change ("```" ++ after) with (fence ++ after).
    rewrite (matchAll_from_match _
               (@match_here_block ws1 text ws2 after H1 H2 Hbt Hstart Hend)).
    f_equal.
    assert (drop 1 ("```json" ++ ws1 ++ text ++ ws2 ++ fence ++ after)
            = ("``json" ++ ws1 ++ text ++ ws2 ++ fence) ++ after) as ->
      by (rewrite !append_assoc; reflexivity).
    assert ((String.length ("```json" ++ ws1 ++ text ++ ws2 ++ fence) - 1)%nat
            = String.length ("``json" ++ ws1 ++ text ++ ws2 ++ fence)) as ->
      by (simpl; lia).
    apply matchAll_from_skip. }
  split; [exact Hblocks|].
  unfold extractSpansFromResponse. rewrite Hblocks.
  cbn [length Nat.eqb]. rewrite fold_blocks. reflexivity.
Qed.

End FencedBlock.

Lemma extractSpansFromResponse_fenced_block_witness :
  let response :=
    "Segue o contrato:" ++ Example.newline ++ "```json" ++ Example.newline
    ++ Example.two_span_block ++ Example.newline ++ "```" ++ Example.newline in
  matchAll response = Example.two_span_block :: matchAll Example.newline
  /\ @extractSpansFromResponse Example.runtime response
     = (@parsed_spans Example.runtime Example.two_span_block
        ++ flat_map (@parsed_spans Example.runtime) (matchAll Example.newline))%list.
Proof.
  apply (@extractSpansFromResponse_fenced_block Example.runtime
           ("Segue o contrato:" ++ Example.newline) Example.newline
           Example.two_span_block Example.newline Example.newline);
    reflexivity.
Defined.

(* ================================================================== *)
(** * Properties: the order and the limit of [querySpans] *)
(* ================================================================== *)

Section SortedFacts.
Variable A : Type.
Variable cmp : A -> A -> comparison.

Hypothesis cmp_antisym : forall a b, cmp a b = Gt -> cmp b a <> Gt.
Hypothesis cmp_trans :
  forall a b c, cmp a b <> Gt -> cmp b c <> Gt -> cmp a c <> Gt.

Lemma insert_sorted_sorted (x : A) (l : list A) :
  StronglySorted (fun a b => cmp a b <> Gt) l ->
  StronglySorted (fun a b => cmp a b <> Gt) (insert_sorted cmp x l).
Proof.
  induction l as [|y rest IH]; intros Hs; simpl.
  - constructor; constructor.
  - apply StronglySorted_inv in Hs. destruct Hs as [Hrest Hy].
    destruct (cmp y x) eqn:E.
    + constructor; [now apply IH|].
      apply Forall_forall. intros w Hw. apply In_insert_sorted in Hw.
      destruct Hw as [->|Hw]; [congruence|].
      rewrite Forall_forall in Hy. now apply Hy.
    + constructor; [now apply IH|].
      apply Forall_forall. intros w Hw. apply In_insert_sorted in Hw.
      destruct Hw as [->|Hw]; [congruence|].
      rewrite Forall_forall in Hy. now apply Hy.
    + constructor; [now constructor|].
      constructor; [now apply cmp_antisym|].
      apply Forall_forall. intros z Hz. rewrite Forall_forall in Hy.
      apply cmp_trans with y; [now apply cmp_antisym|now apply Hy].
Qed.

Lemma sort_sorted (l : list A) :
  StronglySorted (fun a b => cmp a b <> Gt) (sort cmp l).
Proof.
  unfold sort.
  assert (forall acc,
            StronglySorted (fun a b => cmp a b <> Gt) acc ->
            StronglySorted (fun a b => cmp a b <> Gt)
              (fold_left (fun acc x => insert_sorted cmp x acc) l acc)) as H.
  { induction l as [|x rest IH]; intros acc Hacc; simpl; [exact Hacc|].
    apply IH. now apply insert_sorted_sorted. }
  apply H. constructor.
Qed.

End SortedFacts.

Lemma In_firstn (A : Type) (n : nat) (l : list A) (y : A) :
  In y (firstn n l) -> In y l.
Proof.
  revert n. induction l as [|x rest IH]; intros [|n]; simpl; try tauto.
  intros [H|H]; [now left|right; eauto].
Qed.

Lemma StronglySorted_firstn (A : Type) (R : A -> A -> Prop) (n : nat) (l : list A) :
  StronglySorted R l -> StronglySorted R (firstn n l).
Proof.
  revert n. induction l as [|x rest IH]; intros n Hs.
  - destruct n; constructor.
  - destruct n as [|n]; [constructor|]. simpl.
    apply StronglySorted_inv in Hs. destruct Hs as [Hrest Hx].
    constructor; [now apply IH|].
    apply Forall_forall. intros y Hy. rewrite Forall_forall in Hx.
    apply Hx. eapply In_firstn; eauto.
Qed.

Lemma StronglySorted_nth_error (A : Type) (R : A -> A -> Prop) (l : list A) :
  StronglySorted R l ->
  forall i j a b,
    (i < j)%nat -> nth_error l i = Some a -> nth_error l j = Some b -> R a b.
Proof.
  induction 1 as [|x rest Hrest IH Hx]; intros i j a b Hij Ha Hb.
  - destruct i; discriminate Ha.
  - destruct j as [|j]; [lia|]. simpl in Hb.
    destruct i as [|i].
    + simpl in Ha. injection Ha as <-. rewrite Forall_forall in Hx.
      apply Hx. eapply nth_error_In; eauto.
    + simpl in Ha. apply (IH i j); auto. lia.
Qed.

Section NewestFirst.
Context {RT : Runtime}.

Hypothesis localeCompare_antisym :
  forall a b, localeCompare a b = Gt -> localeCompare b a <> Gt.
Hypothesis localeCompare_trans :
  forall a b c,
    localeCompare a b <> Gt -> localeCompare b c <> Gt -> localeCompare a c <> Gt.

Lemma slice_to_sorted (A : Type) (R : A -> A -> Prop) (n : Z) (l : list A) :
  StronglySorted R l -> StronglySorted R (slice_to n l).
Proof.
  intros H. unfold slice_to. destruct (n <? 0)%Z; now apply StronglySorted_firstn.
Qed.

(** X16.  [querySpans] returns the newest span first: with a
    [localeCompare] that is antisymmetric and transitive, no span of the
    result comes after a span that started earlier than it, whatever the
    filter and the limit are. *)
Theorem querySpans_newest_first (filter : SpanFilter.t) (db : Database.t)
    (i j : nat) (a b : Span.t) :
  (i < j)%nat ->
  nth_error (querySpans filter db) i = Some a ->
  nth_error (querySpans filter db) j = Some b ->
  localeCompare (Span.started_at b) (Span.started_at a) <> Gt.
Proof.
  intros Hij Ha Hb.
  assert (StronglySorted
            (fun a b => localeCompare (Span.started_at b) (Span.started_at a) <> Gt)
            (querySpans filter db)) as Hsorted.
  { unfold querySpans.
    match goal with
    | |- context [sort ?c ?l] =>
        pose proof (@sort_sorted _ c
                      (fun x y => localeCompare_antisym _ _)
                      (fun x y z H1 H2 => localeCompare_trans _ _ _ H2 H1) l) as Hs
    end.
    cbv beta in Hs.
    destruct (SpanFilter.limit filter) as [limit|]; [|exact Hs].
    destruct (negb (limit =? 0)%Z); [|exact Hs].
    now apply slice_to_sorted. }
  exact (StronglySorted_nth_error Hsorted Hij Ha Hb).
Qed.

(** X17.  [getAllContracts] returns the records of the store of contracts,
    all of them and nothing else, the most recently created first (for a
    [localeCompare] that is antisymmetric and transitive). *)
Theorem getAllContracts_newest_first (db : Database.t) :
  (forall contract,
     In contract (getAllContracts db) <-> In contract (Database.contracts db))
  /\ length (getAllContracts db) = length (Database.contracts db)
  /\ (forall i j a b,
        (i < j)%nat ->
        nth_error (getAllContracts db) i = Some a ->
        nth_error (getAllContracts db) j = Some b ->
        localeCompare (Contract.created_at b) (Contract.created_at a) <> Gt).
Proof.
  unfold getAllContracts. split; [intros c; apply In_sort|].
  split; [apply length_sort|].
  intros i j a b Hij Ha Hb.
  match goal with
  | _ : nth_error (sort ?c ?l) _ = _ |- _ =>
      pose proof (@sort_sorted _ c
                    (fun x y => localeCompare_antisym _ _)
                    (fun x y z H1 H2 => localeCompare_trans _ _ _ H2 H1) l) as Hs
  end.
  exact (StronglySorted_nth_error Hs Hij Ha Hb).
Qed.

End NewestFirst.

Lemma compare_ascii_le_trans (a b c : ascii) :
  Ascii.compare a b <> Gt -> Ascii.compare b c <> Gt -> Ascii.compare a c <> Gt.
Proof.
  unfold Ascii.compare. rewrite !N.compare_gt_iff. lia.
Qed.

Lemma compare_ascii_eq (a b : ascii) : Ascii.compare a b = Eq -> a = b.
Proof.
  unfold Ascii.compare. intros H. apply N.compare_eq in H.
  rewrite <- (ascii_N_embedding a), <- (ascii_N_embedding b). now rewrite H.
Qed.

Lemma String_compare_le_trans (a b c : string) :
  String.compare a b <> Gt -> String.compare b c <> Gt -> String.compare a c <> Gt.
Proof.
  revert b c. induction a as [|x a IH]; intros [|y b] [|z c]; simpl;
    try congruence.
  destruct (Ascii.compare x y) eqn:Exy; try congruence;
    destruct (Ascii.compare y z) eqn:Eyz; try congruence.
  - apply compare_ascii_eq in Exy, Eyz. subst.
    rewrite compare_ascii_refl. apply IH.
  - apply compare_ascii_eq in Exy. subst. now rewrite Eyz.
  - apply compare_ascii_eq in Eyz. subst. now rewrite Exy.
  - intros _ _.
    assert (Ascii.compare x z = Lt) as ->; [|discriminate].
    unfold Ascii.compare in *. rewrite N.compare_lt_iff in *. lia.
Qed.

Lemma String_compare_antisym_Gt (a b : string) :
  String.compare a b = Gt -> String.compare b a <> Gt.
Proof.
  intros H. rewrite String.compare_antisym, H. discriminate.
Qed.

Lemma querySpans_newest_first_witness :
  @localeCompare Example.runtime
    (Span.started_at Example.created_span) (Span.started_at Example.cancelled_span)
  <> Gt.
Proof.
  apply (@querySpans_newest_first Example.runtime
           String_compare_antisym_Gt String_compare_le_trans
           SpanFilter.empty Example.two_spans 0%nat 1%nat
           Example.cancelled_span Example.created_span).
  - lia.
  - reflexivity.
  - reflexivity.
Defined.

Lemma getAllContracts_newest_first_witness :
  (forall contract,
     In contract (@getAllContracts Example.runtime Example.signed_ledger)
     <-> In contract (Database.contracts Example.signed_ledger))
  /\ length (@getAllContracts Example.runtime Example.signed_ledger)
     = length (Database.contracts Example.signed_ledger)
  /\ (forall i j a b,
        (i < j)%nat ->
        nth_error (@getAllContracts Example.runtime Example.signed_ledger) i = Some a ->
        nth_error (@getAllContracts Example.runtime Example.signed_ledger) j = Some b ->
        @localeCompare Example.runtime (Contract.created_at b) (Contract.created_at a)
        <> Gt).
Proof.
  exact (@getAllContracts_newest_first Example.runtime
           String_compare_antisym_Gt String_compare_le_trans Example.signed_ledger).
Defined.

Section LimitFacts.
Context {RT : Runtime}.

(** X18.  The [limit] of [querySpans]: a limit of [0] is no limit; a
    positive limit [n] keeps the first [n] spans of the unlimited result, so
    the [n] newest ones, or all if there are fewer; a negative limit drops
    that many spans from the end. *)
Theorem querySpans_limit (trace_id type entity user_id from to : option string)
    (db : Database.t) :
  let query := SpanFilter.mk trace_id type entity user_id from to in
  querySpans (query (Some 0%Z)) db = querySpans (query None) db
  /\ (forall n,
        (0 < n)%Z ->
        querySpans (query (Some n)) db
        = firstn (Z.to_nat n) (querySpans (query None) db)
        /\ length (querySpans (query (Some n)) db)
           = Nat.min (Z.to_nat n) (length (querySpans (query None) db)))
  /\ (forall n,
        (n < 0)%Z ->
        querySpans (query (Some n)) db
        = firstn (length (querySpans (query None) db) - Z.to_nat (- n))
            (querySpans (query None) db)).
Proof.
  intros query. split; [reflexivity|]. split.
  - intros n Hn.
    assert (querySpans (query (Some n)) db
            = firstn (Z.to_nat n) (querySpans (query None) db)) as Heq.
    { unfold querySpans, query. cbn [SpanFilter.limit SpanFilter.trace_id
        SpanFilter.type SpanFilter.entity SpanFilter.user_id SpanFilter.from
        SpanFilter.to].
      destruct (Z.eqb_spec n 0); [lia|]. simpl negb. cbv iota.
      unfold slice_to. destruct (Z.ltb_spec n 0); [lia|reflexivity]. }
    split; [exact Heq|]. rewrite Heq. apply length_firstn.
  - intros n Hn.
    unfold querySpans, query. cbn [SpanFilter.limit SpanFilter.trace_id
      SpanFilter.type SpanFilter.entity SpanFilter.user_id SpanFilter.from
      SpanFilter.to].
    destruct (Z.eqb_spec n 0); [lia|]. simpl negb. cbv iota.
    unfold slice_to. destruct (Z.ltb_spec n 0); [|lia].
    f_equal. lia.
Qed.

(** X19.  What [querySpans] selects.  Every span it returns is a stored
    span that passes the one index the code has chosen (the first of
    [trace_id], [type], [entity] that is a non-empty string; the later ones
    are not looked at) and the filters [user_id], [from] and [to] that are
    given, whatever the [limit].  Without a limit, or with limit [0], every
    such span is returned.  In particular [getSpansByTrace] with the empty
    string as trace returns every span of the ledger, of whatever trace. *)
Theorem querySpans_selects (filter : SpanFilter.t) (db : Database.t) (s : Span.t) :
  let selected :=
    In s (Database.spans db)
    /\ match given (SpanFilter.trace_id filter) with
       | Some trace_id => Span.trace_id s = trace_id
       | None =>
           match given (SpanFilter.type filter) with
           | Some type => Span.type s = type
           | None =>
               match given (SpanFilter.entity filter) with
               | Some entity => Span.entity s = entity
               | None => True
               end
           end
       end
    /\ match given (SpanFilter.user_id filter) with
       | Some user_id =>
           exists confirmed_by,
             Span.confirmed_by s = Some confirmed_by
             /\ SpanConfirmation.signer_id confirmed_by = user_id
       | None => True
       end
    /\ match given (SpanFilter.from filter) with
       | Some from => String.leb from (Span.started_at s) = true
       | None => True
       end
    /\ match given (SpanFilter.to filter) with
       | Some to => String.leb (Span.started_at s) to = true
       | None => True
       end in
  (In s (querySpans filter db) -> selected)
  /\ (SpanFilter.limit filter = None \/ SpanFilter.limit filter = Some 0%Z ->
      selected -> In s (querySpans filter db))
  /\ (In s (getSpansByTrace "" db) <-> In s (Database.spans db))
  /\ length (getSpansByTrace "" db) = length (Database.spans db).
Proof.
  intros selected.
  set (unlimited :=
         SpanFilter.mk (SpanFilter.trace_id filter) (SpanFilter.type filter)
           (SpanFilter.entity filter) (SpanFilter.user_id filter)
           (SpanFilter.from filter) (SpanFilter.to filter) None).
  assert (In s (querySpans unlimited db) <-> selected) as Hall.
  { rewrite In_querySpans by reflexivity. subst selected unlimited.
    cbn [SpanFilter.trace_id SpanFilter.type SpanFilter.entity SpanFilter.user_id
         SpanFilter.from SpanFilter.to].
    unfold by_user.
    destruct (given (SpanFilter.user_id filter)) as [user_id|]; [|tauto].
    destruct (Span.confirmed_by s) as [c|]; simpl.
    - split.
      + intros [H1 [H2 [H3 H4]]]. split; [exact H1|]. split; [exact H2|].
        split; [|exact H4]. exists c. split; [reflexivity|]. now injection H3.
      + intros [H1 [H2 [[c' [Hc Hu]] H4]]]. injection Hc as <-.
        split; [exact H1|]. split; [exact H2|]. split; [|exact H4]. now rewrite Hu.
    - split.
      + intros [_ [_ [H _]]]. discriminate H.
      + intros [_ [_ [[c' [Hc _]] _]]]. discriminate Hc. }
  assert (querySpans filter db
          = match SpanFilter.limit filter with
            | Some limit =>
                if negb (limit =? 0)%Z
                then slice_to limit (querySpans unlimited db)
                else querySpans unlimited db
            | None => querySpans unlimited db
            end) as Hlimit by reflexivity.
  split; [|split; [|split]].
  - intros H. apply Hall. rewrite Hlimit in H.
    destruct (SpanFilter.limit filter) as [limit|]; [|exact H].
    destruct (negb (limit =? 0)%Z); [|exact H].
    unfold slice_to in H.
    destruct (limit <? 0)%Z; eapply In_firstn; exact H.
  - intros Hno H. apply Hall in H. rewrite Hlimit.
    destruct Hno as [-> | ->]; exact H.
  - unfold getSpansByTrace. rewrite In_querySpans by reflexivity.
    simpl. tauto.
  - unfold getSpansByTrace, querySpans. simpl. apply length_sort.
Qed.

End LimitFacts.

Section QueryFilters.
Context {RT : Runtime}.

Hypothesis localeCompare_antisym :
  forall a b, localeCompare a b = Gt -> localeCompare b a <> Gt.
Hypothesis localeCompare_trans :
  forall a b c,
    localeCompare a b <> Gt -> localeCompare b c <> Gt -> localeCompare a c <> Gt.

(** C4, as the code has it.  [querySpans] reads one of the three indices:
    that of [trace_id] when the filter gives one, else that of [type], else
    that of [entity], else the whole store; the fields of the three that come
    after the one taken are not applied.  Of the spans so read it keeps those
    that pass each of [user_id] (the signer of the confirmation), [from] and
    [to] (on [started_at]) that the filter gives.  Without a limit the
    result is exactly those spans, the newest first (for a [localeCompare]
    that is antisymmetric and transitive); a limit of [0] is no limit, and a
    positive limit [n] keeps the first [n] spans of that result: it cuts
    after the filters and the sort. *)
Theorem querySpans_filters (filter : SpanFilter.t) (db : Database.t) :
  let unlimited :=
    SpanFilter.mk (SpanFilter.trace_id filter) (SpanFilter.type filter)
      (SpanFilter.entity filter) (SpanFilter.user_id filter)
      (SpanFilter.from filter) (SpanFilter.to filter) None in
  let selected s :=
    In s (Database.spans db)
    /\ match given (SpanFilter.trace_id filter) with
       | Some trace_id => Span.trace_id s = trace_id
       | None =>
           match given (SpanFilter.type filter) with
           | Some type => Span.type s = type
           | None =>
               match given (SpanFilter.entity filter) with
               | Some entity => Span.entity s = entity
               | None => True
               end
           end
       end
    /\ match given (SpanFilter.user_id filter) with
       | Some user_id =>
           exists confirmed_by,
             Span.confirmed_by s = Some confirmed_by
             /\ SpanConfirmation.signer_id confirmed_by = user_id
       | None => True
       end
    /\ match given (SpanFilter.from filter) with
       | Some from => String.leb from (Span.started_at s) = true
       | None => True
       end
    /\ match given (SpanFilter.to filter) with
       | Some to => String.leb (Span.started_at s) to = true
       | None => True
       end in
  (forall s, In s (querySpans unlimited db) <-> selected s)
  /\ (forall i j a b,
        (i < j)%nat ->
        nth_error (querySpans unlimited db) i = Some a ->
        nth_error (querySpans unlimited db) j = Some b ->
        localeCompare (Span.started_at b) (Span.started_at a) <> Gt)
  /\ (SpanFilter.limit filter = None \/ SpanFilter.limit filter = Some 0%Z ->
      querySpans filter db = querySpans unlimited db)
  /\ (forall n,
        SpanFilter.limit filter = Some n -> (0 < n)%Z ->
        querySpans filter db = firstn (Z.to_nat n) (querySpans unlimited db)).
Proof.
  intros unlimited selected.
  split; [|split; [|split]].
  - intros s. rewrite In_querySpans by reflexivity. subst selected unlimited.
    cbn [SpanFilter.trace_id SpanFilter.type SpanFilter.entity SpanFilter.user_id
         SpanFilter.from SpanFilter.to].
    unfold by_user.
    destruct (given (SpanFilter.user_id filter)) as [user_id|]; [|tauto].
    destruct (Span.confirmed_by s) as [c|]; simpl.
    + split.
      * intros [H1 [H2 [H3 H4]]]. split; [exact H1|]. split; [exact H2|].
        split; [|exact H4]. exists c. split; [reflexivity|]. now injection H3.
      * intros [H1 [H2 [[c' [Hc Hu]] H4]]]. injection Hc as <-.
        split; [exact H1|]. split; [exact H2|]. split; [|exact H4]. now rewrite Hu.
    + split.
      * intros [_ [_ [H _]]]. discriminate H.
      * intros [_ [_ [[c' [Hc _]] _]]]. discriminate Hc.
  - intros i j a b Hij Ha Hb.
    assert (StronglySorted
              (fun a b => localeCompare (Span.started_at b) (Span.started_at a) <> Gt)
              (querySpans unlimited db)) as Hsorted.
    { unfold querySpans. cbn [SpanFilter.limit unlimited].
      match goal with
      | |- context [sort ?c ?l] =>
          exact (@sort_sorted _ c
                   (fun x y => localeCompare_antisym _ _)
                   (fun x y z H1 H2 => localeCompare_trans _ _ _ H2 H1) l)
      end. }
    exact (StronglySorted_nth_error Hsorted Hij Ha Hb).
  - intros [Hnone|Hzero]; unfold querySpans; [rewrite Hnone|rewrite Hzero];
      reflexivity.
  - intros n Hsome Hn. unfold querySpans. rewrite Hsome.
    cbn [SpanFilter.limit SpanFilter.trace_id SpanFilter.type SpanFilter.entity
         SpanFilter.user_id SpanFilter.from SpanFilter.to unlimited].
    destruct (Z.eqb_spec n 0); [lia|]. simpl negb. cbv iota.
    unfold slice_to. destruct (Z.ltb_spec n 0); [lia|reflexivity].
Qed.

End QueryFilters.

(** The filter of the specification's scenario, on the ledger of the two
    spans of [t1]. *)
Lemma querySpans_filters_witness :
  (In Example.created_span
      (@querySpans Example.runtime
         (SpanFilter.mk (Some "t1") (Some "contract.created") None None None None None)
         Example.two_spans)
   <-> In Example.created_span (Database.spans Example.two_spans)
       /\ Span.trace_id Example.created_span = "t1")
  /\ @querySpans Example.runtime
       (SpanFilter.mk (Some "t1") None None None None None (Some 1%Z))
       Example.two_spans
     = [Example.cancelled_span].
Proof.
  split.
  - destruct (@querySpans_filters Example.runtime
                String_compare_antisym_Gt String_compare_le_trans
                (SpanFilter.mk (Some "t1") (Some "contract.created") None None None
                   None None) Example.two_spans) as [H _].
    rewrite (H Example.created_span). simpl. tauto.
  - destruct (@querySpans_filters Example.runtime
                String_compare_antisym_Gt String_compare_le_trans
                (SpanFilter.mk (Some "t1") None None None None None (Some 1%Z))
                Example.two_spans) as [_ [_ [_ H]]].
    rewrite (H 1%Z eq_refl); [reflexivity|lia].
Defined.

(* ================================================================== *)
(** * Properties: what [appendToLedger] keeps *)
(* ================================================================== *)

Lemma length_insert_by_key (V : Type) (keyPath : V -> string) (v : V)
    (records : list V) :
  length (insert_by_key keyPath v records) = S (length records).
Proof.
  induction records as [|r rest IH]; simpl; [reflexivity|].
  destruct (String.ltb _ _); simpl; auto.
Qed.

Lemma In_store_put (V : Type) (keyPath : V -> string) (v x : V) (records : list V) :
  In x (store_put keyPath v records) ->
  x = v \/ (In x records /\ keyPath x <> keyPath v).
Proof.
  unfold store_put. rewrite In_insert_by_key, filter_In.
  intros [H|[H1 H2]]; [now left|right]. split; [exact H1|].
  apply negb_true_iff in H2. now apply String.eqb_neq.
Qed.

Lemma map_result_error (l : list JSValue) (e : Exception) :
  map_result (get_prop_strict "name") l = Throw e -> e = TypeError.
Proof.
  induction l as [|x rest IH]; simpl; [discriminate|].
  destruct x; simpl; try (intros H; now injection H);
    (destruct (map_result _ rest); simpl; [discriminate|apply IH]).
Qed.

Lemma extractContractTitle_error (span : Span.t) (e : Exception) :
  extractContractTitle span = Throw e -> e = TypeError.
Proof.
  unfold extractContractTitle.
  destruct (truthy (get_prop "title" _)); [discriminate|].
  destruct (truthy (get_prop "parties" _)); [|discriminate].
  destruct (map_result _ _) eqn:E; simpl; [discriminate|].
  intros H. injection H as <-. eapply map_result_error; eauto.
Qed.

Ltac conjuncts := repeat match goal with |- _ /\ _ => split end.

Section AppendFacts.
Context {RT : Runtime}.

Lemma appendSpan_outcome (span : Span.t) (db : Database.t) :
  appendSpan span db = (db, Throw ConstraintError)
  \/ appendSpan span db
     = (Database.mk (insert_by_key Span.id span (Database.spans db))
          (Database.contracts db) (Database.identity db), Ok tt).
Proof.
  unfold appendSpan, store_add.
  destruct (has_key Span.id (Span.id span) (Database.spans db)); auto.
Qed.

(** How a projection ends. *)
Lemma updateContractFromSpans_outcome (now traceId : string) (db : Database.t) :
  updateContractFromSpans now traceId db = (db, Ok tt)
  \/ (updateContractFromSpans now traceId db = (db, Throw TypeError)
      /\ getContract traceId db = None)
  \/ exists contract,
       updateContractFromSpans now traceId db = (saveContract contract db, Ok tt)
       /\ Contract.id contract = traceId.
Proof.
  unfold updateContractFromSpans.
  destruct (Nat.eqb _ 0); [auto|].
  destruct (find (has_type "contract.created") _) as [creationSpan|]; [|auto].
  destruct (getContract traceId db) as [contract|] eqn:Hget.
  - right. right.
    destruct (find (has_type "contract.cancelled") _);
      [|destruct (find (has_type "contract.completed") _)];
      eexists; (split; [reflexivity|]); simpl;
      eapply store_get_key; exact Hget.
  - destruct (extractContractTitle creationSpan) as [title|e] eqn:Ht.
    + right. right. eexists. split; reflexivity.
    + right. left. apply extractContractTitle_error in Ht. subst e. auto.
Qed.

(** What [appendToLedger] hands to [appendSpan], or the error of the
    signature. *)
Lemma appendToLedger_steps (now_signature now_view : string) (span : Span.t)
    (db : Database.t) :
  appendToLedger now_signature now_view span db = (db, Throw InvalidAccessError)
  \/ exists stored,
       Span.id stored = Span.id span
       /\ Span.entity stored = Span.entity span
       /\ Span.trace_id stored = Span.trace_id span
       /\ appendToLedger now_signature now_view span db
          = match appendSpan stored db with
            | (db, Throw e) => (db, Throw e)
            | (db, Ok _) =>
                if Span.entity stored =? "minicontrato"
                then updateContractFromSpans now_view (Span.trace_id stored) db
                else (db, Ok tt)
            end.
Proof.
  unfold appendToLedger.
  set (hashed := if SpanHash.hash (Span.this span) =? ""
                 then Span.set_hash (calculateSpanHash (spanObject span)) span
                 else span).
  assert (Span.id hashed = Span.id span /\ Span.entity hashed = Span.entity span
          /\ Span.trace_id hashed = Span.trace_id span) as [H1 [H2 H3]]
    by (subst hashed; destruct (_ =? ""); auto).
  destruct (getIdentity db) as [identity|];
    [destruct (Span.confirmed_by hashed) as [c|]|].
  - right. exists hashed. auto.
  - pose proof (signSpan_hashed span (Identity.private_key_handle identity)) as Hs.
    cbv zeta in Hs. fold hashed in Hs. rewrite Hs. clear Hs.
    unfold sign, bind.
    destruct (subtle_sign _ _) as [signature|e] eqn:Hsign.
    + right. eexists. split; [|split; [|split; [|reflexivity]]]; assumption.
    + left. unfold subtle_sign in Hsign.
      destruct (negb _); [now injection Hsign as <-|].
      destruct (CryptoKey.type _); try discriminate Hsign; now injection Hsign as <-.
  - right. exists hashed. auto.
Qed.

(** X20.  [appendToLedger] only appends.  However it ends, the spans
    stored before are still stored, at most one span is added (exactly one
    when it succeeds), and the identity is untouched.  After a
    [ConstraintError] (the [id] exists) and after an [InvalidAccessError]
    (the key of the identity cannot sign) the database is as it was.  A span
    whose entity is not [minicontrato] leaves the contracts as they were, and
    no append changes the contract of another trace. *)
Theorem appendToLedger_append_only (now_signature now_view : string)
    (span : Span.t) (db : Database.t) :
  let db' := fst (appendToLedger now_signature now_view span db) in
  let r := snd (appendToLedger now_signature now_view span db) in
  (forall s, In s (Database.spans db) -> In s (Database.spans db'))
  /\ (r = Ok tt -> getSpanCount db' = S (getSpanCount db))
  /\ (getSpanCount db' <= S (getSpanCount db))%nat
  /\ Database.identity db' = Database.identity db
  /\ (r = Throw ConstraintError \/ r = Throw InvalidAccessError -> db' = db)
  /\ (Span.entity span <> "minicontrato" ->
      Database.contracts db' = Database.contracts db)
  /\ (forall contract,
        In contract (Database.contracts db') ->
        In contract (Database.contracts db)
        \/ Contract.id contract = Span.trace_id span).
Proof.
  intros db' r. subst db' r. unfold getSpanCount.
  destruct (appendToLedger_steps now_signature now_view span db)
    as [->|[stored [Hid [Hentity [Htrace ->]]]]].
  - simpl. conjuncts; auto; try lia; try discriminate.
  - destruct (appendSpan_outcome stored db) as [->| ->].
    + simpl. conjuncts; auto; try lia; try discriminate.
    + set (db1 := Database.mk _ _ _).
      assert (forall s, In s (Database.spans db) -> In s (Database.spans db1)) as Hin
        by (intros s Hs; apply In_insert_by_key; now right).
      assert (length (Database.spans db1) = S (length (Database.spans db))) as Hlen
        by apply length_insert_by_key.
      rewrite Hentity.
      destruct (String.eqb_spec (Span.entity span) "minicontrato") as [Heq|Hneq].
      * rewrite Htrace.
        destruct (updateContractFromSpans_outcome now_view (Span.trace_id span) db1)
          as [->|[[-> _]|[contract [-> Hc]]]]; simpl;
          rewrite ?length_insert_by_key;
          conjuncts; auto; try lia; try discriminate; try congruence;
          try (intros [H|H]; discriminate H).
        intros c H. apply In_store_put in H.
        destruct H as [->|[H _]]; auto.
      * simpl. rewrite ?length_insert_by_key.
        conjuncts; auto; try lia; try discriminate.
        intros [H|H]; discriminate H.
Qed.

End AppendFacts.

(* ================================================================== *)
(** * Properties: what the projection writes *)
(* ================================================================== *)

Lemma find_none_iff (A : Type) (f : A -> bool) (l : list A) :
  find f l = None <-> forall x, In x l -> f x = false.
Proof.
  split; [apply find_none|].
  induction l as [|a rest IH]; intros H; [reflexivity|]. simpl.
  rewrite (H a) by now left. apply IH. intros x Hx. apply H. now right.
Qed.

Lemma find_some_iff (A : Type) (f : A -> bool) (l : list A) :
  (exists x, In x l /\ f x = true) -> exists y, find f l = Some y.
Proof.
  intros [x [Hin Hf]]. destruct (find f l) as [y|] eqn:E; [now exists y|].
  rewrite (find_none _ _ E x Hin) in Hf. discriminate Hf.
Qed.

Section ProjectionFacts.
Context {RT : Runtime}.

Lemma find_in_trace (t traceId : string) (db : Database.t) :
  traceId <> "" ->
  (find (has_type t) (getSpansByTrace traceId db) = None
   <-> forall s, In s (Database.spans db) -> Span.trace_id s = traceId ->
                 Span.type s <> t)
  /\ (forall y, find (has_type t) (getSpansByTrace traceId db) = Some y ->
                In y (Database.spans db) /\ Span.trace_id y = traceId
                /\ Span.type y = t).
Proof.
  intros Hne. split.
  - rewrite find_none_iff. unfold has_type. split.
    + intros H s Hin Htrace. apply String.eqb_neq, H.
      apply In_getSpansByTrace; auto.
    + intros H s Hin. apply In_getSpansByTrace in Hin; [|exact Hne].
      apply String.eqb_neq. now apply H.
  - intros y Hy. apply find_some in Hy. destruct Hy as [Hin Ht].
    apply In_getSpansByTrace in Hin; [|exact Hne].
    unfold has_type in Ht. apply String.eqb_eq in Ht. tauto.
Qed.

Lemma trace_not_empty (traceId : string) (db : Database.t) (s : Span.t) :
  traceId <> "" -> In s (Database.spans db) -> Span.trace_id s = traceId ->
  Nat.eqb (length (getSpansByTrace traceId db)) 0 = false.
Proof.
  intros Hne Hin Htrace.
  assert (In s (getSpansByTrace traceId db)) as H
    by (apply In_getSpansByTrace; auto).
  destruct (getSpansByTrace traceId db); [destruct H|reflexivity].
Qed.

(** X22.  A trace that holds no [contract.created] span is not projected:
    however [updateContractFromSpans] ends, it leaves the database as it
    was, whatever other spans the trace holds. *)
Theorem updateContractFromSpans_without_creation (now traceId : string)
    (db db' : Database.t) (r : result unit) :
  traceId <> "" ->
  (forall s, In s (Database.spans db) -> Span.trace_id s = traceId ->
             Span.type s <> "contract.created") ->
  updateContractFromSpans now traceId db = (db', r) ->
  db' = db.
Proof.
  intros Hne Hnone. unfold updateContractFromSpans.
  destruct (Nat.eqb _ 0); [now intros [= <- _]|].
  apply (find_in_trace "contract.created" db Hne) in Hnone.
  rewrite Hnone. now intros [= <- _].
Qed.

(** X23.  What a successful projection of a trace with a
    [contract.created] span writes: one record under the name of the trace,
    updated at [now], listing the [id]s of exactly the spans of the trace (in
    the order of [getSpansByTrace], the newest first); the records of the
    other traces are kept.  A record that is created is [active], without
    [completed_at], and takes its [created_at], title, description and
    metadata from a creation span of the trace; a record that existed keeps
    its [created_at], title, description, parties and metadata. *)
Theorem updateContractFromSpans_contract (now traceId : string)
    (db db' : Database.t) :
  traceId <> "" ->
  (exists s, In s (Database.spans db) /\ Span.trace_id s = traceId
             /\ Span.type s = "contract.created") ->
  updateContractFromSpans now traceId db = (db', Ok tt) ->
  exists contract,
    db' = saveContract contract db
    /\ getContract traceId db' = Some contract
    /\ Contract.id contract = traceId
    /\ Contract.updated_at contract = now
    /\ Contract.spans contract = map Span.id (getSpansByTrace traceId db)
    /\ (forall id,
          In id (Contract.spans contract)
          <-> exists s, In s (Database.spans db) /\ Span.trace_id s = traceId
                        /\ Span.id s = id)
    /\ (forall c, In c (Database.contracts db') ->
                  c = contract
                  \/ (In c (Database.contracts db) /\ Contract.id c <> traceId))
    /\ match getContract traceId db with
       | None =>
           Contract.status contract = active
           /\ Contract.completed_at contract = None
           /\ exists s,
                In s (Database.spans db) /\ Span.trace_id s = traceId
                /\ Span.type s = "contract.created"
                /\ Contract.created_at contract = Span.started_at s
                /\ extractContractTitle s = Ok (Contract.title contract)
                /\ Contract.description contract = extractContractDescription s
                /\ Contract.metadata contract = SpanBody.metadata (Span.body s)
       | Some old =>
           Contract.created_at contract = Contract.created_at old
           /\ Contract.title contract = Contract.title old
           /\ Contract.description contract = Contract.description old
           /\ Contract.parties contract = Contract.parties old
           /\ Contract.metadata contract = Contract.metadata old
       end.
Proof.
  intros Hne [s [Hin [Htrace Htype]]] Hrun.
  pose proof (@trace_not_empty traceId db s Hne Hin Htrace) as Hlen.
  destruct (@find_some_iff _ (has_type "contract.created")
              (getSpansByTrace traceId db)) as [creationSpan Hfind].
  { exists s. split; [apply In_getSpansByTrace; auto|].
    unfold has_type. now apply String.eqb_eq. }
  assert (forall contract,
            Contract.id contract = traceId ->
            Contract.spans contract = map Span.id (getSpansByTrace traceId db) ->
            getContract traceId (saveContract contract db) = Some contract
            /\ Contract.id contract = traceId
            /\ (forall id,
                  In id (Contract.spans contract)
                  <-> exists s, In s (Database.spans db)
                                /\ Span.trace_id s = traceId /\ Span.id s = id)
            /\ (forall c, In c (Database.contracts (saveContract contract db)) ->
                          c = contract
                          \/ (In c (Database.contracts db)
                              /\ Contract.id c <> traceId))) as Hsaved.
  { intros contract Hid Hspans.
    split; [now apply getContract_saveContract_at|]. split; [exact Hid|]. split.
    - intros id. rewrite Hspans, in_map_iff. split.
      + intros [x [Hx Hinx]]. apply In_getSpansByTrace in Hinx; [|exact Hne].
        exists x. tauto.
      + intros [x [Hx1 [Hx2 Hx3]]]. exists x. split; [exact Hx3|].
        apply In_getSpansByTrace; auto.
    - intros c Hc. apply In_store_put in Hc. rewrite Hid in Hc. exact Hc. }
  unfold updateContractFromSpans in Hrun. rewrite Hlen, Hfind in Hrun.
  destruct (getContract traceId db) as [old|] eqn:Hget.
  - pose proof (store_get_key _ _ _ Hget) as Hid.
    destruct (find (has_type "contract.cancelled") _);
      [|destruct (find (has_type "contract.completed") _)];
      injection Hrun as <-; eexists; (split; [reflexivity|]);
      match goal with
      | |- getContract _ (saveContract ?c _) = _ /\ _ =>
          destruct (Hsaved c Hid eq_refl) as [H1 [H2 [H3 H4]]]
      end;
      repeat split; auto; apply H3.
  - destruct (extractContractTitle creationSpan) as [title|e] eqn:Htitle;
      [|discriminate Hrun].
    injection Hrun as <-. eexists. split; [reflexivity|].
    match goal with
    | |- getContract _ (saveContract ?c _) = _ /\ _ =>
        destruct (Hsaved c eq_refl eq_refl) as [H1 [H2 [H3 H4]]]
    end.
    split; [exact H1|]. split; [reflexivity|]. split; [reflexivity|].
    split; [reflexivity|]. split; [exact H3|]. split; [exact H4|].
    split; [reflexivity|]. split; [reflexivity|].
    exists creationSpan.
    destruct (proj2 (find_in_trace "contract.created" db Hne) _ Hfind)
      as [Hc1 [Hc2 Hc3]].
    repeat split; auto.
Qed.

(** X24.  The status a projection gives to a contract that already has its
    record: [cancelled], with the [completed_at] of a cancellation span, as
    soon as the trace holds a [contract.cancelled] span, also when it holds a
    [contract.completed] span; otherwise [completed], with the [completed_at]
    of a completion span, when it holds a [contract.completed] span;
    otherwise the status and the [completed_at] of the record. *)
Theorem updateContractFromSpans_status (now traceId : string)
    (db : Database.t) (old : Contract.t) :
  traceId <> "" ->
  getContract traceId db = Some old ->
  (exists s, In s (Database.spans db) /\ Span.trace_id s = traceId
             /\ Span.type s = "contract.created") ->
  exists contract,
    updateContractFromSpans now traceId db = (saveContract contract db, Ok tt)
    /\ ((exists s, In s (Database.spans db) /\ Span.trace_id s = traceId
                   /\ Span.type s = "contract.cancelled") ->
        Contract.status contract = cancelled
        /\ exists s, In s (Database.spans db) /\ Span.trace_id s = traceId
                     /\ Span.type s = "contract.cancelled"
                     /\ Contract.completed_at contract = Span.completed_at s)
    /\ ((forall s, In s (Database.spans db) -> Span.trace_id s = traceId ->
                   Span.type s <> "contract.cancelled") ->
        ((exists s, In s (Database.spans db) /\ Span.trace_id s = traceId
                    /\ Span.type s = "contract.completed") ->
         Contract.status contract = completed
         /\ exists s, In s (Database.spans db) /\ Span.trace_id s = traceId
                      /\ Span.type s = "contract.completed"
                      /\ Contract.completed_at contract = Span.completed_at s)
        /\ ((forall s, In s (Database.spans db) -> Span.trace_id s = traceId ->
                       Span.type s <> "contract.completed") ->
            Contract.status contract = Contract.status old
            /\ Contract.completed_at contract = Contract.completed_at old)).
Proof.
  intros Hne Hget [s [Hin [Htrace Htype]]].
  pose proof (@trace_not_empty traceId db s Hne Hin Htrace) as Hlen.
  destruct (@find_some_iff _ (has_type "contract.created")
              (getSpansByTrace traceId db)) as [creationSpan Hfind].
  { exists s. split; [apply In_getSpansByTrace; auto|].
    unfold has_type. now apply String.eqb_eq. }
  destruct (find_in_trace "contract.cancelled" db Hne) as [Hcn Hcs].
  destruct (find_in_trace "contract.completed" db Hne) as [Hdn Hds].
  unfold updateContractFromSpans. rewrite Hlen, Hfind, Hget.
  destruct (find (has_type "contract.cancelled") _) as [x|] eqn:Hx.
  - eexists. split; [reflexivity|]. simpl. split.
    + intros _. split; [reflexivity|]. exists x.
      destruct (Hcs x eq_refl) as [H1 [H2 H3]]. auto.
    + intros Hno. exfalso.
      destruct (Hcs x eq_refl) as [H1 [H2 H3]]. exact (Hno x H1 H2 H3).
  - destruct (find (has_type "contract.completed") _) as [y|] eqn:Hy.
    + eexists. split; [reflexivity|]. simpl. split.
      * intros [z [Hz1 [Hz2 Hz3]]]. exfalso.
        exact (proj1 Hcn eq_refl z Hz1 Hz2 Hz3).
      * intros _. split.
        -- intros _. split; [reflexivity|]. exists y.
           destruct (Hds y eq_refl) as [H1 [H2 H3]]. auto.
        -- intros Hno. exfalso.
           destruct (Hds y eq_refl) as [H1 [H2 H3]]. exact (Hno y H1 H2 H3).
    + eexists. split; [reflexivity|]. simpl. split.
      * intros [z [Hz1 [Hz2 Hz3]]]. exfalso.
        exact (proj1 Hcn eq_refl z Hz1 Hz2 Hz3).
      * intros _. split.
        -- intros [z [Hz1 [Hz2 Hz3]]]. exfalso.
           exact (proj1 Hdn eq_refl z Hz1 Hz2 Hz3).
        -- intros _. split; reflexivity.
Qed.

End ProjectionFacts.

Lemma updateContractFromSpans_without_creation_witness :
  fst (@updateContractFromSpans Example.runtime "2025-01-03T00:00:00Z" "t1"
         (Database.mk [Example.cancelled_span] [] None))
  = Database.mk [Example.cancelled_span] [] None.
Proof.
  apply (@updateContractFromSpans_without_creation Example.runtime
           "2025-01-03T00:00:00Z" "t1"
           (Database.mk [Example.cancelled_span] [] None) _
           (snd (@updateContractFromSpans Example.runtime "2025-01-03T00:00:00Z"
                   "t1" (Database.mk [Example.cancelled_span] [] None)))).
  - discriminate.
  - intros s [<-|[]] _. discriminate.
  - apply surjective_pairing.
Defined.

Lemma updateContractFromSpans_contract_witness :
  exists contract,
    getContract "t1"
      (fst (@updateContractFromSpans Example.runtime "2025-01-03T00:00:00Z" "t1"
              Example.two_spans)) = Some contract
    /\ Contract.id contract = "t1"
    /\ Contract.updated_at contract = "2025-01-03T00:00:00Z"
    /\ Contract.spans contract = ["s2"; "s1"]
    /\ Contract.status contract = active.
Proof.
  destruct (@updateContractFromSpans_contract Example.runtime
              "2025-01-03T00:00:00Z" "t1" Example.two_spans
              (fst (@updateContractFromSpans Example.runtime
                      "2025-01-03T00:00:00Z" "t1" Example.two_spans)))
    as [contract [Hdb [Hget [Hid [Hupdated [Hspans [_ [_ Hnew]]]]]]]].
  - discriminate.
  - exists Example.created_span. simpl. auto.
  - reflexivity.
  - exists contract. simpl in Hnew. destruct Hnew as [Hstatus _].
    split; [exact Hget|]. split; [exact Hid|]. split; [exact Hupdated|].
    split; [exact Hspans|]. exact Hstatus.
Defined.

Lemma updateContractFromSpans_status_witness :
  exists contract,
    @updateContractFromSpans Example.runtime "2025-01-03T00:00:00Z" "t1"
      (Database.mk [Example.created_span; Example.cancelled_span]
         [Example.contract_t1] None)
    = (saveContract contract
         (Database.mk [Example.created_span; Example.cancelled_span]
            [Example.contract_t1] None), Ok tt)
    /\ Contract.status contract = cancelled
    /\ Contract.completed_at contract = Some "2025-01-02T00:00:01Z".
Proof.
  destruct (@updateContractFromSpans_status Example.runtime
              "2025-01-03T00:00:00Z" "t1"
              (Database.mk [Example.created_span; Example.cancelled_span]
                 [Example.contract_t1] None) Example.contract_t1)
    as [contract [Hrun [Hcancelled _]]].
  - discriminate.
  - reflexivity.
  - exists Example.created_span. simpl. auto.
  - exists contract. split; [exact Hrun|].
    destruct Hcancelled as [Hstatus [s [Hin [_ [Htype Hat]]]]].
    + exists Example.cancelled_span. simpl. auto.
    + split; [exact Hstatus|]. rewrite Hat.
      destruct Hin as [<-|[<-|[]]]; [discriminate Htype|reflexivity].
Defined.

Section FailedProjection.
Context {RT : Runtime}.

(** The span [appendToLedger] hands to [appendSpan] when the signature, if
    one is needed, can be made: the fields the projection reads are those of
    the given span. *)
Lemma appendToLedger_signed (now_signature now_view : string) (span : Span.t)
    (db : Database.t) :
  (forall identity,
     Database.identity db = Some identity -> Span.confirmed_by span = None ->
     CryptoKey.type (Identity.private_key_handle identity) = private
     /\ has_usage usage_sign (Identity.private_key_handle identity) = true) ->
  exists stored,
    Span.id stored = Span.id span
    /\ Span.entity stored = Span.entity span
    /\ Span.trace_id stored = Span.trace_id span
    /\ Span.type stored = Span.type span
    /\ Span.body stored = Span.body span
    /\ appendToLedger now_signature now_view span db
       = match appendSpan stored db with
         | (db, Throw e) => (db, Throw e)
         | (db, Ok _) =>
             if Span.entity stored =? "minicontrato"
             then updateContractFromSpans now_view (Span.trace_id stored) db
             else (db, Ok tt)
         end.
Proof.
  intros Hkey. unfold appendToLedger.
  set (hashed := if SpanHash.hash (Span.this span) =? ""
                 then Span.set_hash (calculateSpanHash (spanObject span)) span
                 else span).
  assert (Span.id hashed = Span.id span /\ Span.entity hashed = Span.entity span
          /\ Span.trace_id hashed = Span.trace_id span
          /\ Span.type hashed = Span.type span
          /\ Span.body hashed = Span.body span
          /\ Span.confirmed_by hashed = Span.confirmed_by span)
    as [H1 [H2 [H3 [H4 [H5 H6]]]]]
    by (subst hashed; destruct (_ =? ""); repeat split; reflexivity).
  unfold getIdentity.
  destruct (Database.identity db) as [identity|] eqn:Hidentity;
    [destruct (Span.confirmed_by hashed) as [c|] eqn:Hc|].
  - exists hashed. repeat split; assumption.
  - pose proof (signSpan_hashed span (Identity.private_key_handle identity)) as Hs.
    cbv zeta in Hs. fold hashed in Hs. rewrite Hs. clear Hs.
    destruct (Hkey identity eq_refl) as [Htype Husage]; [congruence|].
    unfold sign, bind, subtle_sign. rewrite Husage, Htype. simpl negb. cbv iota.
    eexists. split; [|split; [|split; [|split; [|split; [|reflexivity]]]]];
      assumption.
  - exists hashed. repeat split; assumption.
Qed.

Lemma extractContractTitle_body (a b : Span.t) :
  Span.body a = Span.body b -> Span.id a = Span.id b ->
  extractContractTitle a = extractContractTitle b.
Proof. intros Hbody Hid. unfold extractContractTitle. now rewrite Hbody, Hid. Qed.

(** X21.  The append and the projection are not one transaction.  Take a
    [contract.created] span of the entity [minicontrato] with a new [id], the
    first creation span of its trace, for which no contract record exists
    and on which [extractContractTitle] throws (a party that is [null] has
    no [name]); if it needs a signature, the key of the identity can make
    it.  [appendToLedger] ends with that [TypeError], and the span has been
    stored all the same: the ledger has one span more, the contracts are as
    they were, and the trace has no contract record. *)
Theorem appendToLedger_projection_failure (now_signature now_view : string)
    (span : Span.t) (db : Database.t) :
  (forall s, In s (Database.spans db) -> Span.id s <> Span.id span) ->
  (forall identity,
     Database.identity db = Some identity -> Span.confirmed_by span = None ->
     CryptoKey.type (Identity.private_key_handle identity) = private
     /\ has_usage usage_sign (Identity.private_key_handle identity) = true) ->
  Span.entity span = "minicontrato" ->
  Span.trace_id span <> "" ->
  Span.type span = "contract.created" ->
  (forall s, In s (Database.spans db) -> Span.trace_id s = Span.trace_id span ->
             Span.type s <> "contract.created") ->
  getContract (Span.trace_id span) db = None ->
  extractContractTitle span = Throw TypeError ->
  exists db',
    appendToLedger now_signature now_view span db = (db', Throw TypeError)
    /\ getSpanCount db' = S (getSpanCount db)
    /\ (exists stored,
          getSpan (Span.id span) db' = Some stored
          /\ Span.body stored = Span.body span)
    /\ Database.contracts db' = Database.contracts db
    /\ getContract (Span.trace_id span) db' = None.
Proof.
  intros Hfresh Hkey Hentity Htrace Htype Hothers Hnone Htitle.
  destruct (appendToLedger_signed now_signature now_view span db Hkey)
    as [stored [Hid [He [Ht [Hty [Hbody ->]]]]]].
  set (db1 := Database.mk (insert_by_key Span.id stored (Database.spans db))
                (Database.contracts db) (Database.identity db)).
  assert (has_key Span.id (Span.id stored) (Database.spans db) = false) as Hkeyless
    by (apply has_key_false; intros s Hs; rewrite Hid; now apply Hfresh).
  assert (appendSpan stored db = (db1, Ok tt)) as ->
    by (unfold appendSpan, store_add; now rewrite Hkeyless).
  assert (forall s, In s (Database.spans db1) <-> s = stored \/ In s (Database.spans db))
    as Hin by (intros s; apply In_insert_by_key).
  rewrite He, Hentity. change ("minicontrato" =? "minicontrato") with true.
  cbv iota. rewrite Ht.
  assert (updateContractFromSpans now_view (Span.trace_id span) db1
          = (db1, Throw TypeError)) as ->.
  { unfold updateContractFromSpans.
    rewrite (@trace_not_empty _ (Span.trace_id span) db1 stored Htrace);
      [|apply Hin; now left|exact Ht].
    destruct (find_in_trace "contract.created" db1 Htrace) as [Hnot Hfound].
    destruct (find (has_type "contract.created")
                (getSpansByTrace (Span.trace_id span) db1)) as [c|] eqn:Hfind.
    - destruct (Hfound c eq_refl) as [Hc [Hctrace Hctype]].
      apply Hin in Hc. destruct Hc as [->|Hc];
        [|exfalso; exact (Hothers c Hc Hctrace Hctype)].
      change (getContract (Span.trace_id span) db1)
        with (getContract (Span.trace_id span) db).
      rewrite Hnone.
      rewrite (extractContractTitle_body stored span Hbody Hid), Htitle.
      reflexivity.
    - exfalso. apply (proj1 Hnot eq_refl stored);
        [apply Hin; now left|exact Ht|congruence]. }
  exists db1. split; [reflexivity|]. split.
  - unfold getSpanCount. apply length_insert_by_key.
  - split.
    + exists stored. split; [|exact Hbody].
      rewrite <- Hid. unfold getSpan. now apply store_get_insert_fresh.
    + split; [reflexivity|exact Hnone].
Qed.

End FailedProjection.

Lemma appendToLedger_projection_failure_witness :
  exists db',
    @appendToLedger Example.runtime "2025-02-01T00:00:01Z" "2025-02-01T00:00:02Z"
      Cases.null_party_span Database.empty = (db', Throw TypeError)
    /\ getSpanCount db' = S (getSpanCount Database.empty)
    /\ (exists stored,
          getSpan "s9" db' = Some stored
          /\ Span.body stored = Span.body Cases.null_party_span)
    /\ Database.contracts db' = []
    /\ getContract "t9" db' = None.
Proof.
  apply (@appendToLedger_projection_failure Example.runtime
           "2025-02-01T00:00:01Z" "2025-02-01T00:00:02Z"
           Cases.null_party_span Database.empty).
  - simpl. intros s [].
  - intros identity H. discriminate H.
  - reflexivity.
  - discriminate.
  - reflexivity.
  - simpl. intros s [].
  - reflexivity.
  - reflexivity.
Defined.

(* ================================================================== *)
(** * Properties: the signature of [appendToLedger] *)
(* ================================================================== *)

Section SigningFacts.
Context {RT : Runtime}.

(** [appendToLedger] on a span without confirmation, when there is an
    identity: the signature, then the append of the signed span. *)
Lemma appendToLedger_signs (now_signature now_view : string) (span : Span.t)
    (db : Database.t) (identity : Identity.t) :
  Database.identity db = Some identity ->
  Span.confirmed_by span = None ->
  let hashed :=
    if SpanHash.hash (Span.this span) =? ""
    then Span.set_hash (calculateSpanHash (spanObject span)) span else span in
  appendToLedger now_signature now_view span db
  = match sign (SpanHash.hash (Span.this hashed))
            (Identity.private_key_handle identity) with
    | Throw e => (db, Throw e)
    | Ok signature =>
        let signed :=
          Span.set_confirmed_by
            (SpanConfirmation.mk signature "minicontratos.local" now_signature
               (Identity.user_id identity)) hashed in
        match appendSpan signed db with
        | (db, Throw e) => (db, Throw e)
        | (db, Ok _) =>
            if Span.entity signed =? "minicontrato"
            then updateContractFromSpans now_view (Span.trace_id signed) db
            else (db, Ok tt)
        end
    end.
Proof.
  intros Hidentity Hc hashed.
  assert (Span.confirmed_by hashed = None) as Hconf
    by (subst hashed; destruct (_ =? ""); exact Hc).
  unfold appendToLedger. fold hashed. unfold getIdentity.
  rewrite Hidentity, Hconf.
  pose proof (signSpan_hashed span (Identity.private_key_handle identity)) as Hs.
  cbv zeta in Hs. fold hashed in Hs. rewrite Hs.
  destruct (sign _ _); reflexivity.
Qed.

Lemma updateContractFromSpans_with_creation (now traceId : string)
    (db db' : Database.t) (s : Span.t) :
  traceId <> "" ->
  In s (Database.spans db) -> Span.trace_id s = traceId ->
  Span.type s = "contract.created" ->
  updateContractFromSpans now traceId db = (db', Ok tt) ->
  exists contract, db' = saveContract contract db /\ Contract.id contract = traceId.
Proof.
  intros Hne Hin Htrace Htype Hrun.
  pose proof (@trace_not_empty _ traceId db s Hne Hin Htrace) as Hlen.
  destruct (@find_some_iff _ (has_type "contract.created")
              (getSpansByTrace traceId db)) as [creationSpan Hfind].
  { exists s. split; [apply In_getSpansByTrace; auto|].
    unfold has_type. now apply String.eqb_eq. }
  unfold updateContractFromSpans in Hrun. rewrite Hlen, Hfind in Hrun.
  destruct (getContract traceId db) as [old|] eqn:Hget.
  - pose proof (store_get_key _ _ _ Hget) as Hid.
    destruct (find (has_type "contract.cancelled") _);
      [|destruct (find (has_type "contract.completed") _)];
      injection Hrun as <-; eexists; split; try reflexivity; exact Hid.
  - destruct (extractContractTitle creationSpan); [|discriminate Hrun].
    injection Hrun as <-. eexists. split; reflexivity.
Qed.

End SigningFacts.

Section SignedAppend.
Context {RT : Runtime}.

Hypothesis Ed25519_correct :
  forall seed data,
    Ed25519_verify (Ed25519_public seed) (Ed25519_sign seed data) data = true.

(** X25.  The signature [appendToLedger] puts on a span is a signature of
    the local identity over the stored hash.  With an Ed25519 that verifies
    its own signatures and an identity that keeps the private key of a pair,
    a span without confirmation and with a new [id] is stored with a
    confirmation of the domain [minicontratos.local], signed by the user of
    the identity at the reading of the clock, with a hash that is not empty,
    and [verify] accepts its signature over its stored hash under the public
    key of the pair. *)
Theorem appendToLedger_signature_verifies (now_signature now_view : string)
    (span : Span.t) (db : Database.t) (identity : Identity.t) (seed : list byte) :
  Database.identity db = Some identity ->
  Identity.private_key_handle identity = snd (generateKeyPair seed) ->
  Span.confirmed_by span = None ->
  (forall s, In s (Database.spans db) -> Span.id s <> Span.id span) ->
  exists db' r stored confirmed_by,
    appendToLedger now_signature now_view span db = (db', r)
    /\ getSpan (Span.id span) db' = Some stored
    /\ Span.confirmed_by stored = Some confirmed_by
    /\ SpanConfirmation.signer_id confirmed_by = Identity.user_id identity
    /\ SpanConfirmation.domain confirmed_by = "minicontratos.local"
    /\ SpanConfirmation.timestamp confirmed_by = now_signature
    /\ SpanHash.hash (Span.this stored) <> ""
    /\ verify (SpanHash.hash (Span.this stored))
         (SpanConfirmation.signature confirmed_by) (fst (generateKeyPair seed))
       = true.
Proof.
  intros Hidentity Hkey Hc Hfresh.
  rewrite (appendToLedger_signs now_signature now_view span db Hidentity Hc).
  cbv zeta. rewrite Hkey.
  set (hashed := if SpanHash.hash (Span.this span) =? ""
                 then Span.set_hash (calculateSpanHash (spanObject span)) span
                 else span).
  assert (Span.id hashed = Span.id span) as Hid
    by (subst hashed; destruct (_ =? ""); reflexivity).
  assert (SpanHash.hash (Span.this hashed) <> "") as Hhash.
  { subst hashed.
    destruct (String.eqb_spec (SpanHash.hash (Span.this span)) ""); [|assumption].
    simpl. discriminate. }
  change (sign (SpanHash.hash (Span.this hashed)) (snd (generateKeyPair seed)))
    with (Ok ("ed25519:"
              ++ bytesToHex (Ed25519_sign seed
                               (TextEncoder_encode (SpanHash.hash (Span.this hashed)))))).
  cbv iota.
  match goal with
  | |- context [appendSpan ?s db] => set (signed := s)
  end.
  destruct (appendToLedger_after_signing now_view signed db)
    as [db' [r [Heq Hget]]].
  { subst signed. simpl. now rewrite Hid. }
  exists db', r, signed. eexists.
  split; [exact Heq|].
  split; [change (Span.id signed) with (Span.id hashed) in Hget; now rewrite <- Hid|].
  split; [reflexivity|]. split; [reflexivity|]. split; [reflexivity|].
  split; [reflexivity|]. split; [exact Hhash|].
  apply (verify_sign Ed25519_correct).
Qed.

End SignedAppend.

Section SelfSigned.
Context {RT : Runtime}.

(** X26.  A contract span that [appendToLedger] hashes and signs is stored
    with the hash of the span as it was given, computed before the
    confirmation is added.  When the hash of the stored span, confirmation
    included, differs from it, the ledger that [appendToLedger] has just
    written does not pass [verifyLedger]: the report holds a hash mismatch for
    the span and is not valid. *)
Theorem appendToLedger_then_verifyLedger (now_signature now_view : string)
    (span : Span.t) (db db' : Database.t) (identity : Identity.t) :
  Database.identity db = Some identity ->
  Span.confirmed_by span = None ->
  SpanHash.hash (Span.this span) = "" ->
  Span.type span = "contract.created" ->
  Span.entity span = "minicontrato" ->
  Span.trace_id span <> "" ->
  (forall s, In s (Database.spans db) -> Span.id s <> Span.id span) ->
  appendToLedger now_signature now_view span db = (db', Ok tt) ->
  exists stored,
    getSpan (Span.id span) db' = Some stored
    /\ Span.confirmed_by stored <> None
    /\ SpanHash.hash (Span.this stored) = calculateSpanHash (spanObject span)
    /\ (calculateSpanHash (spanObject stored) <> calculateSpanHash (spanObject span) ->
        In (LedgerError.mk (Span.id span)
              ("Hash mismatch: expected " ++ calculateSpanHash (spanObject span)
               ++ ", got " ++ calculateSpanHash (spanObject stored)))
           (Report.errors (verifyLedger db'))
        /\ Report.valid (verifyLedger db') = false).
Proof.
  intros Hidentity Hc Hhash Htype Hentity Htrace Hfresh Hrun.
  rewrite (appendToLedger_signs now_signature now_view span db Hidentity Hc) in Hrun.
  cbv zeta in Hrun. rewrite Hhash in Hrun. simpl String.eqb in Hrun.
  cbv iota in Hrun.
  destruct (sign _ _) as [signature|e]; [|discriminate Hrun].
  match type of Hrun with
  | context [appendSpan ?s db] => set (stored := s) in *
  end.
  destruct (appendSpan_outcome stored db) as [H|H]; rewrite H in Hrun;
    [discriminate Hrun|]. clear H.
  change (Span.entity stored) with (Span.entity span) in Hrun.
  change (Span.trace_id stored) with (Span.trace_id span) in Hrun.
  rewrite Hentity in Hrun. simpl String.eqb in Hrun. cbv iota in Hrun.
  match type of Hrun with
  | updateContractFromSpans _ _ ?d = _ => set (db1 := d) in *
  end.
  assert (In stored (Database.spans db1)) as Hin
    by (apply In_insert_by_key; now left).
  destruct (@updateContractFromSpans_with_creation _ now_view (Span.trace_id span)
              db1 db' stored Htrace Hin eq_refl Htype Hrun)
    as [contract [-> Hid]].
  exists stored. split.
  - unfold getSpan. simpl. change (Span.id span) with (Span.id stored).
    apply store_get_insert_fresh. now apply has_key_false.
  - split; [discriminate|]. split; [reflexivity|].
    intros Hneq.
    assert (In (LedgerError.mk (Span.id span)
                  ("Hash mismatch: expected " ++ calculateSpanHash (spanObject span)
                   ++ ", got " ++ calculateSpanHash (spanObject stored)))
               (Report.errors (verifyLedger (saveContract contract db1)))) as Herr.
    { apply In_verifyLedger with contract stored.
      - simpl. unfold store_put. apply In_insert_by_key. now left.
      - rewrite Hid. apply In_getSpansByTrace; [exact Htrace|].
        split; [exact Hin|reflexivity].
      - apply (In_hash_mismatch (saveContract contract db1)
                 (getSpansByTrace (Contract.id contract) (saveContract contract db1))
                 stored).
        simpl. intros E. apply Hneq. now rewrite <- E. }
    split; [exact Herr|].
    destruct (verifyLedger_closed_form (saveContract contract db1)) as [_ [_ ->]].
    destruct (Report.errors _); [destruct Herr|reflexivity].
Qed.

End SelfSigned.

Lemma appendToLedger_signature_verifies_witness :
  exists db' r stored confirmed_by,
    @appendToLedger Example.runtime "2025-01-01T00:00:03Z" "2025-01-01T00:00:04Z"
      Example.created_span Example.fresh_ledger = (db', r)
    /\ getSpan "s1" db' = Some stored
    /\ Span.confirmed_by stored = Some confirmed_by
    /\ SpanConfirmation.signer_id confirmed_by = "user-jo-001"
    /\ SpanConfirmation.domain confirmed_by = "minicontratos.local"
    /\ SpanConfirmation.timestamp confirmed_by = "2025-01-01T00:00:03Z"
    /\ SpanHash.hash (Span.this stored) <> ""
    /\ @verify Example.runtime (SpanHash.hash (Span.this stored))
         (SpanConfirmation.signature confirmed_by) (fst Example.key_pair) = true.
Proof.
  apply (@appendToLedger_signature_verifies Example.runtime Example_Ed25519_correct
           "2025-01-01T00:00:03Z" "2025-01-01T00:00:04Z" Example.created_span
           Example.fresh_ledger Example.identity [x01; x02; x03]).
  - reflexivity.
  - reflexivity.
  - reflexivity.
  - intros s [].
Defined.

Lemma appendToLedger_then_verifyLedger_witness :
  let db' :=
    fst (@appendToLedger Example.runtime "2025-01-01T00:00:03Z"
           "2025-01-01T00:00:04Z" Example.created_span Example.fresh_ledger) in
  exists stored,
    getSpan "s1" db' = Some stored
    /\ Span.confirmed_by stored <> None
    /\ In (LedgerError.mk "s1"
             ("Hash mismatch: expected "
              ++ @calculateSpanHash Example.runtime
                   (Example.span_object Example.created_span)
              ++ ", got "
              ++ @calculateSpanHash Example.runtime (Example.span_object stored)))
          (Report.errors (@verifyLedger Example.runtime db'))
    /\ Report.valid (@verifyLedger Example.runtime db') = false.
Proof.
  intros db'.
  destruct (@appendToLedger_then_verifyLedger Example.runtime
              "2025-01-01T00:00:03Z" "2025-01-01T00:00:04Z" Example.created_span
              Example.fresh_ledger db' Example.identity)
    as [stored [Hget [Hc [Hhash Hreport]]]];
    try reflexivity; try discriminate.
  - intros s [].
  - exists stored. split; [exact Hget|]. split; [exact Hc|].
    apply Hreport. intros E.
    vm_compute in Hget. injection Hget as <-. vm_compute in E. discriminate E.
Defined.

(* ================================================================== *)
(** * Properties: the report of [verifyLedger] *)
(* ================================================================== *)

Section ReportFacts.
Context {RT : Runtime}.

(** Why an error is among the errors of one span. *)
Lemma In_verifySpanInLedger (db : Database.t) (spans : list Span.t)
    (span : Span.t) (e : LedgerError.t) :
  In e (verifySpanInLedger db spans [] span) ->
  LedgerError.span_id e = Span.id span
  /\ ((LedgerError.error e
       = "Hash mismatch: expected " ++ SpanHash.hash (Span.this span)
         ++ ", got " ++ calculateSpanHash (spanObject span)
       /\ SpanHash.hash (Span.this span) <> calculateSpanHash (spanObject span))
      \/ (LedgerError.error e = "Invalid signature"
          /\ truthy_string (signature_of span) = true
          /\ exists identity,
               Database.identity db = Some identity
               /\ verifySpan span (Identity.private_key_handle identity) = false)
      \/ (exists parent_id,
            LedgerError.error e = "Parent span " ++ parent_id ++ " not found"
            /\ Span.parent_id span = Some parent_id
            /\ parent_id <> ""
            /\ forall s, In s spans -> Span.id s <> parent_id)).
Proof.
  unfold verifySpanInLedger, getIdentity.
  set (hash_error := LedgerError.mk (Span.id span) ("Hash mismatch: expected " ++ _)).
  set (errors1 := if negb _ then ([] ++ [hash_error])%list else []).
  set (errors2 := if truthy_string _ then _ else errors1).
  assert (forall x, In x errors1 ->
            x = hash_error
            /\ SpanHash.hash (Span.this span) <> calculateSpanHash (spanObject span))
    as H1.
  { subst errors1. intros x.
    destruct (String.eqb_spec (SpanHash.hash (Span.this span))
                (calculateSpanHash (spanObject span))); simpl; [tauto|].
    intros [<-|[]]. auto. }
  assert (forall x, In x errors2 ->
            In x errors1
            \/ (x = LedgerError.mk (Span.id span) "Invalid signature"
                /\ truthy_string (signature_of span) = true
                /\ exists identity,
                     Database.identity db = Some identity
                     /\ verifySpan span (Identity.private_key_handle identity) = false))
    as H2.
  { subst errors2. intros x.
    destruct (truthy_string (signature_of span)); [|auto].
    destruct (Database.identity db) as [identity|]; [|auto].
    destruct (verifySpan span _) eqn:Hv; simpl; [auto|].
    rewrite in_app_iff. intros [H|[<-|[]]]; [auto|].
    right. split; [reflexivity|]. split; [reflexivity|]. now exists identity. }
  assert (In e errors2 ->
          LedgerError.span_id e = Span.id span
          /\ ((LedgerError.error e
               = "Hash mismatch: expected " ++ SpanHash.hash (Span.this span)
                 ++ ", got " ++ calculateSpanHash (spanObject span)
               /\ SpanHash.hash (Span.this span)
                  <> calculateSpanHash (spanObject span))
              \/ (LedgerError.error e = "Invalid signature"
                  /\ truthy_string (signature_of span) = true
                  /\ exists identity,
                       Database.identity db = Some identity
                       /\ verifySpan span (Identity.private_key_handle identity)
                          = false)
              \/ (exists parent_id,
                    LedgerError.error e = "Parent span " ++ parent_id ++ " not found"
                    /\ Span.parent_id span = Some parent_id
                    /\ parent_id <> ""
                    /\ forall s, In s spans -> Span.id s <> parent_id))) as H3.
  { intros H. apply H2 in H. destruct H as [H|[-> H]].
    - apply H1 in H. destruct H as [-> H]. split; [reflexivity|]. left. auto.
    - split; [reflexivity|]. right. left. auto. }
  destruct (Span.parent_id span) as [parent_id|]; [|exact H3].
  destruct (String.eqb_spec parent_id ""); [exact H3|]. simpl negb. cbv iota.
  destruct (existsb _ spans) eqn:Hex; [exact H3|]. simpl negb. cbv iota.
  rewrite in_app_iff. intros [H|[<-|[]]]; [now apply H3|].
  split; [reflexivity|]. right. right. exists parent_id.
  split; [reflexivity|]. split; [reflexivity|]. split; [assumption|].
  intros s Hs E. 
  assert (existsb (fun s => Span.id s =? parent_id) spans = true) as Ht.
  { apply existsb_exists. exists s. split; [exact Hs|]. now apply String.eqb_eq. }
  rewrite Ht in Hex. discriminate Hex.
Qed.

(** X28.  Every error of the report of [verifyLedger] has its cause: it
    names a span of the trace of a contract record, and it is a hash mismatch
    for a span whose stored hash is not its computed hash, or an invalid
    signature for a signed span that [verifySpan] rejects with the key of the
    identity, or a missing parent for a span whose parent is not in the
    trace.  In particular, without an identity no signature is reported. *)
Theorem verifyLedger_errors_justified (db : Database.t) (e : LedgerError.t) :
  In e (Report.errors (verifyLedger db)) ->
  exists contract span,
    In contract (Database.contracts db)
    /\ In span (getSpansByTrace (Contract.id contract) db)
    /\ LedgerError.span_id e = Span.id span
    /\ ((LedgerError.error e
         = "Hash mismatch: expected " ++ SpanHash.hash (Span.this span)
           ++ ", got " ++ calculateSpanHash (spanObject span)
         /\ SpanHash.hash (Span.this span) <> calculateSpanHash (spanObject span))
        \/ (LedgerError.error e = "Invalid signature"
            /\ truthy_string (signature_of span) = true
            /\ exists identity,
                 Database.identity db = Some identity
                 /\ verifySpan span (Identity.private_key_handle identity) = false)
        \/ (exists parent_id,
              LedgerError.error e = "Parent span " ++ parent_id ++ " not found"
              /\ Span.parent_id span = Some parent_id
              /\ parent_id <> ""
              /\ forall s, In s (getSpansByTrace (Contract.id contract) db) ->
                           Span.id s <> parent_id)).
Proof.
  destruct (verifyLedger_closed_form db) as [-> _].
  rewrite in_flat_map. intros [contract [Hc H]].
  rewrite in_flat_map in H. destruct H as [span [Hs He]].
  exists contract, span.
  split; [unfold getAllContracts in Hc; now apply In_sort in Hc|].
  split; [exact Hs|]. now apply In_verifySpanInLedger.
Qed.


End ReportFacts.

Lemma verifyLedger_errors_justified_witness :
  let e := LedgerError.mk "s3" "Parent span s0 not found" in
  exists contract span,
    In contract (Database.contracts Example.damaged_ledger)
    /\ In span (@getSpansByTrace Example.runtime (Contract.id contract)
                  Example.damaged_ledger)
    /\ LedgerError.span_id e = Span.id span
    /\ ((LedgerError.error e
         = "Hash mismatch: expected " ++ SpanHash.hash (Span.this span)
           ++ ", got " ++ @calculateSpanHash Example.runtime (Example.span_object span)
         /\ SpanHash.hash (Span.this span)
            <> @calculateSpanHash Example.runtime (Example.span_object span))
        \/ (LedgerError.error e = "Invalid signature"
            /\ truthy_string (signature_of span) = true
            /\ exists identity,
                 Database.identity Example.damaged_ledger = Some identity
                 /\ @verifySpan Example.runtime span
                      (Identity.private_key_handle identity) = false)
        \/ (exists parent_id,
              LedgerError.error e = "Parent span " ++ parent_id ++ " not found"
              /\ Span.parent_id span = Some parent_id
              /\ parent_id <> ""
              /\ forall s, In s (@getSpansByTrace Example.runtime
                                   (Contract.id contract) Example.damaged_ledger) ->
                           Span.id s <> parent_id)).
Proof.
  intros e.
  apply (@verifyLedger_errors_justified Example.runtime Example.damaged_ledger e).
  vm_compute. repeat (try (left; reflexivity); right).
Defined.

(* ================================================================== *)
(** * Properties: the sessions and the export *)
(* ================================================================== *)

Lemma ltb_irrefl (s : string) : String.ltb s s = false.
Proof.
  unfold String.ltb.
  assert (String.compare s s = Eq) as ->; [|reflexivity].
  induction s as [|c s IH]; [reflexivity|]. simpl.
  now rewrite compare_ascii_refl.
Qed.

Lemma ltb_total (a b : string) :
  a <> b -> String.ltb b a = negb (String.ltb a b).
Proof.
  intros Hne. unfold String.ltb. rewrite (String.compare_antisym b a).
  destruct (String.compare a b) eqn:E; try reflexivity.
  apply String.compare_eq_iff in E. contradiction.
Qed.

(** X29.  The store of sessions keeps one session for each user, and
    [getCurrentSession] answers with the session of the smallest [user_id],
    not with the session saved last: after two sessions have been saved, it is
    the first one when its [user_id] is the smaller; clearing the second
    session then leaves the first user logged in, and only when both have one
    [user_id] has the second session replaced the first. *)
Theorem getCurrentSession_two_sessions (first second : Session.t) :
  let store := saveSession second (saveSession first []) in
  getCurrentSession store
  = Some (if String.ltb (Session.user_id first) (Session.user_id second)
          then first else second)
  /\ (Session.user_id first <> Session.user_id second ->
      getCurrentSession (clearSession (Session.user_id second) store) = Some first
      /\ isLoggedIn (clearSession (Session.user_id second) store) = true)
  /\ (Session.user_id first = Session.user_id second ->
      store = [second]
      /\ isLoggedIn (clearSession (Session.user_id second) store) = false).
Proof.
  intros store. subst store.
  unfold saveSession, store_put, clearSession, store_delete, isLoggedIn. simpl.
  destruct (String.eqb_spec (Session.user_id first) (Session.user_id second))
    as [Heq|Hne]; simpl.
  - rewrite Heq, ltb_irrefl. rewrite String.eqb_refl. simpl.
    split; [reflexivity|]. split; [contradiction|]. auto.
  - rewrite (ltb_total Hne).
    destruct (String.ltb (Session.user_id first) (Session.user_id second)); simpl.
    + split; [reflexivity|]. split; [|contradiction]. intros _.
      apply String.eqb_neq in Hne. rewrite Hne, String.eqb_refl. simpl. auto.
    + split; [reflexivity|]. split; [|contradiction]. intros _.
      apply String.eqb_neq in Hne. rewrite Hne, String.eqb_refl. simpl. auto.
Qed.

Lemma JSValue_nested_ind (P : JSValue -> Prop) :
  P JUndefined -> P JNull -> (forall b, P (JBool b)) -> (forall n, P (JNum n)) ->
  (forall s, P (JStr s)) ->
  (forall elems, Forall P elems -> P (JArr elems)) ->
  (forall props, Forall (fun kv => P (snd kv)) props -> P (JObj props)) ->
  forall v, P v.
Proof.
  intros H1 H2 H3 H4 H5 H6 H7. fix IH 1. intros [| |b|n|s|elems|props].
  - exact H1.
  - exact H2.
  - apply H3.
  - apply H4.
  - apply H5.
  - apply H6. induction elems as [|x rest IHl]; constructor; [apply IH|exact IHl].
  - apply H7. induction props as [|[k x] rest IHl]; constructor;
      [apply IH|exact IHl].
Qed.

Lemma no_line_feed_app (a b : string) :
  no_line_feed (a ++ b) = no_line_feed a && no_line_feed b.
Proof.
  unfold no_line_feed. now rewrite list_ascii_of_string_app, forallb_app.
Qed.

Lemma no_line_feed_uint (u : Decimal.uint) :
  no_line_feed (NilZero.string_of_uint u) = true.
Proof.
  assert (no_line_feed (NilEmpty.string_of_uint u) = true) as H
    by (unfold no_line_feed; induction u; simpl; auto).
  destruct u; exact H || reflexivity.
Qed.

Lemma no_line_feed_string_of_Z (n : Z) : no_line_feed (string_of_Z n) = true.
Proof.
  unfold string_of_Z, NilZero.string_of_int.
  destruct (Z.to_int n); [apply no_line_feed_uint|].
  change (no_line_feed (String "-" ?s)) with (no_line_feed s).
  apply no_line_feed_uint.
Qed.

Lemma no_line_feed_quote_char (c : ascii) : no_line_feed (quote_char c) = true.
Proof.
  unfold quote_char. cbv zeta.
  destruct (N_of_ascii c =? 34)%N; [reflexivity|].
  destruct (N_of_ascii c =? 92)%N; [reflexivity|].
  destruct (N_of_ascii c =? 8)%N; [reflexivity|].
  destruct (N_of_ascii c =? 9)%N; [reflexivity|].
  destruct (N_of_ascii c =? 10)%N eqn:E1; [reflexivity|].
  destruct (N_of_ascii c =? 12)%N; [reflexivity|].
  destruct (N_of_ascii c =? 13)%N; [reflexivity|].
  destruct (N_of_ascii c <? 32)%N eqn:E32.
  - rewrite no_line_feed_app. simpl.
    unfold no_line_feed. simpl.
    pose proof (lower_hex_hex_digit (N_of_ascii c / 16)) as H1.
    pose proof (lower_hex_hex_digit (N_of_ascii c mod 16)) as H2.
    unfold lower_hex in *. cbv zeta in *.
    destruct (N.eqb_spec (N_of_ascii (hex_digit (N_of_ascii c / 16))) 10) as [e|_];
      [rewrite e in H1; discriminate H1|].
    destruct (N.eqb_spec (N_of_ascii (hex_digit (N_of_ascii c mod 16))) 10) as [e|_];
      [rewrite e in H2; discriminate H2|].
    reflexivity.
  - unfold no_line_feed, str1. simpl. now rewrite E1.
Qed.

Lemma no_line_feed_quote (s : string) : no_line_feed (quote s) = true.
Proof.
  unfold quote. rewrite !no_line_feed_app.
  assert (no_line_feed (quote_chars s) = true) as ->; [|reflexivity].
  induction s as [|c s IH]; [reflexivity|].
  simpl. now rewrite no_line_feed_app, no_line_feed_quote_char, IH.
Qed.

Lemma no_line_feed_concat (sep : string) (l : list string) :
  no_line_feed sep = true ->
  Forall (fun s => no_line_feed s = true) l ->
  no_line_feed (String.concat sep l) = true.
Proof.
  intros Hsep Hl. induction Hl as [|x rest Hx Hrest IH]; [reflexivity|].
  destruct rest as [|y rest']; [exact Hx|].
  change (String.concat sep (x :: y :: rest'))
    with (x ++ sep ++ String.concat sep (y :: rest')).
  now rewrite !no_line_feed_app, Hx, Hsep, IH.
Qed.

Lemma no_line_feed_cons (c : ascii) (s : string) :
  no_line_feed (String c s) = negb (N_of_ascii c =? 10)%N && no_line_feed s.
Proof. reflexivity. Qed.

(** The text of [JSON.stringify] without indentation is one line. *)
Lemma no_line_feed_JSON_stringify (v : JSValue) :
  forall s, JSON_stringify v = Some s -> no_line_feed s = true.
Proof.
  induction v as [| |b|n|s0|elems IH|props IH] using JSValue_nested_ind;
    intros s H; simpl in H.
  - discriminate H.
  - now injection H as <-.
  - destruct b; now injection H as <-.
  - injection H as <-. apply no_line_feed_string_of_Z.
  - injection H as <-. apply no_line_feed_quote.
  - injection H as <-. rewrite no_line_feed_cons, no_line_feed_app.
    rewrite no_line_feed_concat; [reflexivity|reflexivity|].
    induction IH as [|x rest Hx Hrest IHl]; [constructor|].
    destruct (JSON_stringify x) as [sx|] eqn:Ex; constructor; auto.
  - injection H as <-. rewrite no_line_feed_cons, no_line_feed_app.
    rewrite no_line_feed_concat; [reflexivity|reflexivity|].
    induction IH as [|[k x] rest Hx Hrest IHl]; [constructor|].
    simpl in Hx.
    destruct (JSON_stringify x) as [sx|] eqn:Ex; [|exact IHl].
    constructor; [|exact IHl].
    change (no_line_feed (quote k ++ ":" ++ sx) = true).
    rewrite no_line_feed_app, no_line_feed_quote.
    change (no_line_feed (":" ++ sx)) with (no_line_feed sx). now apply Hx.
Qed.

Lemma no_line_feed_JSON_stringify_object (props : JSObject) :
  no_line_feed (JSON_stringify_object props) = true.
Proof.
  unfold JSON_stringify_object.
  destruct (JSON_stringify (JObj props)) as [s|] eqn:E; [|reflexivity].
  eapply no_line_feed_JSON_stringify; eauto.
Qed.

Lemma split_lines_line (a rest : string) :
  no_line_feed a = true ->
  split_lines (a ++ line_feed ++ rest) = a :: split_lines rest.
Proof.
  unfold no_line_feed. induction a as [|c a IH]; intros H; [reflexivity|].
  simpl in H. apply andb_true_iff in H. destruct H as [Hc Ha].
  apply negb_true_iff in Hc.
  change (split_lines (String c a ++ line_feed ++ rest))
    with (if (N_of_ascii c =? 10)%N then EmptyString :: split_lines (a ++ line_feed ++ rest)
          else match split_lines (a ++ line_feed ++ rest) with
               | line :: lines => String c line :: lines
               | [] => [String c EmptyString]
               end).
  now rewrite Hc, IH.
Qed.

Lemma split_lines_concat (x : string) (l : list string) :
  Forall (fun s => no_line_feed s = true) (x :: l) ->
  split_lines (String.concat line_feed (x :: l) ++ line_feed) = (x :: l ++ [""])%list.
Proof.
  revert x. induction l as [|y rest IH]; intros x H.
  - simpl String.concat. apply Forall_inv in H.
    rewrite <- (append_empty (x ++ line_feed)), append_assoc.
    now rewrite split_lines_line.
  - change (String.concat line_feed (x :: y :: rest))
      with (x ++ line_feed ++ String.concat line_feed (y :: rest)).
    rewrite !append_assoc.
    rewrite split_lines_line by (now apply Forall_inv in H).
    rewrite IH by (now apply Forall_inv_tail in H). reflexivity.
Qed.

Section ExportFacts.
Context {RT : Runtime}.

(** X30.  The [ndjson] export has one line for every span: the text of a
    span holds no line feed, and splitting the export at the line feeds gives
    the texts of the spans, in the order of the store, followed by one empty
    string.  The export of an empty ledger is a single line feed. *)
Theorem exportLedger_ndjson_lines (db : Database.t) :
  let lines :=
    map (fun s => JSON_stringify_object (spanObject s)) (Database.spans db) in
  Blob.type (exportLedger ndjson db) = "application/x-ndjson"
  /\ (forall line, In line lines -> no_line_feed line = true)
  /\ split_lines (Blob.content (exportLedger ndjson db))
     = match lines with
       | [] => [""; ""]
       | _ :: _ => (lines ++ [""])%list
       end.
Proof.
  intros lines. split; [reflexivity|].
  assert (forall line, In line lines -> no_line_feed line = true) as Hlines.
  { intros line H. subst lines. apply in_map_iff in H.
    destruct H as [s [<- _]]. apply no_line_feed_JSON_stringify_object. }
  split; [exact Hlines|].
  unfold exportLedger. cbn [Blob.content]. fold lines.
  destruct lines as [|x l]; [reflexivity|].
  apply split_lines_concat. now apply Forall_forall.
Qed.

End ExportFacts.
